(** * The structured logger of beto ([package logger])

    A shallow embedding of the logger that [src/pkg/config/config.go]
    carries after its first document separator: levels and formats, the
    heap-allocated [Logger], derivation by [clone], emission through
    [log], the two renderers of [formatEntry], the HTTP middleware and
    the [io.Writer] adapter.

    Go values are modelled as the code has them: [LogLevel] and
    [LogFormat] are Go [int]s (here [Z]), a [*Logger] is a location in
    a store, a [map[string]interface{}] is a location in a store of
    [gmap string Value], and every call is a state transformer whose
    outcome is a normal return, a panic, or [os.Exit]. *)

From stdpp Require Import gmap strings list fin_maps pretty sorting.
From Stdlib Require Import ZArith Ascii String.

Local Open Scope Z_scope.

(* ================================================================== *)
(** * Go strings: the library functions the logger calls               *)
(* ================================================================== *)

(** A Go string is a sequence of bytes; [string] (a list of [ascii],
    i.e. of 8-bit characters) is used for it as it is. *)

Definition byte_code (c : ascii) : Z := Z.of_N (N_of_ascii c).
Definition byte_of (z : Z) : ascii := ascii_of_N (Z.to_N z).

Fixpoint string_map (f : ascii → ascii) (s : string) : string :=
  match s with
  | EmptyString => EmptyString
  | String c s' => String (f c) (string_map f s')
  end.

Fixpoint string_forallb (p : ascii → bool) (s : string) : bool :=
  match s with
  | EmptyString => true
  | String c s' => p c && string_forallb p s'
  end.

(** [len(s)] *)
Definition len (s : string) : Z := Z.of_nat (String.length s).

(** [c < utf8.RuneSelf] *)
Definition below_RuneSelf (c : ascii) : bool := byte_code c <? 128.

Definition isASCII (s : string) : bool := string_forallb below_RuneSelf s.

(** The ASCII arms of [unicode.ToUpper] and [unicode.ToLower]. *)
Definition upper_byte (c : ascii) : ascii :=
  if (97 <=? byte_code c) && (byte_code c <=? 122)
  then byte_of (byte_code c - 32) else c.

Definition lower_byte (c : ascii) : ascii :=
  if (65 <=? byte_code c) && (byte_code c <=? 90)
  then byte_of (byte_code c + 32) else c.

(** The [interface{}] values a field or a format argument may hold:
    nil, a [bool], an [int], a [string], and one value that prints but
    that [encoding/json] refuses. *)
Inductive Value : Type :=
  | VNil                      (* the nil interface value *)
  | VBool (b : bool)
  | VInt (n : Z)
  | VString (s : string)
  | VNaN.                     (* float64 NaN: printable, not JSON-encodable *)

Global Instance Value_eq_dec : EqDecision Value.
Proof. solve_decision. Defined.

(** The library functions whose full definition lies outside the
    repository and on which no property of the logger depends are left
    abstract: [fmt.Sprintf] on a caller-chosen format, and the
    rune-by-rune path [strings.Map(unicode.ToUpper, s)] /
    [strings.Map(unicode.ToLower, s)] that [strings.ToUpper] and
    [strings.ToLower] take for text holding a byte ≥ 0x80. *)
Class GoLib := {
  fmt_Sprintf : string → list Value → string;
  unicode_upper : string → string;
  unicode_lower : string → string
}.

(** [strings.Join(elems, sep)] *)
Fixpoint strings_Join (elems : list string) (sep : string) : string :=
  match elems with
  | [] => ""
  | [e] => e
  | e :: rest => e +:+ sep +:+ strings_Join rest sep
  end.

(** [strings.Contains(s, substr)]: some suffix of [s] starts with
    [substr]. *)
Fixpoint strings_Contains (s substr : string) : bool :=
  String.prefix substr s ||
  match s with
  | EmptyString => false
  | String _ s' => strings_Contains s' substr
  end.

(** The last element of [strings.Split(file, "/")]: the text after the
    final slash (the whole text when there is none).  [acc] is the
    segment read so far. *)
Fixpoint last_segment (acc s : string) : string :=
  match s with
  | EmptyString => acc
  | String c s' =>
      if Ascii.eqb c "/" then last_segment "" s'
      else last_segment (acc +:+ String c "") s'
  end.

Section Case.
Context `{GoLib}.

(** [strings.ToUpper]: text of ASCII bytes only is mapped byte by
    byte; any other text goes through [unicode.ToUpper]. *)
Definition strings_ToUpper (s : string) : string :=
  if isASCII s then string_map upper_byte s else unicode_upper s.

Definition strings_ToLower (s : string) : string :=
  if isASCII s then string_map lower_byte s else unicode_lower s.
End Case.

(* ================================================================== *)
(** * Levels and formats                                               *)
(* ================================================================== *)

(** [type LogLevel int] with [DEBUG LogLevel = iota], [INFO], [WARN],
    [ERROR], [FATAL]. *)
Definition LogLevel := Z.
Definition DEBUG : LogLevel := 0.
Definition INFO : LogLevel := 1.
Definition WARN : LogLevel := 2.
Definition ERROR : LogLevel := 3.
Definition FATAL : LogLevel := 4.

(** [func (l LogLevel) String() string] *)
Definition LogLevel_String (l : LogLevel) : string :=
  match l with
  | 0 => "DEBUG"
  | 1 => "INFO"
  | 2 => "WARN"
  | 3 => "ERROR"
  | 4 => "FATAL"
  | _ => "UNKNOWN"
  end.

(** [type LogFormat int] with [TextFormat LogFormat = iota],
    [JSONFormat]. *)
Definition LogFormat := Z.
Definition TextFormat : LogFormat := 0.
Definition JSONFormat : LogFormat := 1.

Section Parse.
Context `{GoLib}.

(** [func parseLogLevel(level string) LogLevel]: a [switch] on
    [strings.ToUpper(level)]. *)
Definition parseLogLevel (level : string) : LogLevel :=
  let u := strings_ToUpper level in
  if String.eqb u "DEBUG" then DEBUG
  else if String.eqb u "INFO" then INFO
  else if String.eqb u "WARN" || String.eqb u "WARNING" then WARN
  else if String.eqb u "ERROR" then ERROR
  else if String.eqb u "FATAL" then FATAL
  else INFO.

(** [func parseLogFormat(format string) LogFormat]: a [switch] on
    [strings.ToLower(format)]. *)
Definition parseLogFormat (format : string) : LogFormat :=
  let u := strings_ToLower format in
  if String.eqb u "json" then JSONFormat
  else if String.eqb u "text" || String.eqb u "plain" then TextFormat
  else JSONFormat.
End Parse.

(* ================================================================== *)
(** * [encoding/json] on a [LogEntry]                                  *)
(* ================================================================== *)

(** [utf8.DecodeRuneInString] at a lead byte [p0 ≥ 0x80] followed by
    [rest]: the rune and its width; [(RuneError, 1)] for an invalid or
    truncated sequence.  The table gives, per lead byte, the width and
    the accepted range of the second byte. *)
Definition RuneError : Z := 0xFFFD.

Definition utf8_first (p0 : Z) : Z * Z * Z :=
  if p0 <? 0xC2 then (1, 0, 0)
  else if p0 <=? 0xDF then (2, 0x80, 0xBF)
  else if p0 =? 0xE0 then (3, 0xA0, 0xBF)
  else if p0 =? 0xED then (3, 0x80, 0x9F)
  else if p0 <=? 0xEF then (3, 0x80, 0xBF)
  else if p0 =? 0xF0 then (4, 0x90, 0xBF)
  else if p0 <=? 0xF3 then (4, 0x80, 0xBF)
  else if p0 =? 0xF4 then (4, 0x80, 0x8F)
  else (1, 0, 0).

Definition byte_at (s : string) (i : nat) : option Z :=
  byte_code <$> String.get i s.

Definition utf8_DecodeRune (p0 : Z) (rest : string) : Z * nat :=
  let '(sz, lo, hi) := utf8_first p0 in
  let bad := (RuneError, 1%nat) in
  let inside (a b x : Z) := (a <=? x) && (x <=? b) in
  if sz =? 1 then bad else
  match byte_at rest 0 with
  | None => bad
  | Some b1 =>
    if negb (inside lo hi b1) then bad
    else if sz =? 2
    then (Z.lor (Z.shiftl (Z.land p0 0x1F) 6) (Z.land b1 0x3F), 2%nat)
    else
    match byte_at rest 1 with
    | None => bad
    | Some b2 =>
      if negb (inside 0x80 0xBF b2) then bad
      else if sz =? 3
      then (Z.lor (Z.shiftl (Z.land p0 0x0F) 12)
              (Z.lor (Z.shiftl (Z.land b1 0x3F) 6) (Z.land b2 0x3F)), 3%nat)
      else
      match byte_at rest 2 with
      | None => bad
      | Some b3 =>
        if negb (inside 0x80 0xBF b3) then bad
        else (Z.lor (Z.shiftl (Z.land p0 0x07) 18)
                (Z.lor (Z.shiftl (Z.land b1 0x3F) 12)
                   (Z.lor (Z.shiftl (Z.land b2 0x3F) 6) (Z.land b3 0x3F))),
              4%nat)
      end
    end
  end.

Definition dquote : ascii := "034"%char.
Definition backslash : ascii := "092"%char.

(** [hex[n]] for the table [hex = "0123456789abcdef"]. *)
Definition hex_digit (n : Z) : ascii :=
  if n <? 10 then byte_of (48 + n) else byte_of (87 + n).

(** [htmlSafeSet[b]]: the printable ASCII bytes other than the quote,
    the backslash and the three HTML-sensitive bytes. *)
Definition htmlSafe (c : ascii) : bool :=
  let b := byte_code c in
  (0x20 <=? b) && (b <? 0x80) &&
  negb ((b =? 34) || (b =? 38) || (b =? 60) || (b =? 62) || (b =? 92)).

(** One byte below [utf8.RuneSelf] as [appendString] writes it. *)
Definition json_byte (c : ascii) : string :=
  let b := byte_code c in
  if htmlSafe c then String c ""
  else if (b =? 92) || (b =? 34) then String backslash (String c "")
  else if b =? 8 then String backslash "b"
  else if b =? 12 then String backslash "f"
  else if b =? 10 then String backslash "n"
  else if b =? 13 then String backslash "r"
  else if b =? 9 then String backslash "t"
  else String backslash
         ("u00" +:+ String (hex_digit (Z.shiftr b 4))
                      (String (hex_digit (Z.land b 0xF)) "")).

(** The body of [appendString(dst, src, escapeHTML = true)] between
    its two quotes.  [pending] counts the continuation bytes of the
    rune being passed over; they are copied, or dropped when the rune
    was already replaced by an escape. *)
Fixpoint json_escape_from (pending : nat) (drop : bool) (s : string)
  : string :=
  match s with
  | EmptyString => EmptyString
  | String c rest =>
    match pending with
    | S k =>
        (if drop then "" else String c "") +:+ json_escape_from k drop rest
    | O =>
        if below_RuneSelf c
        then json_byte c +:+ json_escape_from 0 false rest
        else
          let '(r, size) := utf8_DecodeRune (byte_code c) rest in
          if (r =? RuneError) && (size =? 1)%nat
          then String backslash "ufffd" +:+ json_escape_from 0 false rest
          else if (r =? 0x2028) || (r =? 0x2029)
          then String backslash
                 ("u202" +:+ String (hex_digit (Z.land r 0xF)) "")
               +:+ json_escape_from (size - 1) true rest
          else String c (json_escape_from (size - 1) false rest)
    end
  end.

Definition json_escape (s : string) : string := json_escape_from 0 false s.

(** A Go string as a JSON string. *)
Definition json_string (s : string) : string :=
  String dquote (json_escape s +:+ String dquote "").

(** The encoder of an [interface{}] by its dynamic type; [None] is the
    [UnsupportedValueError] the encoder returns for NaN. *)
Definition json_value (v : Value) : option string :=
  match v with
  | VNil => Some "null"
  | VBool true => Some "true"
  | VBool false => Some "false"
  | VInt n => Some (pretty n)
  | VString s => Some (json_string s)
  | VNaN => None
  end.

(** The members of a [map[string]interface{}], in the key order the
    encoder sorts them into; the first value that cannot be encoded
    fails the whole encoding. *)
Fixpoint json_members (kvs : list (string * Value)) : option (list string) :=
  match kvs with
  | [] => Some []
  | (k, v) :: rest =>
      match json_value v with
      | None => None
      | Some jv =>
          match json_members rest with
          | None => None
          | Some js => Some ((json_string k +:+ ":" +:+ jv) :: js)
          end
      end
  end.

Definition key_le (a b : string * Value) : Prop := String.le a.1 b.1.

Global Instance key_le_dec : RelDecision key_le.
Proof. intros a b. unfold key_le. apply _. Defined.

Definition json_map (m : gmap string Value) : option string :=
  match json_members (merge_sort key_le (map_to_list m)) with
  | None => None
  | Some js => Some ("{" +:+ strings_Join js "," +:+ "}")
  end.

(** [type LogEntry struct] with its tags [json:"timestamp"],
    [json:"level"], [json:"message"], [json:"caller,omitempty"] and
    [json:"fields,omitempty"].  [Fields] holds the content of the map
    the entry refers to: the entry is rendered as soon as it is built. *)
Record LogEntry := {
  Timestamp : string;
  Level : string;
  Message : string;
  Caller : string;
  Fields : gmap string Value
}.

Definition json_key (k : string) : string := json_string k +:+ ":".

(** [json.Marshal(entry)]; [None] stands for [err != nil]. *)
Definition json_Marshal (entry : LogEntry) : option string :=
  let head :=
    json_key "timestamp" +:+ json_string (Timestamp entry) +:+ "," +:+
    json_key "level" +:+ json_string (Level entry) +:+ "," +:+
    json_key "message" +:+ json_string (Message entry) in
  let caller :=
    if String.eqb (Caller entry) "" then ""
    else "," +:+ json_key "caller" +:+ json_string (Caller entry) in
  if decide (size (Fields entry) = 0%nat)
  then Some ("{" +:+ head +:+ caller +:+ "}")
  else match json_map (Fields entry) with
       | None => None
       | Some fs =>
           Some ("{" +:+ head +:+ caller +:+ "," +:+ json_key "fields"
                 +:+ fs +:+ "}")
       end.

(* ================================================================== *)
(** * Rendering an entry                                               *)
(* ================================================================== *)

(** [fmt.Sprintf("%v", v)] *)
Definition fmt_v (v : Value) : string :=
  match v with
  | VNil => "<nil>"
  | VBool true => "true"
  | VBool false => "false"
  | VInt n => pretty n
  | VString s => s
  | VNaN => "NaN"
  end.

(** What one call sees of its surroundings: the clock, the call stack
    and the order in which this call's [range] loops visit a map.  Go
    leaves that order open, so it is any enumeration of the entries. *)
Record Env := {
  time_Now : string;        (* time.Now().UTC().Format(time.RFC3339) *)
  time_Since : string;      (* time.Since(start).String() *)
  runtime_Caller : Z → option (string * Z);  (* file, line; None: !ok *)
  range_of : gmap string Value → list (string * Value);
  range_perm : ∀ m, range_of m ≡ₚ map_to_list m
}.

(** The [case TextFormat] arm of [formatEntry]; each [fmt.Sprintf]
    there has a fixed format, written out. *)
Definition formatText (e : Env) (entry : LogEntry) : string :=
  let parts := [] in
  let parts := parts ++ [Timestamp entry] in
  let parts := parts ++ ["[" +:+ Level entry +:+ "]"] in
  let parts :=
    if negb (String.eqb (Caller entry) "")
    then parts ++ ["(" +:+ Caller entry +:+ ")"] else parts in
  let parts := parts ++ [Message entry] in
  let parts :=
    if decide (0 < size (Fields entry))%nat
    then
      let fieldParts :=
        foldl (λ acc kv, acc ++ [kv.1 +:+ "=" +:+ fmt_v kv.2]) []
              (range_of e (Fields entry)) in
      parts ++ ["{" +:+ strings_Join fieldParts ", " +:+ "}"]
    else parts in
  strings_Join parts " ".

(** [func (l *Logger) formatEntry(entry LogEntry) string], on the
    receiver's [format]: the JSON arm falls through to the text arm
    when [json.Marshal] fails. *)
Definition formatEntry (e : Env) (fmt : LogFormat) (entry : LogEntry)
  : string :=
  if fmt =? JSONFormat then
    match json_Marshal entry with
    | Some data => data
    | None => formatText e entry
    end
  else if fmt =? TextFormat then formatText e entry
  else Message entry.

(* ================================================================== *)
(** * The store and the outcome of a call                              *)
(* ================================================================== *)

Definition loc := positive.

(** An [io.Writer]: [os.Stdout] or any other destination. *)
Inductive Writer := Stdout | Sink (id : positive).

Global Instance Writer_eq_dec : EqDecision Writer.
Proof. solve_decision. Defined.

(** [type Logger struct]; [output] is [None] for a nil interface and
    [fields] is [None] for a nil map. *)
Record Logger := {
  level : LogLevel;
  format : LogFormat;
  output : option Writer;
  fields : option loc;
  callerSkip : Z
}.

(** The calls an [http.ResponseWriter] receives. *)
Inductive RWCall :=
  | CallHeader
  | CallWrite (p : string)
  | CallWriteHeader (code : Z).

(** [type responseWriterWrapper struct]: the embedded writer and the
    captured code. *)
Record responseWriterWrapper := {
  ResponseWriter : positive;
  statusCode : Z
}.

Record World := {
  loggers : gmap loc Logger;
  maps : gmap loc (gmap string Value);
  wrappers : gmap loc responseWriterWrapper;
  written : list (Writer * string);     (* every Write, oldest first *)
  served : list (positive * RWCall)     (* calls on the inner writers *)
}.

Definition set_loggers (f : gmap loc Logger → gmap loc Logger) (w : World) :=
  {| loggers := f (loggers w); maps := maps w; wrappers := wrappers w;
     written := written w; served := served w |}.
Definition set_maps f (w : World) :=
  {| loggers := loggers w; maps := f (maps w); wrappers := wrappers w;
     written := written w; served := served w |}.
Definition set_wrappers f (w : World) :=
  {| loggers := loggers w; maps := maps w; wrappers := f (wrappers w);
     written := written w; served := served w |}.
Definition set_written f (w : World) :=
  {| loggers := loggers w; maps := maps w; wrappers := wrappers w;
     written := f (written w); served := served w |}.
Definition set_served f (w : World) :=
  {| loggers := loggers w; maps := maps w; wrappers := wrappers w;
     written := written w; served := f (served w) |}.

Inductive Outcome (A : Type) :=
  | Returned (a : A) (w : World)
  | Panicked (w : World)
  | Exited (code : Z) (w : World).
Arguments Returned {A} a w.
Arguments Panicked {A} w.
Arguments Exited {A} code w.

Definition Go (A : Type) : Type := World → Outcome A.

Global Instance Go_ret : MRet Go := λ A a w, Returned a w.
Global Instance Go_bind : MBind Go := λ A B k m w,
  match m w with
  | Returned a w' => k a w'
  | Panicked w' => Panicked w'
  | Exited c w' => Exited c w'
  end.

(** The world an outcome leaves behind. *)
Definition world_of {A} (o : Outcome A) : World :=
  match o with
  | Returned _ w | Panicked w | Exited _ w => w
  end.

(** ** Primitive steps *)

(** Reading through a [*Logger]; a nil pointer panics. *)
Definition get_logger (l : loc) : Go Logger := λ w,
  match loggers w !! l with
  | Some L => Returned L w
  | None => Panicked w
  end.

(** [&Logger{...}] *)
Definition new_logger (L : Logger) : Go loc := λ w,
  let p := fresh (dom (loggers w)) in
  Returned p (set_loggers <[p := L]> w).

(** Assigning through a [*Logger]. *)
Definition put_logger (l : loc) (f : Logger → Logger) : Go unit := λ w,
  match loggers w !! l with
  | Some L => Returned tt (set_loggers <[l := f L]> w)
  | None => Panicked w
  end.

(** [make(map[string]interface{})] *)
Definition make_map : Go loc := λ w,
  let p := fresh (dom (maps w)) in
  Returned p (set_maps <[p := ∅]> w).

(** The content of a map; a nil map reads as the empty one. *)
Definition map_read (r : option loc) : Go (gmap string Value) := λ w,
  Returned (default ∅ (r ≫= λ p, maps w !! p)) w.

(** [m[k] = v]; assignment to an entry of a nil map panics. *)
Definition map_store (r : option loc) (k : string) (v : Value) : Go unit :=
  λ w,
  match r ≫= λ p, (p,.) <$> maps w !! p with
  | Some (p, m) => Returned tt (set_maps <[p := <[k := v]> m]> w)
  | None => Panicked w
  end.

(** [out.Write(bytes)]; the result is discarded by every caller here.
    A nil interface panics. *)
Definition write_to (out : option Writer) (bytes : string) : Go unit := λ w,
  match out with
  | Some o => Returned tt (set_written (λ t, t ++ [(o, bytes)]) w)
  | None => Panicked w
  end.

(** A run-time panic. *)
Definition panic {A} : Go A := λ w, Panicked w.

(** [os.Exit(code)] *)
Definition os_Exit {A} (code : Z) : Go A := λ w, Exited code w.

(** A [for ... range] body run over the visited elements in order. *)
Fixpoint for_each {A} (xs : list A) (body : A → Go unit) : Go unit :=
  match xs with
  | [] => mret tt
  | x :: xs' => body x ;; for_each xs' body
  end.

(* ================================================================== *)
(** * The logger                                                       *)
(* ================================================================== *)

(** Go's [int] addition on a 64-bit platform. *)
Definition int_add (a b : Z) : Z := (a + b + 2 ^ 63) mod 2 ^ 64 - 2 ^ 63.

Definition newline : string := String "010"%char "".

(** [type Config struct] of the logger package. *)
Record Config := {
  cfg_Level : string;
  cfg_Format : string;
  cfg_Output : option Writer;
  cfg_CallerSkip : Z
}.

(** [func (l *Logger) getCaller() string], on the receiver's
    [callerSkip]. *)
Definition getCaller (e : Env) (L : Logger) : string :=
  match runtime_Caller e (int_add 3 (callerSkip L)) with
  | None => ""
  | Some (file, line) => last_segment "" file +:+ ":" +:+ pretty line
  end.

(** The [LogEntry] that [log] builds once the level has passed the
    threshold. *)
Definition build_entry (e : Env) (L : Logger) (lv : LogLevel)
    (message : string) (fs : gmap string Value) : LogEntry :=
  let entry :=
    {| Timestamp := time_Now e; Level := LogLevel_String lv;
       Message := message; Caller := ""; Fields := fs |} in
  if (ERROR <=? lv) || (level L =? DEBUG) then
    let caller := getCaller e L in
    if negb (String.eqb caller "")
    then {| Timestamp := Timestamp entry; Level := Level entry;
            Message := Message entry; Caller := caller;
            Fields := Fields entry |}
    else entry
  else entry.

Section Logger.
Context `{GoLib}.

(** [func New(config Config) *Logger] *)
Definition New (config : Config) : Go loc :=
  fs ← make_map;
  logger ← new_logger
    {| level := parseLogLevel (cfg_Level config);
       format := parseLogFormat (cfg_Format config);
       output := cfg_Output config;
       fields := Some fs;
       callerSkip := cfg_CallerSkip config |};
  L ← get_logger logger;
  (if output L is None
   then put_logger logger (λ L,
          {| level := level L; format := format L; output := Some Stdout;
             fields := fields L; callerSkip := callerSkip L |})
   else mret tt);;
  mret logger.

(** [func NewDefault() *Logger] *)
Definition NewDefault : Go loc :=
  New {| cfg_Level := "info"; cfg_Format := "json";
         cfg_Output := Some Stdout; cfg_CallerSkip := 0 |}.

(** [func (l *Logger) clone() *Logger] *)
Definition clone (e : Env) (l : loc) : Go loc :=
  newFields ← make_map;
  L ← get_logger l;
  src ← map_read (fields L);
  for_each (range_of e src) (λ kv, map_store (Some newFields) kv.1 kv.2);;
  new_logger {| level := level L; format := format L; output := output L;
                fields := Some newFields; callerSkip := callerSkip L |}.

(** [func (l *Logger) WithField(key string, value interface{}) *Logger] *)
Definition WithField (e : Env) (l : loc) (key : string) (value : Value)
  : Go loc :=
  newLogger ← clone e l;
  N ← get_logger newLogger;
  map_store (fields N) key value;;
  mret newLogger.

(** [func (l *Logger) WithFields(fields map[string]interface{}) *Logger];
    the argument is only read, so its content is passed. *)
Definition WithFields (e : Env) (l : loc) (fs : gmap string Value)
  : Go loc :=
  newLogger ← clone e l;
  N ← get_logger newLogger;
  for_each (range_of e fs) (λ kv, map_store (fields N) kv.1 kv.2);;
  mret newLogger.

(** [func (l *Logger) WithContext(ctx context.Context) *Logger];
    [ctx] is the function [ctx.Value] on text keys, [VNil] where the
    carrier holds nothing. *)
Definition WithContext (e : Env) (l : loc) (ctx : string → Value)
  : Go loc :=
  newLogger ← clone e l;
  N ← get_logger newLogger;
  (let requestID := ctx "request_id" in
   if decide (requestID ≠ VNil)
   then map_store (fields N) "request_id" requestID else mret tt);;
  (let userID := ctx "user_id" in
   if decide (userID ≠ VNil)
   then map_store (fields N) "user_id" userID else mret tt);;
  mret newLogger.

(** [func (l *Logger) log(level LogLevel, msg string, args ...interface{})] *)
Definition log (e : Env) (l : loc) (lv : LogLevel) (msg : string)
    (args : list Value) : Go unit :=
  L ← get_logger l;
  if lv <? level L then mret tt
  else
    let message :=
      if (0 <? List.length args)%nat then fmt_Sprintf msg args else msg in
    fs ← map_read (fields L);
    let entry := build_entry e L lv message fs in
    write_to (output L) (formatEntry e (format L) entry +:+ newline).

Definition Debug e l msg args : Go unit := log e l DEBUG msg args.
Definition Info e l msg args : Go unit := log e l INFO msg args.
Definition Warn e l msg args : Go unit := log e l WARN msg args.
Definition Error e l msg args : Go unit := log e l ERROR msg args.

(** [func (l *Logger) Fatal(msg string, args ...interface{})] *)
Definition Fatal (e : Env) (l : loc) (msg : string) (args : list Value)
  : Go unit :=
  log e l FATAL msg args;;
  os_Exit 1.

(** [SetLevel], [SetFormat], [SetOutput]: plain field assignments, so
    a threshold or a format may be any [int]. *)
Definition SetLevel (l : loc) (lv : LogLevel) : Go unit :=
  put_logger l (λ L,
    {| level := lv; format := format L; output := output L;
       fields := fields L; callerSkip := callerSkip L |}).
Definition SetFormat (l : loc) (fmt : LogFormat) : Go unit :=
  put_logger l (λ L,
    {| level := level L; format := fmt; output := output L;
       fields := fields L; callerSkip := callerSkip L |}).
Definition SetOutput (l : loc) (out : option Writer) : Go unit :=
  put_logger l (λ L,
    {| level := level L; format := format L; output := out;
       fields := fields L; callerSkip := callerSkip L |}).
End Logger.

(* ================================================================== *)
(** * The HTTP middleware and the writer adapter                       *)
(* ================================================================== *)

(** What the middleware reads of an [*http.Request]. *)
Record Request := {
  Method : string;
  URL : string;           (* r.URL.String() *)
  RemoteAddr : string;
  UserAgent : string      (* r.UserAgent() *)
}.

(** A handler, seen from the middleware: the calls it makes on the
    response writer it is given, and whether it then returns or
    panics. *)
Inductive HandlerEnd := Returns | Panics.
Definition Handler := Request → list RWCall * HandlerEnd.

Definition get_wrapper (p : loc) : Go responseWriterWrapper := λ w,
  match wrappers w !! p with
  | Some W => Returned W w
  | None => Panicked w
  end.

(** [&responseWriterWrapper{...}] *)
Definition new_wrapper (W : responseWriterWrapper) : Go loc := λ w,
  let p := fresh (dom (wrappers w)) in
  Returned p (set_wrappers <[p := W]> w).

(** A call on the inner [http.ResponseWriter]. *)
Definition inner_call (rw : positive) (c : RWCall) : Go unit := λ w,
  Returned tt (set_served (λ t, t ++ [(rw, c)]) w).

(** [w.statusCode = code] through a [*responseWriterWrapper]. *)
Definition put_statusCode (p : loc) (code : Z) : Go unit := λ w,
  match wrappers w !! p with
  | Some W => Returned tt
      (set_wrappers <[p := {| ResponseWriter := ResponseWriter W;
                              statusCode := code |}]> w)
  | None => Panicked w
  end.

(** [func (w *responseWriterWrapper) WriteHeader(statusCode int)] *)
Definition WriteHeader (p : loc) (code : Z) : Go unit :=
  put_statusCode p code;;
  W ← get_wrapper p;
  inner_call (ResponseWriter W) (CallWriteHeader code).

(** One call of the handler on the wrapper: [WriteHeader] is the
    wrapper's own method, [Header] and [Write] are promoted from the
    embedded writer. *)
Definition wrapper_call (p : loc) (c : RWCall) : Go unit :=
  match c with
  | CallWriteHeader code => WriteHeader p code
  | _ => W ← get_wrapper p; inner_call (ResponseWriter W) c
  end.

(** [next.ServeHTTP(wrapped, r)] *)
Definition ServeHTTP (next : Handler) (wrapped : loc) (r : Request)
  : Go unit :=
  let '(calls, fin) := next r in
  for_each calls (wrapper_call wrapped);;
  match fin with
  | Returns => mret tt
  | Panics => panic
  end.

Section Adapters.
Context `{GoLib}.

(** The map literal of the middleware. *)
Definition request_fields (e : Env) (r : Request) (code : Z)
  : gmap string Value :=
  <["method" := VString (Method r)]>
  (<["url" := VString (URL r)]>
  (<["remote_addr" := VString (RemoteAddr r)]>
  (<["user_agent" := VString (UserAgent r)]>
  (<["status_code" := VInt code]>
  (<["duration" := VString (time_Since e)]> ∅))))).

(** The handler that [HTTPLogMiddleware] returns for [next], run on
    the response writer [w] and the request [r]. *)
Definition HTTPLogMiddleware (e : Env) (l : loc) (next : Handler)
    (w : positive) (r : Request) : Go unit :=
  wrapped ← new_wrapper {| ResponseWriter := w; statusCode := 200 |};
  ServeHTTP next wrapped r;;
  W ← get_wrapper wrapped;
  derived ← WithFields e l (request_fields e r (statusCode W));
  Info e derived "HTTP request" [].

(** [func (w *loggerWriter) Write(p []byte) (int, error)] on the
    adapter's [logger]; the error is [None] for nil. *)
Definition loggerWriter_Write (e : Env) (logger : loc) (p : string)
  : Go (Z * option string) :=
  Info e logger "%s" [VString p];;
  mret (len p, None).
End Adapters.

(* ================================================================== *)
(** * Notions the statements are written in                            *)
(* ================================================================== *)

(** The content of a logger's [fields] in a world. *)
Definition content (w : World) (L : Logger) : gmap string Value :=
  default ∅ (fields L ≫= λ p, maps w !! p).

(** The logger [clone] allocates for [L], with its own map at [p]. *)
Definition copy_of (L : Logger) (p : loc) : Logger :=
  {| level := level L; format := format L; output := output L;
     fields := Some p; callerSkip := callerSkip L |}.

(** A world after a derivation from [L]: one more map, holding [m],
    and one more logger, a copy of [L] pointing at it. *)
Definition derived_world (w : World) (L : Logger) (m : gmap string Value)
  : World :=
  set_loggers <[fresh (dom (loggers w)) := copy_of L (fresh (dom (maps w)))]>
    (set_maps <[fresh (dom (maps w)) := m]> w).

(** The three derivations, and the fields each one yields from the
    receiver's fields [src]. *)
Inductive Derivation :=
  | ByField (key : string) (value : Value)
  | ByFields (fs : gmap string Value)
  | ByContext (ctx : string → Value).

Definition derive (e : Env) (l : loc) (d : Derivation) : Go loc :=
  match d with
  | ByField key value => WithField e l key value
  | ByFields fs => WithFields e l fs
  | ByContext ctx => WithContext e l ctx
  end.

Definition context_fields (ctx : string → Value) (src : gmap string Value)
  : gmap string Value :=
  let with_request :=
    if decide (ctx "request_id" ≠ VNil)
    then <["request_id" := ctx "request_id"]> src else src in
  if decide (ctx "user_id" ≠ VNil)
  then <["user_id" := ctx "user_id"]> with_request else with_request.

Definition extend (d : Derivation) (src : gmap string Value)
  : gmap string Value :=
  match d with
  | ByField key value => <[key := value]> src
  | ByFields fs => fs ∪ src
  | ByContext ctx => context_fields ctx src
  end.

(** The five public emission calls. *)
Inductive Emission := AtDebug | AtInfo | AtWarn | AtError | AtFatal.

Definition emission_level (c : Emission) : LogLevel :=
  match c with
  | AtDebug => DEBUG
  | AtInfo => INFO
  | AtWarn => WARN
  | AtError => ERROR
  | AtFatal => FATAL
  end.

Section EmissionDefs.
Context `{GoLib}.

Definition emit (c : Emission) : Env → loc → string → list Value → Go unit :=
  match c with
  | AtDebug => Debug
  | AtInfo => Info
  | AtWarn => Warn
  | AtError => Error
  | AtFatal => Fatal
  end.

(** The entry [log] builds for a logger [L] whose fields hold [fs],
    and the bytes it hands to the sink. *)
Definition entry_of (e : Env) (L : Logger) (lv : LogLevel) (msg : string)
    (args : list Value) (fs : gmap string Value) : LogEntry :=
  build_entry e L lv
    (if (0 <? List.length args)%nat then fmt_Sprintf msg args else msg) fs.

Definition line_of (e : Env) (L : Logger) (lv : LogLevel) (msg : string)
    (args : list Value) (fs : gmap string Value) : string :=
  formatEntry e (format L) (entry_of e L lv msg args fs) +:+ newline.
End EmissionDefs.

(** The world after one more [Write] of [bytes] on [o]. *)
Definition wrote (o : Writer) (bytes : string) (w : World) : World :=
  set_written (λ t, t ++ [(o, bytes)]) w.

(** The text line as the specification words it: timestamp, bracketed
    level, parenthesized caller if there is one, message, and the
    braced, comma-joined [key=value] pairs if there are fields, with a
    space between consecutive parts. *)
Definition text_line (e : Env) (entry : LogEntry) : string :=
  Timestamp entry +:+ " " +:+ ("[" +:+ Level entry +:+ "]") +:+
  (if decide (Caller entry = "") then ""
   else " " +:+ ("(" +:+ Caller entry +:+ ")")) +:+
  " " +:+ Message entry +:+
  (if decide (Fields entry = ∅) then ""
   else " " +:+
        ("{" +:+
         strings_Join
           ((λ kv, kv.1 +:+ "=" +:+ fmt_v kv.2) <$> range_of e (Fields entry))
           ", "
         +:+ "}")).

(** The codes a handler passes to [WriteHeader], in call order. *)
Definition status_writes (calls : list RWCall) : list Z :=
  omap (λ c, if c is CallWriteHeader code then Some code else None) calls.

(** What the wrapper holds after a call, from what it held before. *)
Definition capture (held : Z) (c : RWCall) : Z :=
  if c is CallWriteHeader code then code else held.

(* ================================================================== *)
(** * Concrete values to run the model on                              *)
(* ================================================================== *)

(** A library to run the model on: [fmt.Sprintf] is given on the one
    format the package itself passes ("%s" with one text argument),
    and the case maps leave text with a byte ≥ 0x80 alone. *)
Definition sample_lib : GoLib :=
  {| fmt_Sprintf := λ f args,
       match args with
       | [VString s] => if String.eqb f "%s" then s else f
       | _ => f
       end;
     unicode_upper := id;
     unicode_lower := id |}.

Definition sample_env : Env :=
  {| time_Now := "2024-01-02T03:04:05Z";
     time_Since := "1.5ms";
     runtime_Caller := λ skip,
       if skip =? 3 then Some ("/srv/app/main.go", 42) else None;
     range_of := map_to_list;
     range_perm := λ m, Permutation_refl (map_to_list m) |}.

Definition text_logger : Logger :=
  {| level := INFO; format := TextFormat; output := Some Stdout;
     fields := Some 1%positive; callerSkip := 0 |}.

Definition json_logger : Logger :=
  {| level := DEBUG; format := JSONFormat; output := Some (Sink 1);
     fields := Some 2%positive; callerSkip := 0 |}.

(** A world with the text logger at 1, without fields, and the JSON
    logger at 2, whose one field holds a NaN. *)
Definition sample_world : World :=
  {| loggers := <[1%positive := text_logger]> {[2%positive := json_logger]};
     maps := <[1%positive := ∅]> {[2%positive := {["ratio" := VNaN]}]};
     wrappers := ∅;
     written := [];
     served := [] |}.

Definition sample_request : Request :=
  {| Method := "GET"; URL := "/health"; RemoteAddr := "10.0.0.7:4711";
     UserAgent := "curl/8.5.0" |}.

(** A handler that sets the status twice. *)
Definition twice : Handler :=
  λ _, ([CallWriteHeader 404; CallWriteHeader 500], Returns).

(** A handler that sets the status once, and one that never does. *)
Definition not_found : Handler :=
  λ _, ([CallWriteHeader 404; CallWrite "no such page"], Returns).
Definition body_only : Handler := λ _, ([CallWrite "ok"], Returns).

(* ================================================================== *)
(** * Further notions: loggers that can emit, runs of emissions        *)
(* ================================================================== *)

(** A logger that can emit without a panic: it has a sink, and its
    fields are an allocated map. *)
Definition ready (w : World) (L : Logger) : Prop :=
  is_Some (output L) ∧ ∃ p, fields L = Some p ∧ is_Some (maps w !! p).

Definition all_ready (w : World) : Prop :=
  ∀ l L, loggers w !! l = Some L → ready w L.

(** The world before any allocation. *)
Definition empty_world : World :=
  {| loggers := ∅; maps := ∅; wrappers := ∅; written := []; served := [] |}.

(** One emission request: what the call sees, its level, its message
    and its format arguments. *)
Record Call := {
  call_env : Env;
  call_level : LogLevel;
  call_msg : string;
  call_args : list Value
}.

Section Runs.
Context `{GoLib}.

(** A run of emissions on one logger. *)
Definition log_all (l : loc) (calls : list Call) : Go unit :=
  for_each calls
    (λ c, log (call_env c) l (call_level c) (call_msg c) (call_args c)).

(** The writes a run adds for a logger [L] with sink [o] and fields
    [fs]: one line per call at or above the threshold, in call order. *)
Definition lines_of (L : Logger) (o : Writer) (fs : gmap string Value)
    (calls : list Call) : list (Writer * string) :=
  omap (λ c,
          if decide (level L ≤ call_level c)
          then Some (o, line_of (call_env c) L (call_level c) (call_msg c)
                          (call_args c) fs)
          else None) calls.
End Runs.

(** A logger with one setting replaced. *)
Definition with_level (lv : LogLevel) (L : Logger) : Logger :=
  {| level := lv; format := format L; output := output L;
     fields := fields L; callerSkip := callerSkip L |}.
Definition with_format (fmt : LogFormat) (L : Logger) : Logger :=
  {| level := level L; format := fmt; output := output L;
     fields := fields L; callerSkip := callerSkip L |}.
Definition with_output (out : option Writer) (L : Logger) : Logger :=
  {| level := level L; format := format L; output := out;
     fields := fields L; callerSkip := callerSkip L |}.

(** The three setters, and what each makes of the logger it is
    called on. *)
Inductive Setter :=
  | ToLevel (lv : LogLevel)
  | ToFormat (fmt : LogFormat)
  | ToOutput (out : option Writer).

Definition apply_setter (l : loc) (s : Setter) : Go unit :=
  match s with
  | ToLevel lv => SetLevel l lv
  | ToFormat fmt => SetFormat l fmt
  | ToOutput out => SetOutput l out
  end.

Definition updated (s : Setter) (L : Logger) : Logger :=
  match s with
  | ToLevel lv => with_level lv L
  | ToFormat fmt => with_format fmt L
  | ToOutput out => with_output out L
  end.

(** No byte of the text is a slash. *)
Definition slash_free (s : string) : bool :=
  string_forallb (λ c, negb (Ascii.eqb c "/")) s.

(** A handler that writes a body and then panics. *)
Definition crashing : Handler := λ _, ([CallWrite "partial"], Panics).

(** No byte of the text is a control byte (below 0x20); in
    particular the text holds no line break. *)
Definition no_control (s : string) : bool :=
  string_forallb (λ c, 0x20 <=? byte_code c) s.

(** The first [k] bytes of the text exist and are all ≥ 0x80. *)
Fixpoint leading_high (k : nat) (s : string) : bool :=
  match k with
  | O => true
  | S k' =>
      match s with
      | EmptyString => false
      | String c s' => (0x80 <=? byte_code c) && leading_high k' s'
      end
  end.

(* ================================================================== *)
(** * The configuration loader ([package config])                      *)
(* ================================================================== *)

(** [s[i]] and [s[lo:hi]] on indices in range; Go's [int] indices are
    kept as [Z]. *)
Definition at_index (s : string) (i : Z) : option ascii :=
  String.get (Z.to_nat i) s.

Definition slice (s : string) (lo hi : Z) : string :=
  String.substring (Z.to_nat lo) (Z.to_nat (hi - lo)) s.

(** [c == ' ' || c == '\t' || c == '\n' || c == '\r'] *)
Definition is_blank (c : ascii) : bool :=
  Ascii.eqb c " " || Ascii.eqb c "009" || Ascii.eqb c "010"
  || Ascii.eqb c "013".

Definition blank_at (s : string) (i : Z) : bool :=
  match at_index s i with
  | Some c => is_blank c
  | None => false
  end.

(** The first loop of [trimSpace]:
    [for start < end && blank(s[start]) { start++ }]; [fuel] bounds
    the iterations. *)
Fixpoint trim_leading (fuel : nat) (s : string) (start end_ : Z) : Z :=
  match fuel with
  | O => start
  | S fuel' =>
      if (start <? end_) && blank_at s start
      then trim_leading fuel' s (start + 1) end_
      else start
  end.

(** The second loop: [for end > start && blank(s[end-1]) { end-- }]. *)
Fixpoint trim_trailing (fuel : nat) (s : string) (start end_ : Z) : Z :=
  match fuel with
  | O => end_
  | S fuel' =>
      if (end_ >? start) && blank_at s (end_ - 1)
      then trim_trailing fuel' s start (end_ - 1)
      else end_
  end.

(** [func trimSpace(s string) string]; neither loop can run more than
    [len(s)] times. *)
Definition trimSpace (s : string) : string :=
  let start := 0 in
  let end_ := len s in
  let start := trim_leading (String.length s) s start end_ in
  let end_ := trim_trailing (String.length s) s start end_ in
  slice s start end_.

(** The loop of [splitString], from the state [(i, start, result)];
    [None] when [fuel] iterations do not reach its end. *)
Fixpoint split_loop (fuel : nat) (s sep : string) (i start : Z)
    (result : list string) : option (list string) :=
  match fuel with
  | O => None
  | S fuel' =>
      if i <? len s then
        if (i + len sep <=? len s)
           && String.eqb (slice s i (i + len sep)) sep
        then
          let result := result ++ [slice s start i] in
          let start := i + len sep in
          let i := i + (len sep - 1) in
          split_loop fuel' s sep (i + 1) start result
        else split_loop fuel' s sep (i + 1) start result
      else Some (result ++ [slice s start (len s)])
  end.

(** [func splitString(s, sep string) []string] *)
Definition splitString (fuel : nat) (s sep : string) : option (list string) :=
  if String.eqb s "" then Some []
  else split_loop fuel s sep 0 0 [].

(** [func splitAndTrim(s, sep string) []string] *)
Definition splitAndTrim (fuel : nat) (s sep : string)
  : option (list string) :=
  items ← splitString fuel s sep;
  Some (foldl (λ result item, result ++ [trimSpace item]) [] items).

(** The process environment; [os.Getenv] yields the empty text for a
    variable that is not set. *)
Definition os_Getenv (env : gmap string string) (key : string) : string :=
  default "" (env !! key).

(** [func getEnv(key, defaultValue string) string] *)
Definition getEnv (env : gmap string string) (key defaultValue : string)
  : string :=
  let value := os_Getenv env key in
  if negb (String.eqb value "") then value else defaultValue.

(** [func getEnvAsSlice(key string, defaultValue []string) []string];
    the separator is the comma, for which [S (len value)] iterations
    of the splitting loop are enough. *)
Definition getEnvAsSlice (env : gmap string string) (key : string)
    (defaultValue : list string) : option (list string) :=
  let value := os_Getenv env key in
  if negb (String.eqb value "") then
    items ← splitAndTrim (S (String.length value)) value ",";
    let result :=
      foldl (λ result item,
               if negb (String.eqb item "") then result ++ [item] else result)
            [] items in
    if (0 <? List.length result)%nat then Some result else Some defaultValue
  else Some defaultValue.

(** The digits of a decimal numeral, most significant first, added to
    [acc]; [None] at a byte that is no digit. *)
Fixpoint digits_from (acc : Z) (s : string) : option Z :=
  match s with
  | EmptyString => Some acc
  | String c rest =>
      let d := byte_code c - 48 in
      if (0 <=? d) && (d <=? 9) then digits_from (acc * 10 + d) rest
      else None
  end.

(** [strconv.Atoi] on a 64-bit platform: an optional sign, then one or
    more decimal digits, the value within [int]; [None] stands for an
    error. *)
Definition strconv_Atoi (s : string) : option Z :=
  let '(negative, body) :=
    match s with
    | String c rest =>
        if Ascii.eqb c "-" then (true, rest)
        else if Ascii.eqb c "+" then (false, rest)
        else (false, s)
    | EmptyString => (false, s)
    end in
  if String.eqb body "" then None
  else
    match digits_from 0 body with
    | None => None
    | Some v =>
        let n := if negative : bool then - v else v in
        if (- 2 ^ 63 <=? n) && (n <? 2 ^ 63) then Some n else None
    end.

(** [func getEnvAsInt(key string, defaultValue int) int] *)
Definition getEnvAsInt (env : gmap string string) (key : string)
    (defaultValue : Z) : Z :=
  let value := os_Getenv env key in
  if negb (String.eqb value "") then
    match strconv_Atoi value with
    | Some intValue => intValue
    | None => defaultValue
    end
  else defaultValue.

(** [time.ParseDuration], left abstract: the duration in nanoseconds,
    [None] for an error. *)
Class GoTime := {
  time_ParseDuration : string → option Z
}.

(** The structs of the configuration. The logger's own [Config] has
    that name in this file, so the application's is [AppConfig]; the
    fields of the nested structs carry their struct's name. *)
Record DatabaseConfig := {
  db_Host : string; db_Port : string; db_User : string;
  db_Password : string; db_DBName : string; db_SSLMode : string
}.
Record RedisConfig := {
  redis_Host : string; redis_Port : string; redis_Password : string;
  redis_DB : Z
}.
Record JWTConfig := { jwt_Secret : string; jwt_Expiry : Z }.
Record ServerConfig := {
  srv_ReadTimeout : Z; srv_WriteTimeout : Z; srv_IdleTimeout : Z;
  srv_GracefulTimeout : Z
}.
Record CORSConfig := {
  cors_AllowedOrigins : list string;
  cors_AllowedMethods : list string;
  cors_AllowedHeaders : list string
}.
Record RateLimitConfig := {
  rate_RequestsPerWindow : Z; rate_WindowDuration : Z
}.
Record LoggingConfig := { logging_Level : string; logging_Format : string }.
Record ExternalAPIConfig := {
  ext_APIKey : string; ext_ExternalServiceURL : string
}.
Record FileUploadConfig := {
  upload_MaxFileSize : string; upload_UploadPath : string
}.
Record AppConfig := {
  Port : string;
  AppName : string;
  AppVersion : string;
  Environment : string;
  Database : DatabaseConfig;
  Redis : RedisConfig;
  JWT : JWTConfig;
  Server : ServerConfig;
  CORS : CORSConfig;
  RateLimit : RateLimitConfig;
  Logging : LoggingConfig;
  ExternalAPIs : ExternalAPIConfig;
  FileUpload : FileUploadConfig
}.

Section Load.
Context `{GoTime}.

(** [func getEnvAsDuration(key string, defaultValue string) time.Duration];
    [time.ParseDuration] yields 0 beside an error. *)
Definition getEnvAsDuration (env : gmap string string)
    (key defaultValue : string) : Z :=
  let value := os_Getenv env key in
  let fallback := default 0 (time_ParseDuration defaultValue) in
  if negb (String.eqb value "") then
    match time_ParseDuration value with
    | Some duration => duration
    | None => fallback
    end
  else fallback.

(** [func Load()], which returns a [*Config] and an error, on the
    environment as it is once [godotenv.Load] has run; the error it
    returns is always nil, and [None] would be a call that does not
    return. *)
Definition Load (env : gmap string string) : option AppConfig :=
  origins ← getEnvAsSlice env "CORS_ALLOWED_ORIGINS" ["*"];
  methods ← getEnvAsSlice env "CORS_ALLOWED_METHODS"
              ["GET"; "POST"; "PUT"; "DELETE"; "OPTIONS"];
  headers ← getEnvAsSlice env "CORS_ALLOWED_HEADERS"
              ["Content-Type"; "Authorization"];
  Some
    {| Port := getEnv env "PORT" "8080";
       AppName := getEnv env "APP_NAME" "Beto Application";
       AppVersion := getEnv env "APP_VERSION" "1.0.0";
       Environment := getEnv env "APP_ENV" "development";
       Database :=
         {| db_Host := getEnv env "DB_HOST" "localhost";
            db_Port := getEnv env "DB_PORT" "5432";
            db_User := getEnv env "DB_USER" "postgres";
            db_Password := getEnv env "DB_PASSWORD" "password";
            db_DBName := getEnv env "DB_NAME" "beto_db";
            db_SSLMode := getEnv env "DB_SSLMODE" "disable" |};
       Redis :=
         {| redis_Host := getEnv env "REDIS_HOST" "localhost";
            redis_Port := getEnv env "REDIS_PORT" "6379";
            redis_Password := getEnv env "REDIS_PASSWORD" "";
            redis_DB := getEnvAsInt env "REDIS_DB" 0 |};
       JWT :=
         {| jwt_Secret := getEnv env "JWT_SECRET" "default-secret-change-me";
            jwt_Expiry := getEnvAsDuration env "JWT_EXPIRY" "24h" |};
       Server :=
         {| srv_ReadTimeout := getEnvAsDuration env "READ_TIMEOUT" "15s";
            srv_WriteTimeout := getEnvAsDuration env "WRITE_TIMEOUT" "15s";
            srv_IdleTimeout := getEnvAsDuration env "IDLE_TIMEOUT" "60s";
            srv_GracefulTimeout :=
              getEnvAsDuration env "GRACEFUL_TIMEOUT" "30s" |};
       CORS :=
         {| cors_AllowedOrigins := origins;
            cors_AllowedMethods := methods;
            cors_AllowedHeaders := headers |};
       RateLimit :=
         {| rate_RequestsPerWindow := getEnvAsInt env "RATE_LIMIT_REQUESTS" 100;
            rate_WindowDuration :=
              getEnvAsDuration env "RATE_LIMIT_WINDOW" "1m" |};
       Logging :=
         {| logging_Level := getEnv env "LOG_LEVEL" "info";
            logging_Format := getEnv env "LOG_FORMAT" "json" |};
       ExternalAPIs :=
         {| ext_APIKey := getEnv env "API_KEY" "";
            ext_ExternalServiceURL :=
              getEnv env "EXTERNAL_SERVICE_URL" "https://api.example.com" |};
       FileUpload :=
         {| upload_MaxFileSize := getEnv env "MAX_FILE_SIZE" "10MB";
            upload_UploadPath := getEnv env "UPLOAD_PATH" "./uploads" |} |}.
End Load.

(** [IsProduction], [IsDevelopment], [IsTest] *)
Definition IsProduction (c : AppConfig) : bool :=
  String.eqb (Environment c) "production".
Definition IsDevelopment (c : AppConfig) : bool :=
  String.eqb (Environment c) "development".
Definition IsTest (c : AppConfig) : bool :=
  String.eqb (Environment c) "test".

(** Every byte of the text is blank. *)
Definition all_blank (s : string) : bool := string_forallb is_blank s.

(** The pieces found so far, each followed by the separator. *)
Definition glue (sep : string) (result : list string) : string :=
  foldr (λ piece acc, piece +:+ sep +:+ acc) "" result.

(** The separator does not occur in the text. *)
Definition sep_free (sep p : string) : bool := negb (strings_Contains p sep).

(** No byte of the text is [c]. *)
Definition byte_free (c : ascii) (p : string) : bool :=
  string_forallb (λ b, negb (Ascii.eqb b c)) p.

(** An item as [getEnvAsSlice] yields them: not empty, without a
    comma, and with nothing left to trim. *)
Definition clean_item (x : string) : Prop :=
  x ≠ "" ∧ byte_free "," x = true ∧ trimSpace x = x.

(** A decimal digit. *)
Definition is_digit (c : ascii) : bool :=
  (48 <=? byte_code c) && (byte_code c <=? 57).

(** A byte a decimal numeral with a sign can hold. *)
Definition numeral_byte (c : ascii) : bool :=
  is_digit c || Ascii.eqb c "-" || Ascii.eqb c "+".

(** The variables [Load] names, in the order of the source. *)
Definition Load_variables : list string :=
  ["PORT"; "APP_NAME"; "APP_VERSION"; "APP_ENV";
   "DB_HOST"; "DB_PORT"; "DB_USER"; "DB_PASSWORD"; "DB_NAME"; "DB_SSLMODE";
   "REDIS_HOST"; "REDIS_PORT"; "REDIS_PASSWORD"; "REDIS_DB";
   "JWT_SECRET"; "JWT_EXPIRY";
   "READ_TIMEOUT"; "WRITE_TIMEOUT"; "IDLE_TIMEOUT"; "GRACEFUL_TIMEOUT";
   "CORS_ALLOWED_ORIGINS"; "CORS_ALLOWED_METHODS"; "CORS_ALLOWED_HEADERS";
   "RATE_LIMIT_REQUESTS"; "RATE_LIMIT_WINDOW";
   "LOG_LEVEL"; "LOG_FORMAT";
   "API_KEY"; "EXTERNAL_SERVICE_URL";
   "MAX_FILE_SIZE"; "UPLOAD_PATH"].

(** The text settings of a configuration whose default is not empty. *)
Definition defaulted_texts (c : AppConfig) : list string :=
  [Port c; AppName c; AppVersion c; Environment c;
   db_Host (Database c); db_Port (Database c); db_User (Database c);
   db_Password (Database c); db_DBName (Database c); db_SSLMode (Database c);
   redis_Host (Redis c); redis_Port (Redis c);
   jwt_Secret (JWT c);
   logging_Level (Logging c); logging_Format (Logging c);
   ext_ExternalServiceURL (ExternalAPIs c);
   upload_MaxFileSize (FileUpload c); upload_UploadPath (FileUpload c)].

(** The three lists of the CORS settings. *)
Definition cors_lists (c : AppConfig) : list (list string) :=
  [cors_AllowedOrigins (CORS c); cors_AllowedMethods (CORS c);
   cors_AllowedHeaders (CORS c)].

(** A [time.ParseDuration] that knows whole seconds, minutes and hours
    of one or two digits, enough for the defaults of [Load]. *)
Definition sample_time : GoTime :=
  {| time_ParseDuration := λ s,
       match s with
       | String a (String u "") =>
           n ← digits_from 0 (String a "");
           if Ascii.eqb u "s" then Some (n * 1000000000)
           else if Ascii.eqb u "m" then Some (n * 60000000000)
           else if Ascii.eqb u "h" then Some (n * 3600000000000)
           else None
       | String a (String b (String u "")) =>
           n ← digits_from 0 (String a (String b ""));
           if Ascii.eqb u "s" then Some (n * 1000000000)
           else if Ascii.eqb u "m" then Some (n * 60000000000)
           else if Ascii.eqb u "h" then Some (n * 3600000000000)
           else None
       | _ => None
       end |}.

(** Environments to load from. *)
Definition production_env : gmap string string :=
  {[ "APP_ENV" := "production"; "CORS_ALLOWED_ORIGINS" := "https://beto.example" ]}.
Definition stray_env : gmap string string :=
  {[ "PORT" := ""; "HOME" := "/root" ]}.
Definition empty_port_env : gmap string string := {[ "PORT" := "" ]}.

(** [godotenv.Load()], the first statement of [Load]: it sets in the
    process each variable the file [.env] defines and the process does
    not have, and replaces none that the process has, be it with the
    empty text.  [dotenv] is what the file defines: nothing when there
    is no file or it does not parse, where [Load] prints a warning and
    goes on.  The result is the environment the rest of [Load] reads. *)
Definition godotenv_Load (dotenv env : gmap string string)
  : gmap string string :=
  env ∪ dotenv.

(** A [.env] file that gives the port. *)
Definition sample_dotenv : gmap string string := {[ "PORT" := "9000" ]}.

(* ================================================================== *)
(** * Facts about text                                                 *)
(* ================================================================== *)

Lemma string_app_cons (x : ascii) (a b : string) :
  String x a +:+ b = String x (a +:+ b).
Proof. done. Qed.

Lemma string_app_nil_l (s : string) : "" +:+ s = s.
Proof. done. Qed.

Lemma string_app_nil_r (s : string) : s +:+ "" = s.
Proof.
  induction s as [|c s IH]; [done |]. by rewrite string_app_cons, IH.
Qed.

Lemma string_app_assoc (a b c : string) : (a +:+ b) +:+ c = a +:+ b +:+ c.
Proof.
  induction a as [|x a IH]; [done |]. by rewrite !string_app_cons, IH.
Qed.

Lemma string_app_nonempty (a b : string) : b ≠ "" → a +:+ b ≠ "".
Proof. destruct a; [done |]. by rewrite string_app_cons. Qed.

Lemma prefix_app (a b : string) : String.prefix a (a +:+ b) = true.
Proof.
  induction a as [|x a IH]; [by destruct b |].
  rewrite string_app_cons. cbn.
  destruct (ascii_dec x x); [done | congruence].
Qed.

Lemma strings_Contains_here (s t : string) :
  String.prefix t s = true → strings_Contains s t = true.
Proof. intros Hp. destruct s; cbn in *; by rewrite Hp. Qed.

Lemma strings_Contains_skip (a s t : string) :
  strings_Contains s t = true → strings_Contains (a +:+ s) t = true.
Proof.
  intros Hs. induction a as [|x a IH]; [done |].
  rewrite string_app_cons. cbn. rewrite IH. apply orb_true_r.
Qed.

(** The middle of a concatenation is contained in it. *)
Lemma strings_Contains_mid (a b c : string) :
  strings_Contains (a +:+ b +:+ c) b = true.
Proof.
  apply strings_Contains_skip, strings_Contains_here, prefix_app.
Qed.

Lemma strings_Contains_trans (s t u : string) :
  strings_Contains s t = true → strings_Contains t u = true →
  strings_Contains s u = true.
Proof.
  assert (Hpre : ∀ t s u, String.prefix t s = true →
            String.prefix u t = true → String.prefix u s = true).
  { clear. intros t. induction t as [|x t IH]; intros s u Ht Hu.
    - destruct u; [by destruct s | done].
    - destruct s as [|y s]; [done |]. cbn in Ht.
      destruct (ascii_dec x y) as [->|]; [| done].
      destruct u as [|z u]; [done |]. cbn in Hu |- *.
      destruct (ascii_dec z y); [eauto | done]. }
  assert (Hsub : ∀ t u, strings_Contains t u = true →
            ∀ s, String.prefix t s = true → strings_Contains s u = true).
  { clear -Hpre. intros t. induction t as [|x t IH]; intros u Hu s Hs.
    - cbn in Hu. rewrite orb_false_r in Hu.
      apply strings_Contains_here. eauto.
    - cbn in Hu. apply orb_true_iff in Hu as [Hu|Hu].
      + apply strings_Contains_here. eauto.
      + destruct s as [|y s]; [done |]. cbn in Hs.
        destruct (ascii_dec x y) as [->|]; [| done].
        cbn. rewrite (IH _ Hu _ Hs). apply orb_true_r. }
  induction s as [|y s IH]; intros Hs Hu.
  - cbn in Hs. rewrite orb_false_r in Hs. eauto.
  - cbn in Hs. apply orb_true_iff in Hs as [Hs|Hs]; [eauto |].
    cbn. rewrite (IH Hs Hu). apply orb_true_r.
Qed.

(** The two case maps agree byte by byte on what they leave ASCII. *)
Lemma below_RuneSelf_upper (c : ascii) :
  below_RuneSelf (upper_byte c) = below_RuneSelf c.
Proof. by destruct c as [[] [] [] [] [] [] [] []]. Qed.

Lemma lower_upper_byte (c : ascii) : lower_byte (upper_byte c) = lower_byte c.
Proof. by destruct c as [[] [] [] [] [] [] [] []]. Qed.

Lemma isASCII_upper (s : string) : isASCII (string_map upper_byte s) = isASCII s.
Proof.
  induction s as [|c s IH]; [done |]. cbn.
  rewrite below_RuneSelf_upper. f_equal. apply IH.
Qed.

Lemma string_map_lower_upper (s : string) :
  string_map lower_byte (string_map upper_byte s) = string_map lower_byte s.
Proof.
  induction s as [|c s IH]; [done |]. cbn. by rewrite lower_upper_byte, IH.
Qed.

(* ================================================================== *)
(** * Parsing levels and formats                                       *)
(* ================================================================== *)

Section ParseFacts.
Context `{GoLib}.

Lemma strings_ToUpper_fold (s t : string) :
  isASCII s = true →
  string_map upper_byte s = string_map upper_byte t →
  strings_ToUpper s = strings_ToUpper t ∧
  strings_ToLower s = strings_ToLower t.
Proof.
  intros Hs Hst.
  assert (Ht : isASCII t = true).
  { by rewrite <- isASCII_upper, <- Hst, isASCII_upper. }
  unfold strings_ToUpper, strings_ToLower. rewrite Hs, Ht. split; [done |].
  by rewrite <- (string_map_lower_upper s), Hst, string_map_lower_upper.
Qed.

(** C4 — [parseLogLevel] and [parseLogFormat] are total: every text
    yields one of the declared levels, resp. formats; a text whose
    upper-casing is none of the level names yields INFO and one whose
    lower-casing is none of the format names yields the JSON format;
    two ASCII texts that differ only in letter case parse alike; any
    casing of "warning" yields WARN, "bogus" yields INFO and "TEXT"
    yields the text format. *)
Theorem parse_total_case_insensitive_defaults :
  (∀ s, parseLogLevel s ∈ [DEBUG; INFO; WARN; ERROR; FATAL]) ∧
  (∀ s, strings_ToUpper s ∉
          ["DEBUG"; "INFO"; "WARN"; "WARNING"; "ERROR"; "FATAL"] →
        parseLogLevel s = INFO) ∧
  (∀ s, parseLogFormat s ∈ [TextFormat; JSONFormat]) ∧
  (∀ s, strings_ToLower s ∉ ["json"; "text"; "plain"] →
        parseLogFormat s = JSONFormat) ∧
  (∀ s t, isASCII s = true →
          string_map upper_byte s = string_map upper_byte t →
          parseLogLevel s = parseLogLevel t ∧
          parseLogFormat s = parseLogFormat t) ∧
  (∀ s, string_map upper_byte s = "WARNING" → parseLogLevel s = WARN) ∧
  parseLogLevel "bogus" = INFO ∧
  parseLogFormat "TEXT" = TextFormat.
Proof.
  repeat split.
  - intros s. unfold parseLogLevel.
    repeat (case_match; [set_solver |]). set_solver.
  - intros s Hs. rewrite !not_elem_of_cons in Hs.
    destruct Hs as (H1 & H2 & H3 & H4 & H5 & H6 & _).
    unfold parseLogLevel. cbn zeta.
    apply String.eqb_neq in H1, H2, H3, H4, H5, H6.
    by rewrite H1, H2, H3, H4, H5, H6.
  - intros s. unfold parseLogFormat.
    repeat (case_match; [set_solver |]). set_solver.
  - intros s Hs. rewrite !not_elem_of_cons in Hs.
    destruct Hs as (H1 & H2 & H3 & _).
    unfold parseLogFormat. cbn zeta.
    apply String.eqb_neq in H1, H2, H3.
    by rewrite H1, H2, H3.
  - unfold parseLogLevel.
    by destruct (strings_ToUpper_fold s t) as [-> _].
  - unfold parseLogFormat.
    by destruct (strings_ToUpper_fold s t) as [_ ->].
  - intros s Hs. unfold parseLogLevel, strings_ToUpper.
    assert (Ha : isASCII s = true) by by rewrite <- isASCII_upper, Hs.
    by rewrite Ha, Hs.
Qed.
End ParseFacts.

(* ================================================================== *)
(** * The store: reading, writing and [range] loops                    *)
(* ================================================================== *)

Lemma bind_Returned {A B} (m : Go A) (k : A → Go B) w a w' :
  m w = Returned a w' → (m ≫= k) w = k a w'.
Proof. intros Hm. unfold mbind, Go_bind. by rewrite Hm. Qed.

Lemma set_maps_id (w : World) (p : loc) (m : gmap string Value) :
  maps w !! p = Some m → set_maps <[p := m]> w = w.
Proof.
  intros Hm. destruct w. unfold set_maps. cbn in *. f_equal.
  by apply insert_id.
Qed.

Lemma fresh_logger (w : World) : loggers w !! fresh (dom (loggers w)) = None.
Proof. apply not_elem_of_dom, is_fresh. Qed.

Lemma fresh_map (w : World) : maps w !! fresh (dom (maps w)) = None.
Proof. apply not_elem_of_dom, is_fresh. Qed.

(** A [range] loop of stores into one allocated map stores every
    visited pair, later ones over earlier ones. *)
Lemma for_each_map_store (p : loc) (xs : list (string * Value)) :
  ∀ (w : World) (m0 : gmap string Value),
    maps w !! p = Some m0 →
    for_each xs (λ kv, map_store (Some p) kv.1 kv.2) w =
    Returned tt
      (set_maps <[p := foldl (λ m kv, <[kv.1 := kv.2]> m) m0 xs]> w).
Proof.
  induction xs as [|[k v] xs IH]; intros w m0 Hp.
  - cbn. by rewrite set_maps_id.
  - cbn [for_each foldl].
    erewrite bind_Returned; last first.
    { unfold map_store. cbn. by rewrite Hp. }
    cbn [fst snd].
    rewrite (IH _ (<[k := v]> m0)); last by (cbn; apply lookup_insert_eq).
    f_equal. unfold set_maps. cbn. f_equal. apply insert_insert_eq.
Qed.

Lemma foldl_insert_union (xs : list (string * Value)) :
  ∀ m0 : gmap string Value,
    foldl (λ m kv, <[kv.1 := kv.2]> m) m0 xs = list_to_map (reverse xs) ∪ m0.
Proof.
  induction xs as [|[k v] xs IH]; intros m0.
  - cbn. by rewrite (left_id_L ∅ (∪)).
  - cbn [foldl fst snd]. rewrite IH, reverse_cons, list_to_map_app.
    cbn. rewrite insert_empty, <- (assoc_L (∪)).
    by rewrite <- insert_union_singleton_l.
Qed.

(** Whatever order a [range] loop visits a map in, storing what it
    visits merges that map over the target. *)
Lemma foldl_insert_range (e : Env) (src m0 : gmap string Value) :
  foldl (λ m kv, <[kv.1 := kv.2]> m) m0 (range_of e src) = src ∪ m0.
Proof.
  rewrite foldl_insert_union. f_equal.
  rewrite <- (list_to_map_to_list src) at 2.
  symmetry. apply list_to_map_proper.
  - apply NoDup_fst_map_to_list.
  - by rewrite reverse_Permutation, range_perm.
Qed.

Lemma content_after_make (w : World) (L : Logger) :
  default ∅ (fields L ≫= λ p, <[fresh (dom (maps w)) := ∅]> (maps w) !! p)
  = content w L.
Proof.
  unfold content. destruct (fields L) as [p|]; [| done]. cbn.
  destruct (decide (p = fresh (dom (maps w)))) as [->|Hne].
  - by rewrite lookup_insert_eq, fresh_map.
  - by rewrite lookup_insert_ne.
Qed.

(** [clone] allocates a map holding the receiver's fields and a logger
    that shares everything else with the receiver. *)
Lemma clone_spec (e : Env) (l : loc) (w : World) (L : Logger) :
  loggers w !! l = Some L →
  clone e l w =
  Returned (fresh (dom (loggers w))) (derived_world w L (content w L)).
Proof.
  intros Hl. unfold clone.
  erewrite bind_Returned; last done.
  erewrite bind_Returned; last first.
  { unfold get_logger. cbn. by rewrite Hl. }
  erewrite bind_Returned; last done.
  cbn [maps set_maps]. rewrite content_after_make.
  erewrite bind_Returned; last first.
  { apply for_each_map_store. cbn. apply lookup_insert_eq. }
  rewrite foldl_insert_range, (right_id_L ∅ (∪)).
  unfold new_logger, derived_world. cbn. f_equal.
  unfold set_loggers, set_maps. cbn. f_equal.
  apply insert_insert_eq.
Qed.

Lemma derived_world_logger (w : World) (L : Logger) m :
  get_logger (fresh (dom (loggers w))) (derived_world w L m) =
  Returned (copy_of L (fresh (dom (maps w)))) (derived_world w L m).
Proof. unfold get_logger. cbn. by rewrite lookup_insert_eq. Qed.

Lemma derived_world_map (w : World) (L : Logger) m :
  maps (derived_world w L m) !! fresh (dom (maps w)) = Some m.
Proof. cbn. apply lookup_insert_eq. Qed.

Lemma derived_world_store (w : World) (L : Logger) m m' :
  set_maps <[fresh (dom (maps w)) := m']> (derived_world w L m) =
  derived_world w L m'.
Proof.
  unfold derived_world, set_loggers, set_maps. cbn. f_equal.
  apply insert_insert_eq.
Qed.

Lemma map_store_derived (w : World) (L : Logger) m k v :
  map_store (Some (fresh (dom (maps w)))) k v (derived_world w L m) =
  Returned tt (derived_world w L (<[k := v]> m)).
Proof.
  unfold map_store. cbn [mbind option_bind].
  rewrite derived_world_map. cbn [fmap option_fmap option_map].
  by rewrite derived_world_store.
Qed.

(** Each derivation returns a new logger in a world that differs from
    the old one by that logger and its map alone. *)
Lemma derive_spec (e : Env) (l : loc) (d : Derivation) (w : World)
    (L : Logger) :
  loggers w !! l = Some L →
  derive e l d w =
  Returned (fresh (dom (loggers w)))
           (derived_world w L (extend d (content w L))).
Proof.
  intros Hl. destruct d as [key value|fs|ctx]; cbn [derive extend].
  - unfold WithField.
    erewrite bind_Returned; last by apply clone_spec.
    erewrite bind_Returned; last by apply derived_world_logger.
    cbn [fields copy_of].
    erewrite bind_Returned; last by apply map_store_derived.
    done.
  - unfold WithFields.
    erewrite bind_Returned; last by apply clone_spec.
    erewrite bind_Returned; last by apply derived_world_logger.
    cbn [fields copy_of].
    erewrite bind_Returned; last first.
    { apply for_each_map_store, derived_world_map. }
    by rewrite derived_world_store, foldl_insert_range.
  - unfold WithContext.
    erewrite bind_Returned; last by apply clone_spec.
    erewrite bind_Returned; last by apply derived_world_logger.
    cbn [fields copy_of]. cbn zeta. unfold context_fields.
    destruct (decide (ctx "request_id" ≠ VNil)).
    + erewrite bind_Returned; last by apply map_store_derived.
      destruct (decide (ctx "user_id" ≠ VNil)).
      * erewrite bind_Returned; last by apply map_store_derived. done.
      * erewrite bind_Returned; done.
    + erewrite bind_Returned; last done.
      destruct (decide (ctx "user_id" ≠ VNil)).
      * erewrite bind_Returned; last by apply map_store_derived. done.
      * erewrite bind_Returned; done.
Qed.

(* ================================================================== *)
(** * Emission                                                         *)
(* ================================================================== *)

Section EmissionFacts.
Context `{GoLib}.

Lemma log_spec (e : Env) (l : loc) (lv : LogLevel) (msg : string)
    (args : list Value) (w : World) (L : Logger) :
  loggers w !! l = Some L →
  log e l lv msg args w =
  if lv <? level L then Returned tt w
  else write_to (output L) (line_of e L lv msg args (content w L)) w.
Proof.
  intros Hl. unfold log.
  erewrite bind_Returned; last first.
  { unfold get_logger. by rewrite Hl. }
  destruct (lv <? level L); [done |].
  erewrite bind_Returned; last done. done.
Qed.

Lemma log_dropped e l lv msg args w L :
  loggers w !! l = Some L → lv < level L →
  log e l lv msg args w = Returned tt w.
Proof.
  intros Hl Hlt. rewrite (log_spec _ _ _ _ _ _ L Hl).
  by apply Z.ltb_lt in Hlt as ->.
Qed.

Lemma log_written e l lv msg args w L o :
  loggers w !! l = Some L → output L = Some o → level L ≤ lv →
  log e l lv msg args w =
  Returned tt (wrote o (line_of e L lv msg args (content w L)) w).
Proof.
  intros Hl Ho Hle. rewrite (log_spec _ _ _ _ _ _ L Hl).
  apply Z.ltb_ge in Hle as ->. unfold write_to. by rewrite Ho.
Qed.

Lemma world_of_Fatal e l msg args w :
  world_of (Fatal e l msg args w) = world_of (log e l FATAL msg args w).
Proof.
  unfold Fatal, mbind, Go_bind. by destruct (log e l FATAL msg args w).
Qed.

Lemma world_of_emit c e l msg args w :
  world_of (emit c e l msg args w) =
  world_of (log e l (emission_level c) msg args w).
Proof. destruct c; try done. apply world_of_Fatal. Qed.

Lemma wrote_written o bytes w :
  written (wrote o bytes w) = written w ++ [(o, bytes)].
Proof. done. Qed.
End EmissionFacts.

(** C1 — for every threshold and each of the five emission calls, on a
    logger that has a sink: at or above the threshold the call hands
    the sink exactly one rendered line; below it the world is left as
    it was, whatever the clock, the stack, the formatter and the
    library would have answered; so something is written if and only
    if the level is at least the threshold, the boundary included. *)
Theorem emission_iff_threshold `{GoLib} (c : Emission) (e : Env) (l : loc)
    (msg : string) (args : list Value) (w : World) (L : Logger)
    (o : Writer) :
  loggers w !! l = Some L →
  output L = Some o →
  (level L ≤ emission_level c →
     world_of (emit c e l msg args w) =
     wrote o (line_of e L (emission_level c) msg args (content w L)) w) ∧
  (emission_level c < level L →
     ∀ (lib : GoLib) (e' : Env),
       world_of (@emit lib c e' l msg args w) = w) ∧
  (level L = emission_level c →
     written (world_of (emit c e l msg args w)) ≠ written w) ∧
  (written (world_of (emit c e l msg args w)) ≠ written w ↔
   level L ≤ emission_level c).
Proof.
  intros Hl Ho.
  assert (Hemit : level L ≤ emission_level c →
    world_of (emit c e l msg args w) =
    wrote o (line_of e L (emission_level c) msg args (content w L)) w).
  { intros Hle. rewrite world_of_emit.
    by rewrite (log_written _ _ _ _ _ _ L o). }
  assert (Hdrop : emission_level c < level L →
    ∀ (lib : GoLib) (e' : Env), world_of (@emit lib c e' l msg args w) = w).
  { intros Hlt lib e'. rewrite (@world_of_emit lib).
    by rewrite (@log_dropped lib _ _ _ _ _ _ L). }
  assert (Hneq : level L ≤ emission_level c →
    written (world_of (emit c e l msg args w)) ≠ written w).
  { intros Hle. rewrite (Hemit Hle), wrote_written.
    intros Heq. apply (f_equal List.length) in Heq.
    rewrite length_app in Heq. cbn in Heq. lia. }
  repeat split; try done.
  - intros Heq. apply Hneq. lia.
  - intros Hw. destruct (decide (level L ≤ emission_level c)); [done |].
    exfalso. apply Hw. rewrite (Hdrop ltac:(lia) _ e). done.
Qed.

(** C10 — the writer adapter answers [(len(p), nil)] for every [p] and
    every backing logger that has a sink or whose threshold is above
    INFO; in the latter case the forwarded message is dropped and the
    world is left as it was.  A logger with neither is excluded: on it
    the call panics. *)
Theorem loggerWriter_Write_returns_len `{GoLib} (e : Env) (l : loc)
    (p : string) (w : World) (L : Logger) :
  loggers w !! l = Some L →
  INFO < level L ∨ is_Some (output L) →
  ∃ w',
    loggerWriter_Write e l p w = Returned (len p, None) w' ∧
    0 ≤ len p ∧
    (INFO < level L → w' = w).
Proof.
  intros Hl Hok. unfold loggerWriter_Write, Info.
  destruct (decide (INFO < level L)) as [Hlt|Hge].
  - exists w. erewrite bind_Returned; last by apply (log_dropped _ _ _ _ _ _ L).
    split; [done |]. split; [unfold len; lia | done].
  - destruct Hok as [? | [o Ho]]; [done |].
    eexists. erewrite bind_Returned;
      last by (apply (log_written _ _ _ _ _ _ L o); [done | done | lia]).
    split; [done |]. split; [unfold len; lia | done].
Qed.

(** C9 — [Fatal] emits as [log] does at FATAL, the threshold check
    included, and then exits with status 1: it never returns; on a
    logger with a sink it leaves the line written when the threshold
    is at most FATAL and nothing written when it is above. *)
Theorem Fatal_emits_then_exits `{GoLib} (e : Env) (l : loc) (msg : string)
    (args : list Value) (w : World) :
  Fatal e l msg args w =
    match log e l FATAL msg args w with
    | Returned _ w' => Exited 1 w'
    | Panicked w' => Panicked w'
    | Exited code w' => Exited code w'
    end ∧
  (∀ a w', Fatal e l msg args w ≠ Returned a w') ∧
  (∀ L o, loggers w !! l = Some L → output L = Some o →
     Fatal e l msg args w =
     Exited 1
       (if decide (level L ≤ FATAL)
        then wrote o (line_of e L FATAL msg args (content w L)) w
        else w)).
Proof.
  assert (Hdef : Fatal e l msg args w =
    match log e l FATAL msg args w with
    | Returned _ w' => Exited 1 w'
    | Panicked w' => Panicked w'
    | Exited code w' => Exited code w'
    end) by done.
  split; [done |]. split.
  - intros a w'. rewrite Hdef. by destruct (log e l FATAL msg args w).
  - intros L o Hl Ho. rewrite Hdef. case_decide as Hle.
    + by rewrite (log_written _ _ _ _ _ _ L o).
    + rewrite (log_dropped _ _ _ _ _ _ L); [done | done | lia].
Qed.

(* ================================================================== *)
(** * The caller of an entry                                           *)
(* ================================================================== *)

Lemma getCaller_found (e : Env) (L : Logger) :
  getCaller e L ≠ "" ↔ is_Some (runtime_Caller e (int_add 3 (callerSkip L))).
Proof.
  unfold getCaller.
  destruct (runtime_Caller e (int_add 3 (callerSkip L))) as [[file line]|].
  - split; [by eauto |]. intros _.
    apply string_app_nonempty. by rewrite string_app_cons.
  - split; [done |]. by intros [? ?].
Qed.

Lemma build_entry_Caller (e : Env) (L : Logger) (lv : LogLevel)
    (message : string) (fs : gmap string Value) :
  Caller (build_entry e L lv message fs) =
  if (ERROR <=? lv) || (level L =? DEBUG) then getCaller e L else "".
Proof.
  unfold build_entry. destruct ((ERROR <=? lv) || (level L =? DEBUG)); [| done].
  destruct (String.eqb (getCaller e L) "") eqn:Hc; [| done].
  cbn. by apply String.eqb_eq in Hc.
Qed.

(** C5 — the entry that an emission writes has a caller exactly when
    the level is at least ERROR or the threshold is DEBUG, and the
    stack has a frame at the depth asked for; an INFO emission under
    an INFO threshold has none. *)
Theorem caller_only_for_errors_or_debug `{GoLib} (e : Env) (l : loc)
    (lv : LogLevel) (msg : string) (args : list Value) (w : World)
    (L : Logger) (o : Writer) :
  loggers w !! l = Some L →
  output L = Some o →
  level L ≤ lv →
  let entry := entry_of e L lv msg args (content w L) in
  log e l lv msg args w =
    Returned tt (wrote o (formatEntry e (format L) entry +:+ newline) w) ∧
  (Caller entry ≠ "" ↔
     (ERROR ≤ lv ∨ level L = DEBUG) ∧
     is_Some (runtime_Caller e (int_add 3 (callerSkip L)))) ∧
  (Caller entry ≠ "" → ERROR ≤ lv ∨ level L = DEBUG) ∧
  (lv = INFO → level L = INFO → Caller entry = "").
Proof.
  intros Hl Ho Hle entry.
  assert (Hiff : Caller entry ≠ "" ↔
     (ERROR ≤ lv ∨ level L = DEBUG) ∧
     is_Some (runtime_Caller e (int_add 3 (callerSkip L)))).
  { unfold entry, entry_of. rewrite build_entry_Caller.
    destruct ((ERROR <=? lv) || (level L =? DEBUG)) eqn:Hc.
    - rewrite getCaller_found. apply orb_true_iff in Hc. split; [| tauto].
      intros Hs. split; [| done]. destruct Hc as [Hc|Hc]; [left | right]; lia.
    - apply orb_false_iff in Hc as [Hc1 Hc2]. split; [done |].
      intros [[?|?] _]; lia. }
  split; [by apply log_written |]. split; [done |]. split; [tauto |].
  intros -> HL. unfold entry, entry_of. rewrite build_entry_Caller, HL. done.
Qed.

(* ================================================================== *)
(** * Rendering never loses an entry                                   *)
(* ================================================================== *)

Lemma json_members_None (kvs : list (string * Value)) :
  json_members kvs = None ↔ ∃ k v, (k, v) ∈ kvs ∧ json_value v = None.
Proof.
  induction kvs as [|[k v] kvs IH]; cbn [json_members].
  - split; [done |]. intros (k & v & Hin & _). by apply elem_of_nil in Hin.
  - destruct (json_value v) as [jv|] eqn:Hv.
    + destruct (json_members kvs) as [js|] eqn:Hm.
      * split; [done |]. intros (k' & v' & Hin & Hv').
        apply elem_of_cons in Hin as [[= -> ->]|Hin]; [congruence |].
        assert (Hsome : Some js = None) by (apply IH; eauto). done.
      * split; [| done]. intros _.
        destruct (proj1 IH eq_refl) as (k' & v' & Hin & Hv').
        exists k', v'. split; [by apply elem_of_cons; right | done].
    + split; [| done]. intros _. exists k, v.
      split; [apply elem_of_cons; by left | done].
Qed.

(** In this model [json.Marshal] fails on an entry exactly when one
    of its fields holds a value that JSON cannot carry. *)
Lemma json_Marshal_fails_iff (entry : LogEntry) :
  json_Marshal entry = None ↔ ∃ k, Fields entry !! k = Some VNaN.
Proof.
  assert (Hmem : json_members (merge_sort key_le (map_to_list (Fields entry)))
                 = None ↔ ∃ k, Fields entry !! k = Some VNaN).
  { rewrite json_members_None. split.
    - intros (k & v & Hin & Hv).
      rewrite merge_sort_Permutation, elem_of_map_to_list in Hin.
      exists k. by destruct v as [| [] | | |].
    - intros (k & Hk). exists k, VNaN. split; [| done].
      by rewrite merge_sort_Permutation, elem_of_map_to_list. }
  unfold json_Marshal, json_map. cbn zeta. case_decide as Hsize.
  - split; [done |]. intros (k & Hk).
    apply map_size_empty_iff in Hsize. by rewrite Hsize in Hk.
  - destruct (json_members _) eqn:Hm.
    + split; [done |]. intros Hk. apply Hmem in Hk. congruence.
    + split; [| done]. intros _. by apply Hmem.
Qed.

(** C6 — when [json.Marshal] fails on an entry, the JSON arm of
    [formatEntry] yields the text rendering of that entry; an
    emission that passed the threshold on a JSON logger then writes
    that text line to the sink; and whatever the format and the
    encoder do, an emission that passed the threshold writes one line:
    the entry is not dropped. *)
Theorem structured_failure_falls_back_to_text `{GoLib} :
  (∀ (e : Env) (entry : LogEntry),
     json_Marshal entry = None →
     formatEntry e JSONFormat entry = formatText e entry) ∧
  (∀ (e : Env) (l : loc) (lv : LogLevel) (msg : string) (args : list Value)
     (w : World) (L : Logger) (o : Writer),
     loggers w !! l = Some L →
     output L = Some o →
     level L ≤ lv →
     format L = JSONFormat →
     json_Marshal (entry_of e L lv msg args (content w L)) = None →
     log e l lv msg args w =
       Returned tt
         (wrote o
            (formatText e (entry_of e L lv msg args (content w L))
             +:+ newline) w)) ∧
  (∀ (e : Env) (l : loc) (lv : LogLevel) (msg : string) (args : list Value)
     (w : World) (L : Logger) (o : Writer),
     loggers w !! l = Some L →
     output L = Some o →
     level L ≤ lv →
     ∃ line, log e l lv msg args w = Returned tt (wrote o line w)).
Proof.
  assert (Hfall : ∀ (e : Env) (entry : LogEntry),
     json_Marshal entry = None →
     formatEntry e JSONFormat entry = formatText e entry).
  { intros e entry Hfail. unfold formatEntry. cbn. by rewrite Hfail. }
  split; [done |]. split.
  - intros e l lv msg args w L o Hl Ho Hle Hfmt Hfail.
    rewrite (log_written _ _ _ _ _ _ L o) by done.
    unfold line_of. by rewrite Hfmt, Hfall.
  - intros e l lv msg args w L o Hl Ho Hle. eexists.
    by apply (log_written _ _ _ _ _ _ L o).
Qed.

(* ================================================================== *)
(** * Derivation                                                       *)
(* ================================================================== *)

Lemma derived_world_content (w : World) (L : Logger) m :
  content (derived_world w L m) (copy_of L (fresh (dom (maps w)))) = m.
Proof. unfold content. cbn. by rewrite lookup_insert_eq. Qed.

Lemma derived_world_new (w : World) (L : Logger) m :
  loggers (derived_world w L m) !! fresh (dom (loggers w)) =
  Some (copy_of L (fresh (dom (maps w)))).
Proof. cbn. apply lookup_insert_eq. Qed.

Lemma derived_world_old_logger (w : World) (L : Logger) m l0 L0 :
  loggers w !! l0 = Some L0 → loggers (derived_world w L m) !! l0 = Some L0.
Proof.
  intros H0. cbn. rewrite lookup_insert_ne; [done |].
  intros <-. by rewrite fresh_logger in H0.
Qed.

Lemma derived_world_old_map (w : World) (L : Logger) m p0 m0 :
  maps w !! p0 = Some m0 → maps (derived_world w L m) !! p0 = Some m0.
Proof.
  intros H0. cbn. rewrite lookup_insert_ne; [done |].
  intros <-. by rewrite fresh_map in H0.
Qed.

Lemma derived_world_old_content (w : World) (L : Logger) m (L0 : Logger) :
  (∀ p, fields L0 = Some p → is_Some (maps w !! p)) →
  content (derived_world w L m) L0 = content w L0.
Proof.
  intros Hok. unfold content. destruct (fields L0) as [p|]; [| done].
  destruct (Hok p eq_refl) as [m0 Hm0]. cbn [mbind option_bind].
  by rewrite (derived_world_old_map _ _ _ _ _ Hm0), Hm0.
Qed.

Lemma written_write_to (out : option Writer) (bytes : string) (w : World) :
  written (world_of (write_to out bytes w)) =
  written w ++ (if out is Some o then [(o, bytes)] else []).
Proof. destruct out; cbn; [done | by rewrite app_nil_r]. Qed.

(** C2 — [WithField], [WithFields] and [WithContext] leave the
    receiver as it was: each returns a logger that did not exist
    before, with the receiver's threshold, format, sink and caller
    skip, and with a map that did not exist before and holds the
    receiver's fields plus the additions; every logger and every map
    of the old world is unchanged, nothing is written, and what the
    receiver emits afterwards is what it would have emitted before. *)
Theorem derivation_leaves_receiver `{GoLib} (e : Env) (l : loc)
    (d : Derivation) (w : World) (L : Logger) :
  loggers w !! l = Some L →
  (∀ p, fields L = Some p → is_Some (maps w !! p)) →
  ∃ (l' p' : loc) (L' : Logger) (w' : World),
    derive e l d w = Returned l' w' ∧
    loggers w !! l' = None ∧
    maps w !! p' = None ∧
    loggers w' !! l' = Some L' ∧
    level L' = level L ∧ format L' = format L ∧ output L' = output L ∧
    callerSkip L' = callerSkip L ∧
    fields L' = Some p' ∧
    maps w' !! p' = Some (extend d (content w L)) ∧
    (∀ l0 L0, loggers w !! l0 = Some L0 → loggers w' !! l0 = Some L0) ∧
    (∀ p0 m0, maps w !! p0 = Some m0 → maps w' !! p0 = Some m0) ∧
    written w' = written w ∧
    loggers w' !! l = Some L ∧
    content w' L = content w L ∧
    (∀ e2 lv msg args,
       written (world_of (log e2 l lv msg args w')) =
       written (world_of (log e2 l lv msg args w))).
Proof.
  intros Hl Hok.
  exists (fresh (dom (loggers w))), (fresh (dom (maps w))),
    (copy_of L (fresh (dom (maps w)))),
    (derived_world w L (extend d (content w L))).
  assert (Hl' := derived_world_old_logger w L (extend d (content w L)) l L Hl).
  assert (Hc := derived_world_old_content w L (extend d (content w L)) L Hok).
  split; [by apply derive_spec |].
  split; [apply fresh_logger |]. split; [apply fresh_map |].
  split; [apply derived_world_new |].
  do 5 (split; [done |]).
  split; [apply derived_world_map |].
  split; [intros; by apply derived_world_old_logger |].
  split; [intros; by apply derived_world_old_map |].
  split; [done |]. split; [done |]. split; [done |].
  intros e2 lv msg args.
  rewrite (log_spec _ _ _ _ _ _ L Hl'), (log_spec _ _ _ _ _ _ L Hl), Hc.
  destruct (lv <? level L); [done |]. by rewrite !written_write_to.
Qed.

(* ================================================================== *)
(** * The two renderings                                               *)
(* ================================================================== *)

Lemma foldl_snoc_fmap {A B} (f : A → B) (xs : list A) (acc : list B) :
  foldl (λ acc x, acc ++ [f x]) acc xs = acc ++ (f <$> xs).
Proof.
  revert acc. induction xs as [|x xs IH]; intros acc; cbn.
  - by rewrite app_nil_r.
  - by rewrite IH, <- app_assoc.
Qed.

Lemma formatText_text_line (e : Env) (entry : LogEntry) :
  formatText e entry = text_line e entry.
Proof.
  unfold formatText, text_line. cbn zeta.
  rewrite foldl_snoc_fmap. cbn [app].
  assert (Hsize : (0 < size (Fields entry))%nat ↔ Fields entry ≠ ∅).
  { rewrite <- map_size_non_empty_iff. lia. }
  destruct (decide (Caller entry = "")) as [Hc|Hc];
    [rewrite (proj2 (String.eqb_eq _ _) Hc)
    |rewrite (proj2 (String.eqb_neq _ _) Hc)];
    destruct (decide (Fields entry = ∅)) as [He|He];
    destruct (decide (0 < size (Fields entry))%nat) as [Hs|Hs];
    try (exfalso; tauto);
    cbn; by rewrite ?string_app_nil_r.
Qed.

Lemma strings_Contains_refl (s : string) : strings_Contains s s = true.
Proof.
  apply strings_Contains_here. rewrite <- (string_app_nil_r s) at 2.
  apply prefix_app.
Qed.

Lemma strings_Contains_end (a b : string) : strings_Contains (a +:+ b) b = true.
Proof. apply strings_Contains_skip, strings_Contains_refl. Qed.

Lemma strings_Contains_start (a b : string) :
  strings_Contains (a +:+ b) a = true.
Proof. apply strings_Contains_here, prefix_app. Qed.

Lemma text_line_contains (e : Env) (entry : LogEntry) :
  strings_Contains (text_line e entry) (Message entry) = true ∧
  strings_Contains (text_line e entry) (Level entry) = true.
Proof.
  unfold text_line. split.
  - do 5 apply strings_Contains_skip. apply strings_Contains_start.
  - do 2 apply strings_Contains_skip.
    eapply strings_Contains_trans; [apply strings_Contains_start |].
    apply strings_Contains_mid.
Qed.

(** Text whose bytes are all HTML-safe is its own JSON escape. *)
Lemma json_escape_safe (s : string) :
  string_forallb htmlSafe s = true → json_escape s = s.
Proof.
  unfold json_escape. induction s as [|c s IH]; [done |].
  cbn [string_forallb json_escape_from]. intros [Hc Hs]%andb_true_iff.
  assert (Hb : below_RuneSelf c = true).
  { unfold htmlSafe in Hc. unfold below_RuneSelf. cbn zeta in Hc. lia. }
  rewrite Hb. unfold json_byte. cbn zeta. rewrite Hc.
  by rewrite string_app_cons, string_app_nil_l, IH.
Qed.

Lemma LogLevel_String_safe (lv : LogLevel) :
  string_forallb htmlSafe (LogLevel_String lv) = true.
Proof. unfold LogLevel_String. by repeat case_match. Qed.

Lemma json_string_contains (s : string) :
  strings_Contains (json_string s) (json_escape s) = true.
Proof.
  unfold json_string.
  change (String dquote (json_escape s +:+ String dquote ""))
    with (String dquote "" +:+ json_escape s +:+ String dquote "").
  apply strings_Contains_mid.
Qed.

(** What [json.Marshal] yields holds the three leading members. *)
Lemma json_Marshal_contains (entry : LogEntry) (data : string) :
  json_Marshal entry = Some data →
  strings_Contains data (json_string (Level entry)) = true ∧
  strings_Contains data (json_string (Message entry)) = true.
Proof.
  unfold json_Marshal. cbn zeta.
  set (head := json_key "timestamp" +:+ _).
  assert (Hhead :
    strings_Contains head (json_string (Level entry)) = true ∧
    strings_Contains head (json_string (Message entry)) = true).
  { subst head. split.
    - do 4 apply strings_Contains_skip. apply strings_Contains_start.
    - do 6 apply strings_Contains_skip. apply strings_Contains_end. }
  intros Hdata.
  assert (Hin : strings_Contains data head = true).
  { case_decide.
    - injection Hdata as <-. apply strings_Contains_mid.
    - destruct (json_map (Fields entry)); [| done].
      injection Hdata as <-. apply strings_Contains_mid. }
  destruct Hhead. split; eapply strings_Contains_trans; done.
Qed.

(** C8 — the text rendering of an entry is the space-separated line of
    timestamp, bracketed level, parenthesized caller if present,
    message and braced comma-joined [key=value] pairs if there are
    fields, and it holds the message and the level name.  The JSON
    rendering holds the level name of every level.  When
    [json.Marshal] succeeds it holds the message in its JSON-escaped
    form, which is the message itself when all its bytes are printable
    ASCII other than the quote, the backslash, [<], [>] and [&]; when
    [json.Marshal] fails it is the text rendering, and holds the
    message itself. *)
Theorem renderings_hold_message_and_level (e : Env) (entry : LogEntry) :
  formatEntry e TextFormat entry = text_line e entry ∧
  strings_Contains (formatEntry e TextFormat entry) (Message entry) = true ∧
  strings_Contains (formatEntry e TextFormat entry) (Level entry) = true ∧
  (∀ lv, Level entry = LogLevel_String lv →
     strings_Contains (formatEntry e JSONFormat entry) (Level entry) = true) ∧
  (string_forallb htmlSafe (Message entry) = true →
     strings_Contains (formatEntry e JSONFormat entry) (Message entry) = true) ∧
  (∀ data, json_Marshal entry = Some data →
     formatEntry e JSONFormat entry = data ∧
     strings_Contains data (json_escape (Message entry)) = true) ∧
  (json_Marshal entry = None →
     formatEntry e JSONFormat entry = text_line e entry ∧
     strings_Contains (formatEntry e JSONFormat entry) (Message entry) = true).
Proof.
  assert (Htext : formatEntry e TextFormat entry = text_line e entry).
  { unfold formatEntry. cbn. apply formatText_text_line. }
  destruct (text_line_contains e entry) as [Hmsg Hlvl].
  assert (Hjson : formatEntry e JSONFormat entry =
            default (text_line e entry) (json_Marshal entry)).
  { unfold formatEntry. cbn.
    destruct (json_Marshal entry); [done | apply formatText_text_line]. }
  split; [done |]. rewrite Htext. split; [done |]. split; [done |].
  rewrite Hjson. split; [| split; [| split]].
  - intros lv Hlv. destruct (json_Marshal entry) as [data|] eqn:Hm; [| done].
    cbn. destruct (json_Marshal_contains entry data Hm) as [Hl _].
    eapply strings_Contains_trans; [exact Hl |].
    rewrite <- (json_escape_safe (Level entry)) at 2
      by (rewrite Hlv; apply LogLevel_String_safe).
    apply json_string_contains.
  - intros Hsafe. destruct (json_Marshal entry) as [data|] eqn:Hm; [| done].
    cbn. destruct (json_Marshal_contains entry data Hm) as [_ Hd].
    eapply strings_Contains_trans; [exact Hd |].
    rewrite <- (json_escape_safe (Message entry)) at 2 by done.
    apply json_string_contains.
  - intros data Hm. rewrite Hm. split; [done |].
    destruct (json_Marshal_contains entry data Hm) as [_ Hd].
    eapply strings_Contains_trans; [exact Hd |].
    apply json_string_contains.
  - intros Hm. rewrite Hm. by split.
Qed.

(* ================================================================== *)
(** * The HTTP middleware                                              *)
(* ================================================================== *)

Lemma foldl_capture (calls : list RWCall) (held : Z) :
  foldl capture held calls = default held (last (status_writes calls)).
Proof.
  revert held. induction calls as [|c calls IH]; intros held; [done |].
  cbn [foldl]. rewrite IH.
  destruct c as [| |code]; cbn [capture]; try done.
  change (status_writes (CallWriteHeader code :: calls))
    with (code :: status_writes calls).
  rewrite last_cons. by destruct (last (status_writes calls)).
Qed.

Lemma wrapper_call_spec (p : loc) (c : RWCall) (w : World)
    (W : responseWriterWrapper) :
  wrappers w !! p = Some W →
  wrapper_call p c w =
  Returned tt
    (set_served (λ t, t ++ [(ResponseWriter W, c)])
       (set_wrappers
          <[p := {| ResponseWriter := ResponseWriter W;
                    statusCode := capture (statusCode W) c |}]> w)).
Proof.
  intros Hp.
  assert (Hid : set_wrappers <[p := {| ResponseWriter := ResponseWriter W;
                    statusCode := statusCode W |}]> w = w).
  { destruct w, W. unfold set_wrappers. cbn in *. f_equal.
    by apply insert_id. }
  destruct c as [| |code]; cbn [wrapper_call capture].
  - erewrite bind_Returned; last by (unfold get_wrapper; rewrite Hp).
    by rewrite Hid.
  - erewrite bind_Returned; last by (unfold get_wrapper; rewrite Hp).
    by rewrite Hid.
  - unfold WriteHeader.
    erewrite bind_Returned; last by (unfold put_statusCode; rewrite Hp).
    erewrite bind_Returned; last first.
    { unfold get_wrapper. cbn. by rewrite lookup_insert_eq. }
    done.
Qed.

(** Running a handler's calls on the wrapper leaves in it the code of
    the latest [WriteHeader], and passes every call on to the inner
    writer. *)
Lemma for_each_wrapper_call (p : loc) (calls : list RWCall) :
  ∀ (w : World) (W : responseWriterWrapper),
    wrappers w !! p = Some W →
    for_each calls (wrapper_call p) w =
    Returned tt
      (set_served (λ t, t ++ ((ResponseWriter W,.) <$> calls))
         (set_wrappers
            <[p := {| ResponseWriter := ResponseWriter W;
                      statusCode := foldl capture (statusCode W) calls |}]>
            w)).
Proof.
  induction calls as [|c calls IH]; intros w W Hp.
  - cbn. f_equal. destruct w, W. unfold set_served, set_wrappers. cbn in *.
    f_equal; [symmetry; by apply insert_id | by rewrite app_nil_r].
  - cbn [for_each foldl fmap list_fmap].
    erewrite bind_Returned; last by apply wrapper_call_spec.
    erewrite IH; last by (cbn; apply lookup_insert_eq).
    f_equal. unfold set_served, set_wrappers. cbn. f_equal.
    + apply insert_insert_eq.
    + by rewrite <- app_assoc.
Qed.

Lemma ServeHTTP_returns (next : Handler) (p : loc) (r : Request)
    (calls : list RWCall) (w : World) (W : responseWriterWrapper) :
  next r = (calls, Returns) →
  wrappers w !! p = Some W →
  ServeHTTP next p r w =
  Returned tt
    (set_served (λ t, t ++ ((ResponseWriter W,.) <$> calls))
       (set_wrappers
          <[p := {| ResponseWriter := ResponseWriter W;
                    statusCode := foldl capture (statusCode W) calls |}]>
          w)).
Proof.
  intros Hnext Hp. unfold ServeHTTP. rewrite Hnext.
  erewrite bind_Returned; last by apply for_each_wrapper_call. done.
Qed.

Section MiddlewareFacts.
Context `{GoLib}.

Lemma line_of_copy (e : Env) (L : Logger) (p : loc) lv msg args fs :
  line_of e (copy_of L p) lv msg args fs = line_of e L lv msg args fs.
Proof. done. Qed.

Lemma entry_of_Fields (e : Env) (L : Logger) lv msg args fs :
  Fields (entry_of e L lv msg args fs) = fs.
Proof.
  unfold entry_of, build_entry. by repeat case_match.
Qed.

Lemma entry_of_Level_Message (e : Env) (L : Logger) lv msg fs :
  Level (entry_of e L lv msg [] fs) = LogLevel_String lv ∧
  Message (entry_of e L lv msg [] fs) = msg.
Proof.
  unfold entry_of, build_entry. by repeat case_match.
Qed.

(** What the middleware does around a handler that returns. *)
Lemma HTTPLogMiddleware_spec (e : Env) (l : loc) (next : Handler)
    (rw : positive) (r : Request) (w : World) (L : Logger) (o : Writer)
    (calls : list RWCall) :
  loggers w !! l = Some L →
  output L = Some o →
  level L ≤ INFO →
  next r = (calls, Returns) →
  ∃ w',
    HTTPLogMiddleware e l next rw r w = Returned tt w' ∧
    written w' =
      written w ++
      [(o, line_of e L INFO "HTTP request" []
             (request_fields e r (foldl capture 200 calls) ∪ content w L))] ∧
    served w' = served w ++ ((rw,.) <$> calls).
Proof.
  intros Hl Ho Hle Hnext. unfold HTTPLogMiddleware.
  erewrite bind_Returned; last done.
  erewrite bind_Returned; last first.
  { eapply ServeHTTP_returns; [done |]. cbn. apply lookup_insert_eq. }
  erewrite bind_Returned; last first.
  { unfold get_wrapper. cbn. by rewrite lookup_insert_eq. }
  cbn [statusCode ResponseWriter].
  set (w2 := set_served _ _).
  erewrite bind_Returned; last first.
  { apply (derive_spec e l (ByFields _) w2 L). done. }
  unfold Info. eexists. split.
  - eapply (log_written _ _ _ _ _ _ (copy_of L _) o); [| done | done].
    apply derived_world_new.
  - rewrite derived_world_content, line_of_copy. done.
Qed.
End MiddlewareFacts.

(** What the wrapper does in general: around a handler that returns it
    starts at 200 and takes the code of every [WriteHeader] the handler
    makes, so it holds the latest one, or 200 when there was none; the
    entry emitted afterwards on a logger that passes INFO carries that
    code as [status_code]: 404 for a handler that writes 404 once, 200
    for one that writes no status. *)
Theorem middleware_records_latest_status `{GoLib} (e : Env) (l : loc)
    (next : Handler) (rw : positive) (r : Request) (w : World)
    (L : Logger) (o : Writer) (calls : list RWCall) :
  loggers w !! l = Some L →
  output L = Some o →
  level L ≤ INFO →
  next r = (calls, Returns) →
  let code := default 200 (last (status_writes calls)) in
  let entry :=
    entry_of e L INFO "HTTP request" []
      (request_fields e r code ∪ content w L) in
  ∃ w',
    HTTPLogMiddleware e l next rw r w = Returned tt w' ∧
    written w' = written w ++ [(o, formatEntry e (format L) entry +:+ newline)] ∧
    Level entry = "INFO" ∧
    Fields entry !! "status_code" = Some (VInt code) ∧
    (status_writes calls = [] → code = 200) ∧
    (status_writes calls = [404] → code = 404).
Proof.
  intros Hl Ho Hle Hnext code entry.
  destruct (HTTPLogMiddleware_spec e l next rw r w L o calls)
    as (w' & Hrun & Hw & _); [done.. |].
  rewrite foldl_capture in Hw. fold code in Hw.
  exists w'. split; [done |]. split; [done |].
  split; [apply entry_of_Level_Message |].
  split.
  - unfold entry. rewrite entry_of_Fields.
    apply lookup_union_Some_l. unfold request_fields.
    by rewrite !lookup_insert.
  - unfold code. by split; intros ->.
Qed.

(* ================================================================== *)
(** * Field precedence                                                 *)
(* ================================================================== *)

Lemma range_of_singleton (e : Env) (k : string) (v : Value) :
  range_of e {[k := v]} = [(k, v)].
Proof.
  apply Permutation_singleton_r. by rewrite range_perm, map_to_list_singleton.
Qed.

(** C7 — [WithField] yields the receiver's fields with the one key
    set, over any earlier value; [WithFields] yields them with every
    entry of the given map set, over earlier values of the same keys;
    and [WithFields({"a":1})] followed by [WithField("a",2)] yields a
    logger whose fields hold 2 at "a" and whose records show it: on a
    receiver without fields and with threshold INFO, the text line
    ends in [{a=2}] and the JSON line in ["fields":{"a":2}]. *)
Theorem field_attachment_last_write_wins `{GoLib} (e : Env) (l : loc)
    (w : World) (L : Logger) :
  loggers w !! l = Some L →
  (∀ key value, ∃ l' L' w',
     WithField e l key value w = Returned l' w' ∧
     loggers w' !! l' = Some L' ∧
     content w' L' = <[key := value]> (content w L) ∧
     content w' L' !! key = Some value) ∧
  (∀ fs, ∃ l' L' w',
     WithFields e l fs w = Returned l' w' ∧
     loggers w' !! l' = Some L' ∧
     content w' L' = fs ∪ content w L ∧
     (∀ k v, fs !! k = Some v → content w' L' !! k = Some v)) ∧
  (∀ (e1 e2 e3 : Env) (msg : string), ∃ l1 w1 l2 w2 L2,
     WithFields e1 l {["a" := VInt 1]} w = Returned l1 w1 ∧
     WithField e2 l1 "a" (VInt 2) w1 = Returned l2 w2 ∧
     loggers w2 !! l2 = Some L2 ∧
     content w2 L2 = <["a" := VInt 2]> (content w L) ∧
     content w2 L2 !! "a" = Some (VInt 2) ∧
     (∀ o, output L = Some o → level L ≤ INFO →
        Info e3 l2 msg [] w2 =
        Returned tt
          (wrote o (line_of e3 L INFO msg [] (<["a" := VInt 2]> (content w L)))
             w2)) ∧
     (content w L = ∅ → level L = INFO → format L = TextFormat →
        line_of e3 L INFO msg [] (<["a" := VInt 2]> (content w L)) =
        (time_Now e3 +:+ " [INFO] " +:+ msg +:+ " {a=2}") +:+ newline) ∧
     (content w L = ∅ → level L = INFO → format L = JSONFormat →
        line_of e3 L INFO msg [] (<["a" := VInt 2]> (content w L)) =
        ("{" +:+
         (json_key "timestamp" +:+ json_string (time_Now e3) +:+ "," +:+
          json_key "level" +:+ json_string "INFO" +:+ "," +:+
          json_key "message" +:+ json_string msg) +:+
         "," +:+ json_key "fields" +:+ ("{" +:+ json_key "a" +:+ "2}") +:+ "}")
        +:+ newline)).
Proof.
  intros Hl. split; [| split].
  - intros key value. do 3 eexists. split.
    { apply (derive_spec e l (ByField key value) w L Hl). }
    split; [apply derived_world_new |].
    rewrite derived_world_content. cbn [extend].
    split; [done | apply lookup_insert_eq].
  - intros fs. do 3 eexists. split.
    { apply (derive_spec e l (ByFields fs) w L Hl). }
    split; [apply derived_world_new |].
    rewrite derived_world_content. cbn [extend].
    split; [done |]. intros k v Hk. by apply lookup_union_Some_l.
  - intros e1 e2 e3 msg.
    set (w1 := derived_world w L ({["a" := VInt 1]} ∪ content w L)).
    set (L1 := copy_of L (fresh (dom (maps w)))).
    assert (H1 : loggers w1 !! fresh (dom (loggers w)) = Some L1)
      by apply derived_world_new.
    assert (Hc1 : content w1 L1 = {["a" := VInt 1]} ∪ content w L)
      by apply derived_world_content.
    assert (Hfields : <["a" := VInt 2]> (content w1 L1) =
                      <["a" := VInt 2]> (content w L)).
    { rewrite Hc1, <- insert_union_singleton_l. apply insert_insert_eq. }
    exists (fresh (dom (loggers w))), w1, (fresh (dom (loggers w1))),
      (derived_world w1 L1 (<["a" := VInt 2]> (content w1 L1))),
      (copy_of L1 (fresh (dom (maps w1)))).
    split; [apply (derive_spec e1 l (ByFields _) w L Hl) |].
    split; [apply (derive_spec e2 _ (ByField _ _) w1 L1 H1) |].
    split; [apply derived_world_new |].
    rewrite derived_world_content, Hfields.
    split; [done |]. split; [apply lookup_insert_eq |].
    split; [| split].
    + intros o Ho Hle. unfold Info.
      erewrite (log_written _ _ _ _ _ _ (copy_of L1 _) o);
        [| apply derived_world_new | done | done].
      by rewrite derived_world_content, !line_of_copy.
    + intros -> HL Hf. unfold line_of, entry_of, build_entry.
      rewrite Hf, HL. cbn [orb Z.leb Z.eqb ERROR INFO DEBUG Z.compare
        Pos.compare Pos.compare_cont List.length Nat.ltb Nat.leb].
      change (formatEntry e3 TextFormat ?x) with (formatText e3 x).
      rewrite formatText_text_line. unfold text_line. cbn [Caller Fields].
      rewrite insert_empty, range_of_singleton.
      rewrite decide_True by done.
      rewrite decide_False by apply (map_non_empty_singleton (M := gmap string)).
      by vm_compute.
    + intros -> HL Hf. unfold line_of, entry_of, build_entry.
      rewrite Hf, HL. by vm_compute.
Qed.

(* ================================================================== *)
(** * Concrete runs                                                    *)
(* ================================================================== *)

Lemma parse_witness :
  isASCII "WaRnInG" = true ∧
  string_map upper_byte "WaRnInG" = "WARNING" ∧
  (@strings_ToUpper sample_lib "verbose" ∉
     ["DEBUG"; "INFO"; "WARN"; "WARNING"; "ERROR"; "FATAL"]) ∧
  (@strings_ToLower sample_lib "XML" ∉ ["json"; "text"; "plain"]) ∧
  @parseLogLevel sample_lib "WaRnInG" = WARN ∧
  @parseLogLevel sample_lib "verbose" = INFO ∧
  @parseLogFormat sample_lib "XML" = JSONFormat ∧
  @parseLogLevel sample_lib "warning" = @parseLogLevel sample_lib "WaRnInG".
Proof.
  destruct (@parse_total_case_insensitive_defaults sample_lib)
    as (_ & Hdef & _ & Hfmt & Hfold & Hwarn & _).
  assert (Hv : (@strings_ToUpper sample_lib "verbose") ∉
    ["DEBUG"; "INFO"; "WARN"; "WARNING"; "ERROR"; "FATAL"]).
  { rewrite !not_elem_of_cons.
    repeat split; try (vm_compute; discriminate). apply not_elem_of_nil. }
  assert (Hx : (@strings_ToLower sample_lib "XML") ∉
    ["json"; "text"; "plain"]).
  { rewrite !not_elem_of_cons.
    repeat split; try (vm_compute; discriminate). apply not_elem_of_nil. }
  split; [reflexivity |]. split; [reflexivity |].
  split; [exact Hv |]. split; [exact Hx |].
  split; [apply Hwarn; reflexivity |].
  split; [apply Hdef; exact Hv |].
  split; [apply Hfmt; exact Hx |].
  apply (Hfold "warning" "WaRnInG"); reflexivity.
Defined.

Lemma sample_text_logger : loggers sample_world !! 1%positive = Some text_logger.
Proof. reflexivity. Defined.

Lemma sample_json_logger : loggers sample_world !! 2%positive = Some json_logger.
Proof. reflexivity. Defined.

Lemma emission_witness :
  loggers sample_world !! 1%positive = Some text_logger ∧
  output text_logger = Some Stdout ∧
  level text_logger ≤ emission_level AtInfo ∧
  emission_level AtDebug < level text_logger ∧
  written (world_of (@emit sample_lib AtInfo sample_env 1%positive
                       "started" [] sample_world)) =
    [(Stdout, "2024-01-02T03:04:05Z [INFO] started" +:+ newline)] ∧
  world_of (@emit sample_lib AtDebug sample_env 1%positive
              "probe" [] sample_world) = sample_world.
Proof.
  assert (Hle : level text_logger ≤ emission_level AtInfo) by (by cbv).
  assert (Hlt : emission_level AtDebug < level text_logger) by (by cbv).
  destruct (@emission_iff_threshold sample_lib AtInfo sample_env 1%positive
              "started" [] sample_world text_logger Stdout
              sample_text_logger eq_refl) as (Hemit & _).
  destruct (@emission_iff_threshold sample_lib AtDebug sample_env 1%positive
              "probe" [] sample_world text_logger Stdout
              sample_text_logger eq_refl) as (_ & Hdrop & _).
  split; [reflexivity |]. split; [reflexivity |].
  split; [exact Hle |]. split; [exact Hlt |]. split.
  - rewrite (Hemit Hle). vm_compute. reflexivity.
  - apply (Hdrop Hlt).
Defined.

Lemma derivation_witness :
  loggers sample_world !! 2%positive = Some json_logger ∧
  (∀ p, fields json_logger = Some p → is_Some (maps sample_world !! p)) ∧
  ∃ (l' p' : loc) (w' : World),
    derive sample_env 2%positive (ByField "request_id" (VString "r-1"))
      sample_world = Returned l' w' ∧
    loggers w' !! 2%positive = Some json_logger ∧
    content w' json_logger = content sample_world json_logger ∧
    maps w' !! p' =
      Some (<["request_id" := VString "r-1"]> {["ratio" := VNaN]}).
Proof.
  assert (Hok : ∀ p, fields json_logger = Some p →
                     is_Some (maps sample_world !! p)).
  { intros p Hp. injection Hp as <-. eexists. reflexivity. }
  destruct (@derivation_leaves_receiver sample_lib sample_env 2%positive
              (ByField "request_id" (VString "r-1")) sample_world json_logger
              sample_json_logger Hok)
    as (l' & p' & L' & w' & Hrun & _ & _ & _ & _ & _ & _ & _ & _ & Hmap
        & _ & _ & _ & Hsame & Hcontent & _).
  split; [reflexivity |]. split; [exact Hok |].
  exists l', p', w'. split; [exact Hrun |]. split; [exact Hsame |].
  split; [exact Hcontent |]. exact Hmap.
Defined.

Lemma middleware_witness :
  loggers sample_world !! 1%positive = Some text_logger ∧
  output text_logger = Some Stdout ∧
  level text_logger ≤ INFO ∧
  not_found sample_request =
    ([CallWriteHeader 404; CallWrite "no such page"], Returns) ∧
  body_only sample_request = ([CallWrite "ok"], Returns) ∧
  (∃ w' line,
     @HTTPLogMiddleware sample_lib sample_env 1%positive not_found 9%positive
       sample_request sample_world = Returned tt w' ∧
     written w' = [(Stdout, line)] ∧
     strings_Contains line "status_code=404" = true) ∧
  (∃ w' line,
     @HTTPLogMiddleware sample_lib sample_env 1%positive body_only 9%positive
       sample_request sample_world = Returned tt w' ∧
     written w' = [(Stdout, line)] ∧
     strings_Contains line "status_code=200" = true).
Proof.
  assert (Hle : level text_logger ≤ INFO) by (by cbv).
  split; [reflexivity |]. split; [reflexivity |]. split; [exact Hle |].
  split; [reflexivity |]. split; [reflexivity |]. split.
  - destruct (@middleware_records_latest_status sample_lib sample_env
                1%positive not_found 9%positive sample_request sample_world
                text_logger Stdout _ sample_text_logger eq_refl Hle eq_refl)
      as (w' & Hrun & Hw & _).
    exists w'. eexists. split; [exact Hrun |]. split; [exact Hw |].
    vm_compute. reflexivity.
  - destruct (@middleware_records_latest_status sample_lib sample_env
                1%positive body_only 9%positive sample_request sample_world
                text_logger Stdout _ sample_text_logger eq_refl Hle eq_refl)
      as (w' & Hrun & Hw & _).
    exists w'. eexists. split; [exact Hrun |]. split; [exact Hw |].
    vm_compute. reflexivity.
Defined.

(** C3 — the wrapper, made "to capture status code", does not hold
    the first status write: [WriteHeader] assigns the code on every
    call.  For a handler that calls [WriteHeader(404)] and then
    [WriteHeader(500)], the first status written is 404, and it is the
    first call that reaches the inner response writer, while the
    record emitted carries [status_code=500] and no 404. *)
Lemma first_status_write_is_overwritten :
  head (status_writes (twice sample_request).1) = Some 404 ∧
  ∃ w' line,
    @HTTPLogMiddleware sample_lib sample_env 1%positive twice 9%positive
      sample_request sample_world = Returned tt w' ∧
    head (served w') = Some (9%positive, CallWriteHeader 404) ∧
    written w' = [(Stdout, line)] ∧
    strings_Contains line "status_code=500" = true ∧
    strings_Contains line "status_code=404" = false.
Proof.
  split; [reflexivity |]. do 2 eexists.
  split; [vm_compute; reflexivity |].
  split; [reflexivity |].
  split; [reflexivity |]. split; vm_compute; reflexivity.
Qed.

Lemma caller_witness :
  loggers sample_world !! 1%positive = Some text_logger ∧
  output text_logger = Some Stdout ∧
  level text_logger ≤ INFO ∧
  level text_logger ≤ ERROR ∧
  Caller (@entry_of sample_lib sample_env text_logger INFO "started" []
            (content sample_world text_logger)) = "" ∧
  Caller (@entry_of sample_lib sample_env text_logger ERROR "failed" []
            (content sample_world text_logger)) ≠ "" ∧
  written (world_of (@log sample_lib sample_env 1%positive ERROR "failed" []
                       sample_world)) =
    [(Stdout, "2024-01-02T03:04:05Z [ERROR] (main.go:42) failed" +:+ newline)].
Proof.
  assert (Hinfo : level text_logger ≤ INFO) by (by cbv).
  assert (Herr : level text_logger ≤ ERROR) by (by cbv).
  destruct (@caller_only_for_errors_or_debug sample_lib sample_env 1%positive
              INFO "started" [] sample_world text_logger Stdout
              sample_text_logger eq_refl Hinfo) as (_ & _ & _ & Hnone).
  destruct (@caller_only_for_errors_or_debug sample_lib sample_env 1%positive
              ERROR "failed" [] sample_world text_logger Stdout
              sample_text_logger eq_refl Herr) as (Hrun & Hiff & _).
  split; [reflexivity |]. split; [reflexivity |].
  split; [exact Hinfo |]. split; [exact Herr |].
  split; [apply Hnone; reflexivity |]. split.
  - apply Hiff. split; [left; by cbv | eexists; reflexivity].
  - rewrite Hrun. vm_compute. reflexivity.
Defined.

Lemma fallback_witness :
  loggers sample_world !! 2%positive = Some json_logger ∧
  output json_logger = Some (Sink 1) ∧
  level json_logger ≤ WARN ∧
  format json_logger = JSONFormat ∧
  json_Marshal (@entry_of sample_lib sample_env json_logger WARN "load" []
                  (content sample_world json_logger)) = None ∧
  written (world_of (@log sample_lib sample_env 2%positive WARN "load" []
                       sample_world)) =
    [(Sink 1,
      "2024-01-02T03:04:05Z [WARN] (main.go:42) load {ratio=NaN}"
      +:+ newline)].
Proof.
  assert (Hle : level json_logger ≤ WARN) by (by cbv).
  destruct (@structured_failure_falls_back_to_text sample_lib)
    as (_ & Hlog & _).
  split; [reflexivity |]. split; [reflexivity |]. split; [exact Hle |].
  split; [reflexivity |]. split; [reflexivity |].
  rewrite (Hlog sample_env 2%positive WARN "load" [] sample_world json_logger
             (Sink 1) sample_json_logger eq_refl Hle eq_refl eq_refl).
  vm_compute. reflexivity.
Defined.

Lemma precedence_witness :
  loggers sample_world !! 1%positive = Some text_logger ∧
  content sample_world text_logger = ∅ ∧
  ∃ l1 w1 l2 w2,
    WithFields sample_env 1%positive {["a" := VInt 1]} sample_world =
      Returned l1 w1 ∧
    WithField sample_env l1 "a" (VInt 2) w1 = Returned l2 w2 ∧
    @Info sample_lib sample_env l2 "started" [] w2 =
      Returned tt
        (wrote Stdout
           (("2024-01-02T03:04:05Z" +:+ " [INFO] " +:+ "started" +:+ " {a=2}")
            +:+ newline) w2).
Proof.
  destruct (@field_attachment_last_write_wins sample_lib sample_env
              1%positive sample_world text_logger sample_text_logger)
    as (_ & _ & Hchain).
  destruct (Hchain sample_env sample_env sample_env "started")
    as (l1 & w1 & l2 & w2 & L2 & H1 & H2 & _ & _ & _ & Hinfo & Htext & _).
  split; [reflexivity |]. split; [reflexivity |].
  exists l1, w1, l2, w2. split; [exact H1 |]. split; [exact H2 |].
  rewrite (Hinfo Stdout eq_refl ltac:(by cbv)).
  rewrite (Htext eq_refl eq_refl eq_refl). reflexivity.
Defined.

Lemma renderings_witness :
  let entry :=
    {| Timestamp := "2024-01-02T03:04:05Z"; Level := LogLevel_String WARN;
       Message := "disk at 91 percent"; Caller := "";
       Fields := {["host" := VString "db-1"]} |} in
  let failing :=
    {| Timestamp := "2024-01-02T03:04:05Z"; Level := LogLevel_String WARN;
       Message := "a<b"; Caller := "";
       Fields := {["ratio" := VNaN]} |} in
  string_forallb htmlSafe (Message entry) = true ∧
  Level entry = LogLevel_String WARN ∧
  json_Marshal failing = None ∧
  strings_Contains (formatEntry sample_env JSONFormat entry)
    "disk at 91 percent" = true ∧
  strings_Contains (formatEntry sample_env JSONFormat entry) "WARN" = true ∧
  formatEntry sample_env TextFormat entry =
    "2024-01-02T03:04:05Z [WARN] disk at 91 percent {host=db-1}" ∧
  strings_Contains (formatEntry sample_env JSONFormat failing) "a<b" = true.
Proof.
  intros entry failing.
  destruct (renderings_hold_message_and_level sample_env entry)
    as (Htext & _ & _ & Hlevel & Hmessage & _).
  destruct (renderings_hold_message_and_level sample_env failing)
    as (_ & _ & _ & _ & _ & _ & Hfallback).
  split; [reflexivity |]. split; [reflexivity |]. split; [reflexivity |].
  split; [exact (Hmessage eq_refl) |].
  split; [exact (Hlevel WARN eq_refl) |].
  split; [rewrite Htext; reflexivity |].
  exact (proj2 (Hfallback eq_refl)).
Defined.

(** The claim fails on a message with a byte that JSON escapes: the
    structured rendering holds the escape, not the message. *)
Lemma structured_rendering_escapes_the_message :
  let entry :=
    {| Timestamp := "2024-01-02T03:04:05Z"; Level := LogLevel_String INFO;
       Message := "a<b"; Caller := ""; Fields := ∅ |} in
  strings_Contains (formatEntry sample_env JSONFormat entry) (Message entry)
    = false ∧
  strings_Contains (formatEntry sample_env JSONFormat entry)
    (String "a" (String backslash "u003cb")) = true ∧
  strings_Contains (formatEntry sample_env TextFormat entry) (Message entry)
    = true.
Proof. repeat split; vm_compute; reflexivity. Qed.

Lemma fatal_witness :
  loggers sample_world !! 1%positive = Some text_logger ∧
  output text_logger = Some Stdout ∧
  @Fatal sample_lib sample_env 1%positive "cannot bind" [] sample_world =
    Exited 1
      (wrote Stdout
         ("2024-01-02T03:04:05Z [FATAL] (main.go:42) cannot bind" +:+ newline)
         sample_world).
Proof.
  destruct (@Fatal_emits_then_exits sample_lib sample_env 1%positive
              "cannot bind" [] sample_world) as (_ & _ & Hexit).
  split; [reflexivity |]. split; [reflexivity |].
  rewrite (Hexit text_logger Stdout sample_text_logger eq_refl).
  vm_compute. reflexivity.
Defined.

(** The claim fails for a backing logger without a sink: after
    [SetOutput(nil)] on a logger whose threshold is INFO, [Write]
    panics, so it returns no pair at all. *)
Lemma Write_panics_without_a_sink :
  level text_logger ≤ INFO ∧
  (∃ w', (SetOutput 1%positive None;;
          @loggerWriter_Write sample_lib sample_env 1%positive "listening")
           sample_world = Panicked w') ∧
  ∀ w', (SetOutput 1%positive None;;
         @loggerWriter_Write sample_lib sample_env 1%positive "listening")
          sample_world ≠ Returned (len "listening", None) w'.
Proof.
  split; [by cbv |]. split; [eexists; vm_compute; reflexivity |].
  intros w'. vm_compute. discriminate.
Qed.

Lemma adapter_witness :
  loggers sample_world !! 1%positive = Some text_logger ∧
  (INFO < level text_logger ∨ is_Some (output text_logger)) ∧
  ∃ w',
    @loggerWriter_Write sample_lib sample_env 1%positive "listening"
      sample_world = Returned (9, None) w'.
Proof.
  assert (Hok : INFO < level text_logger ∨ is_Some (output text_logger)).
  { right. eexists. reflexivity. }
  destruct (@loggerWriter_Write_returns_len sample_lib sample_env 1%positive
              "listening" sample_world text_logger sample_text_logger Hok)
    as (w' & Hrun & _).
  split; [reflexivity |]. split; [exact Hok |].
  exists w'. exact Hrun.
Defined.

(* ================================================================== *)
(** * Construction, runs of emissions and the setters                  *)
(* ================================================================== *)

Section LoggerLifecycle.
Context `{GoLib}.

Lemma New_spec (config : Config) (w : World) :
  New config w =
  Returned (fresh (dom (loggers w)))
    (set_loggers
       <[fresh (dom (loggers w)) :=
           {| level := parseLogLevel (cfg_Level config);
              format := parseLogFormat (cfg_Format config);
              output := Some (default Stdout (cfg_Output config));
              fields := Some (fresh (dom (maps w)));
              callerSkip := cfg_CallerSkip config |}]>
       (set_maps <[fresh (dom (maps w)) := ∅]> w)).
Proof.
  unfold New.
  erewrite bind_Returned; last done.
  erewrite bind_Returned; last done.
  erewrite bind_Returned; last first.
  { unfold get_logger. cbn. by rewrite lookup_insert_eq. }
  cbn [output]. destruct (cfg_Output config) as [o|] eqn:Ho.
  - by erewrite bind_Returned.
  - erewrite bind_Returned; last first.
    { unfold put_logger. cbn. by rewrite lookup_insert_eq. }
    cbn. f_equal. unfold set_loggers, set_maps. cbn. f_equal.
    apply insert_insert_eq.
Qed.

(** [New] allocates one map, empty, and one logger: threshold and
    format parsed from the configuration, the configured sink or
    [os.Stdout] when none is given, the configured caller skip.
    Nothing that existed is touched and nothing is written. *)
Theorem New_allocates_ready_logger (config : Config) (w : World) :
  ∃ (l p : loc) (w' : World),
    New config w = Returned l w' ∧
    loggers w !! l = None ∧
    maps w !! p = None ∧
    loggers w' =
      <[l := {| level := parseLogLevel (cfg_Level config);
                format := parseLogFormat (cfg_Format config);
                output := Some (default Stdout (cfg_Output config));
                fields := Some p;
                callerSkip := cfg_CallerSkip config |}]> (loggers w) ∧
    maps w' = <[p := ∅]> (maps w) ∧
    written w' = written w ∧
    wrappers w' = wrappers w ∧
    served w' = served w.
Proof.
  exists (fresh (dom (loggers w))), (fresh (dom (maps w))). eexists.
  split; [apply New_spec |].
  split; [apply fresh_logger |]. split; [apply fresh_map |]. done.
Qed.

Lemma content_wrote (o : Writer) (bytes : string) (w : World) (L : Logger) :
  content (wrote o bytes w) L = content w L.
Proof. done. Qed.

Lemma lines_of_cons (L : Logger) (o : Writer) (fs : gmap string Value)
    (c : Call) (calls : list Call) :
  lines_of L o fs (c :: calls) =
  (if decide (level L ≤ call_level c)
   then [(o, line_of (call_env c) L (call_level c) (call_msg c)
               (call_args c) fs)]
   else []) ++ lines_of L o fs calls.
Proof.
  unfold lines_of. cbn [omap list_omap]. cbn beta.
  by destruct (decide (level L ≤ call_level c)).
Qed.

(** A run of emissions on a logger with a sink appends the lines of
    the calls at or above the threshold, in call order, and leaves
    everything else as it was. *)
Theorem emissions_append_in_call_order (l : loc) (calls : list Call)
    (w : World) (L : Logger) (o : Writer) :
  loggers w !! l = Some L →
  output L = Some o →
  log_all l calls w =
  Returned tt
    (set_written (λ t, t ++ lines_of L o (content w L) calls) w).
Proof.
  intros Hl Ho. unfold log_all. revert w Hl.
  induction calls as [|c calls IH]; intros w Hl.
  - cbn. f_equal. destruct w. unfold set_written. cbn. by rewrite app_nil_r.
  - cbn [for_each]. rewrite lines_of_cons. case_decide as Hle.
    + erewrite bind_Returned; last by apply (log_written _ _ _ _ _ _ L o).
      rewrite IH by done. rewrite content_wrote.
      unfold wrote, set_written. cbn. f_equal. f_equal.
      by rewrite <- app_assoc.
    + erewrite bind_Returned;
        last by (apply (log_dropped _ _ _ _ _ _ L); [done | lia]).
      by rewrite IH.
Qed.
End LoggerLifecycle.

Lemma ready_mono (w w' : World) (L : Logger) :
  (∀ p, is_Some (maps w !! p) → is_Some (maps w' !! p)) →
  ready w L → ready w' L.
Proof.
  intros Hsub [Ho (p & Hp & Hm)]. split; [done |]. exists p. split; auto.
Qed.

Lemma all_ready_same_stores (w w' : World) :
  loggers w' = loggers w → maps w' = maps w → all_ready w → all_ready w'.
Proof.
  intros Hl Hm Hw l L HL. rewrite Hl in HL.
  eapply ready_mono; [| by eapply Hw]. intros p. by rewrite Hm.
Qed.

Lemma all_ready_put (w : World) (l : loc) (L L' : Logger) :
  loggers w !! l = Some L →
  (ready w L → ready w L') →
  all_ready w → all_ready (set_loggers <[l := L']> w).
Proof.
  intros Hl Hkeep Hw l0 L0. cbn. rewrite lookup_insert.
  case_decide as Heq.
  - intros [= <-]. apply (ready_mono w); [done |]. apply Hkeep. by eapply Hw.
  - intros H0. apply (ready_mono w); [done |]. by eapply Hw.
Qed.

Lemma apply_setter_spec (l : loc) (s : Setter) (w : World) (L : Logger) :
  loggers w !! l = Some L →
  apply_setter l s w = Returned tt (set_loggers <[l := updated s L]> w).
Proof.
  intros Hl.
  destruct s; cbn [apply_setter updated];
    unfold SetLevel, SetFormat, SetOutput, put_logger; by rewrite Hl.
Qed.

Section Safety.
Context `{GoLib}.

(** In a world where every logger has a sink and an allocated fields
    map, construction, derivation, emission and the setters (with a
    sink given) all return, [Fatal] exits with status 1, none of them
    panics, and the world they leave is again such a world.  The
    empty world is one, so a program that only uses these calls on
    loggers it obtained from them never panics. *)
Theorem ready_worlds_never_panic (w : World) :
  all_ready w →
  all_ready empty_world ∧
  (∀ config, ∃ l w',
     New config w = Returned l w' ∧ all_ready w' ∧
     is_Some (loggers w' !! l)) ∧
  (∀ e l d, is_Some (loggers w !! l) → ∃ l' w',
     derive e l d w = Returned l' w' ∧ all_ready w' ∧
     is_Some (loggers w' !! l') ∧ is_Some (loggers w' !! l)) ∧
  (∀ e l lv msg args, is_Some (loggers w !! l) → ∃ w',
     log e l lv msg args w = Returned tt w' ∧ all_ready w' ∧
     loggers w' = loggers w ∧ maps w' = maps w) ∧
  (∀ e l msg args, is_Some (loggers w !! l) → ∃ w',
     Fatal e l msg args w = Exited 1 w' ∧ all_ready w') ∧
  (∀ l s, is_Some (loggers w !! l) → s ≠ ToOutput None → ∃ w',
     apply_setter l s w = Returned tt w' ∧ all_ready w' ∧
     dom (loggers w') = dom (loggers w)).
Proof.
  intros Hw.
  assert (Hlog : ∀ e l lv msg args, is_Some (loggers w !! l) → ∃ w',
     log e l lv msg args w = Returned tt w' ∧ all_ready w' ∧
     loggers w' = loggers w ∧ maps w' = maps w).
  { intros e l lv msg args [L Hl].
    destruct (Hw l L Hl) as [[o Ho] _].
    destruct (decide (level L ≤ lv)) as [Hle|Hgt].
    - eexists. split; [by apply (log_written _ _ _ _ _ _ L o) |].
      split; [by apply (all_ready_same_stores w) | done].
    - exists w. split; [| done].
      apply (log_dropped _ _ _ _ _ _ L); [done | lia]. }
  split; [| split; [| split; [| split; [| split]]]].
  - intros l L Hl. cbn in Hl. by rewrite lookup_empty in Hl.
  - intros config.
    do 2 eexists. split; [apply New_spec |]. split.
    + intros l0 L0. cbn. rewrite lookup_insert. case_decide as Hcase.
      * intros [= <-]. split; [by eexists |]. eexists. split; [done |].
        cbn. rewrite lookup_insert_eq. by eexists.
      * intros Hold. apply (ready_mono w); [| by eapply Hw].
        intros p0 [m0 Hp0]. cbn. rewrite lookup_insert_ne; [by eexists |].
        intros <-. by rewrite fresh_map in Hp0.
    + cbn. rewrite lookup_insert_eq. by eexists.
  - intros e l d [L Hl]. do 2 eexists.
    split; [by apply (derive_spec e l d w L) |].
    destruct (Hw l L Hl) as [HoL _].
    split; [| split].
    + intros l0 L0. cbn. rewrite lookup_insert. case_decide as Hcase.
      * intros [= <-]. split; [done |]. eexists. split; [done |].
        rewrite derived_world_map. by eexists.
      * intros Hold. apply (ready_mono w); [| by eapply Hw].
        intros p0 [m0 Hp0]. cbn. rewrite lookup_insert_ne; [by eexists |].
        intros <-. by rewrite fresh_map in Hp0.
    + rewrite derived_world_new. by eexists.
    + rewrite (derived_world_old_logger _ _ _ _ _ Hl). by eexists.
  - done.
  - intros e l msg args Hl.
    destruct (Hlog e l FATAL msg args Hl) as (w' & Hrun & Hw' & _).
    exists w'. split; [| done].
    unfold Fatal. by erewrite bind_Returned.
  - intros l s [L Hl] Hs. eexists.
    split; [by apply apply_setter_spec |]. split.
    + apply (all_ready_put w l L); [done | | done].
      intros [Ho Hf].
      destruct s as [lv|fmt|[o|]];
        [done | done | split; [by eexists | done] | by destruct Hs].
    + cbn. apply dom_insert_lookup_L. by eexists.
Qed.

(** Threshold, format and sink are copied at derivation, not shared:
    a setter called on the receiver after a derivation changes the
    receiver alone, so the derived logger keeps what the receiver had
    when it was derived, and every other logger and every map stays
    as it was. *)
Theorem setters_do_not_reach_derived_loggers (e : Env) (l : loc)
    (d : Derivation) (s : Setter) (w : World) (L : Logger) :
  loggers w !! l = Some L →
  ∃ (l' p' : loc) (w1 w2 : World),
    derive e l d w = Returned l' w1 ∧
    apply_setter l s w1 = Returned tt w2 ∧
    l' ≠ l ∧
    loggers w2 !! l = Some (updated s L) ∧
    loggers w2 !! l' = Some (copy_of L p') ∧
    (∀ l0, l0 ≠ l → loggers w2 !! l0 = loggers w1 !! l0) ∧
    maps w2 = maps w1 ∧
    written w2 = written w.
Proof.
  intros Hl.
  assert (Hne : fresh (dom (loggers w)) ≠ l).
  { intros <-. by rewrite fresh_logger in Hl. }
  exists (fresh (dom (loggers w))), (fresh (dom (maps w))).
  do 2 eexists. split; [by apply derive_spec |].
  split.
  { apply apply_setter_spec. by apply derived_world_old_logger. }
  split; [done |]. cbn.
  split; [apply lookup_insert_eq |].
  split; [by rewrite lookup_insert_ne, lookup_insert_eq |].
  split; [| done]. intros l0 Hl0. by rewrite (lookup_insert_ne _ l).
Qed.
End Safety.

Lemma sample_world_ready : all_ready sample_world.
Proof.
  intros l L Hl. unfold sample_world in Hl. cbn in Hl.
  apply lookup_insert_Some in Hl as [[<- <-]|[_ Hl]].
  - split; [by eexists |]. exists 1%positive. split; [done | by eexists].
  - apply lookup_singleton_Some in Hl as [<- <-].
    split; [by eexists |]. exists 2%positive. split; [done | by eexists].
Defined.

Lemma never_panic_witness :
  all_ready sample_world ∧
  ∃ l' w',
    derive sample_env 1%positive (ByContext (λ _, VNil)) sample_world =
      Returned l' w' ∧
    all_ready w'.
Proof.
  split; [exact sample_world_ready |].
  destruct (@ready_worlds_never_panic sample_lib sample_world
              sample_world_ready) as (_ & _ & Hderive & _).
  destruct (Hderive sample_env 1%positive (ByContext (λ _, VNil)))
    as (l' & w' & Hrun & Hw' & _); [by eexists |].
  exists l', w'. split; [exact Hrun | exact Hw'].
Defined.

Lemma setters_witness :
  loggers sample_world !! 1%positive = Some text_logger ∧
  ∃ (l' p' : loc) (w1 w2 : World),
    derive sample_env 1%positive (ByField "job" (VString "sync")) sample_world
      = Returned l' w1 ∧
    apply_setter 1%positive (ToLevel ERROR) w1 = Returned tt w2 ∧
    level <$> (loggers w2 !! 1%positive) = Some ERROR ∧
    level <$> (loggers w2 !! l') = Some INFO.
Proof.
  split; [reflexivity |].
  destruct (setters_do_not_reach_derived_loggers sample_env 1%positive
              (ByField "job" (VString "sync")) (ToLevel ERROR) sample_world
              text_logger sample_text_logger)
    as (l' & p' & w1 & w2 & H1 & H2 & _ & Hl & Hl' & _).
  exists l', p', w1, w2. split; [exact H1 |]. split; [exact H2 |].
  split; [exact (f_equal (fmap level) Hl) | exact (f_equal (fmap level) Hl')].
Defined.

Lemma emissions_witness :
  loggers sample_world !! 1%positive = Some text_logger ∧
  output text_logger = Some Stdout ∧
  written (world_of
    (@log_all sample_lib 1%positive
       [ {| call_env := sample_env; call_level := DEBUG;
            call_msg := "probe"; call_args := [] |};
         {| call_env := sample_env; call_level := WARN;
            call_msg := "slow"; call_args := [] |};
         {| call_env := sample_env; call_level := INFO;
            call_msg := "done"; call_args := [] |} ]
       sample_world)) =
  [ (Stdout, "2024-01-02T03:04:05Z [WARN] slow" +:+ newline);
    (Stdout, "2024-01-02T03:04:05Z [INFO] done" +:+ newline) ].
Proof.
  split; [reflexivity |]. split; [reflexivity |].
  rewrite (@emissions_append_in_call_order sample_lib 1%positive _
             sample_world text_logger Stdout sample_text_logger eq_refl).
  vm_compute. reflexivity.
Defined.

(* ================================================================== *)
(** * Level names, the caller text and undeclared formats              *)
(* ================================================================== *)

(** The name [String] gives a declared level parses back to that
    level; every other level is named UNKNOWN, which parses to INFO. *)
Theorem level_names_parse_back `{GoLib} (lv : LogLevel) :
  (lv ∈ [DEBUG; INFO; WARN; ERROR; FATAL] →
     parseLogLevel (LogLevel_String lv) = lv) ∧
  (lv ∉ [DEBUG; INFO; WARN; ERROR; FATAL] →
     LogLevel_String lv = "UNKNOWN" ∧
     parseLogLevel (LogLevel_String lv) = INFO).
Proof.
  split.
  - rewrite !elem_of_cons, elem_of_nil.
    intros [->|[->|[->|[->|[->|[]]]]]]; reflexivity.
  - rewrite !not_elem_of_cons. unfold DEBUG, INFO, WARN, ERROR, FATAL.
    intros (H0 & H1 & H2 & H3 & H4 & _).
    assert (Hname : LogLevel_String lv = "UNKNOWN").
    { unfold LogLevel_String. repeat case_match; done. }
    rewrite Hname. split; reflexivity.
Qed.

Lemma level_names_witness :
  WARN ∈ [DEBUG; INFO; WARN; ERROR; FATAL] ∧
  (7 ∉ [DEBUG; INFO; WARN; ERROR; FATAL]) ∧
  @parseLogLevel sample_lib (LogLevel_String WARN) = WARN ∧
  @parseLogLevel sample_lib (LogLevel_String 7) = INFO.
Proof.
  assert (Hin : WARN ∈ [DEBUG; INFO; WARN; ERROR; FATAL]).
  { rewrite !elem_of_cons. right. right. by left. }
  assert (Hout : 7 ∉ [DEBUG; INFO; WARN; ERROR; FATAL]).
  { rewrite !not_elem_of_cons. repeat split; try (by cbv).
    apply not_elem_of_nil. }
  split; [exact Hin |]. split; [exact Hout |]. split.
  - apply (@level_names_parse_back sample_lib WARN). exact Hin.
  - apply (@level_names_parse_back sample_lib 7). exact Hout.
Defined.

Lemma slash_free_app (a b : string) :
  slash_free (a +:+ b) = slash_free a && slash_free b.
Proof.
  unfold slash_free. induction a as [|c a IH]; [done |].
  rewrite string_app_cons. cbn. by rewrite IH, andb_assoc.
Qed.

Lemma last_segment_spec (s : string) :
  ∀ acc, slash_free acc = true →
    slash_free (last_segment acc s) = true ∧
    ((slash_free s = true ∧ last_segment acc s = acc +:+ s) ∨
     ∃ dir, s = dir +:+ "/" +:+ last_segment acc s).
Proof.
  induction s as [|c s IH]; intros acc Hacc; cbn [last_segment].
  - split; [done |]. left. by rewrite string_app_nil_r.
  - destruct (Ascii.eqb c "/") eqn:Hc.
    + apply Ascii.eqb_eq in Hc as ->.
      destruct (IH "" eq_refl) as [Hfree [[_ Hr]|[dir Hdir]]].
      * split; [done |]. right. exists "". by rewrite Hr at 1.
      * split; [done |]. right. exists (String "/" dir).
        by rewrite Hdir at 1.
    + assert (Hacc' : slash_free (acc +:+ String c "") = true).
      { rewrite slash_free_app, Hacc. cbn. by rewrite Hc. }
      destruct (IH _ Hacc') as [Hfree [[Hs Hr]|[dir Hdir]]].
      * split; [done |]. left. split.
        -- unfold slash_free in *. cbn. by rewrite Hc.
        -- by rewrite Hr, string_app_assoc.
      * split; [done |]. right. exists (String c dir).
        by rewrite Hdir at 1.
Qed.

(** The caller text is the base name of the frame's file — the part
    after its last slash, the whole name when it has none — then a
    colon and the line in decimal; without a frame it is empty.  The
    frame asked for is 3 plus the caller skip. *)
Theorem caller_is_base_name_and_line (e : Env) (L : Logger) :
  (runtime_Caller e (int_add 3 (callerSkip L)) = None → getCaller e L = "") ∧
  (∀ file line,
     runtime_Caller e (int_add 3 (callerSkip L)) = Some (file, line) →
     ∃ base,
       getCaller e L = base +:+ ":" +:+ pretty line ∧
       slash_free base = true ∧
       (file = base ∨ ∃ dir, file = dir +:+ "/" +:+ base)) ∧
  (- 2 ^ 63 ≤ 3 + callerSkip L < 2 ^ 63 →
     int_add 3 (callerSkip L) = 3 + callerSkip L).
Proof.
  split; [| split].
  - intros Hc. unfold getCaller. by rewrite Hc.
  - intros file line Hc. unfold getCaller. rewrite Hc.
    exists (last_segment "" file). split; [done |].
    destruct (last_segment_spec file "" eq_refl) as [Hfree [[_ Hr]|Hdir]].
    + split; [done |]. left. by rewrite Hr.
    + split; [done |]. by right.
  - intros Hrange. unfold int_add.
    rewrite Z.mod_small by lia. lia.
Qed.

Lemma caller_text_witness :
  runtime_Caller sample_env (int_add 3 (callerSkip text_logger)) =
    Some ("/srv/app/main.go", 42) ∧
  ∃ base,
    getCaller sample_env text_logger = base +:+ ":" +:+ "42" ∧
    slash_free base = true.
Proof.
  split; [reflexivity |].
  destruct (caller_is_base_name_and_line sample_env text_logger)
    as (_ & Hbase & _).
  destruct (Hbase "/srv/app/main.go" 42 eq_refl) as (base & Hget & Hfree & _).
  exists base. split; [exact Hget | exact Hfree].
Defined.

(** After [SetFormat] with a value that is neither declared format,
    an emission that passes the threshold writes the message and a
    newline, and nothing of the timestamp, the level, the caller or
    the fields. *)
Theorem undeclared_format_writes_message_only `{GoLib} (e : Env) (l : loc)
    (fmt : LogFormat) (lv : LogLevel) (msg : string) (args : list Value)
    (w : World) (L : Logger) (o : Writer) :
  loggers w !! l = Some L →
  output L = Some o →
  level L ≤ lv →
  fmt ≠ TextFormat →
  fmt ≠ JSONFormat →
  ∃ w',
    (SetFormat l fmt;; log e l lv msg args) w = Returned tt w' ∧
    written w' =
      written w ++
      [(o, (if (0 <? List.length args)%nat then fmt_Sprintf msg args else msg)
           +:+ newline)].
Proof.
  intros Hl Ho Hle Ht Hj. eexists. split.
  - erewrite bind_Returned;
      last by apply (apply_setter_spec l (ToFormat fmt) w L).
    apply (log_written _ _ _ _ _ _ (with_format fmt L) o); [| done | done].
    cbn. apply lookup_insert_eq.
  - cbn. f_equal. f_equal. f_equal. unfold line_of, formatEntry. cbn [format with_format].
    apply Z.eqb_neq in Ht, Hj. rewrite Ht, Hj. f_equal.
    unfold entry_of, build_entry. by repeat case_match.
Qed.

Lemma undeclared_format_witness :
  loggers sample_world !! 1%positive = Some text_logger ∧
  output text_logger = Some Stdout ∧
  level text_logger ≤ ERROR ∧
  7 ≠ TextFormat ∧ 7 ≠ JSONFormat ∧
  ∃ w',
    (SetFormat 1%positive 7;;
     @log sample_lib sample_env 1%positive ERROR "disk full" []) sample_world
      = Returned tt w' ∧
    written w' = [(Stdout, "disk full" +:+ newline)].
Proof.
  assert (Hle : level text_logger ≤ ERROR) by (by cbv).
  assert (Ht : 7 ≠ TextFormat) by (by cbv).
  assert (Hj : 7 ≠ JSONFormat) by (by cbv).
  split; [reflexivity |]. split; [reflexivity |]. split; [exact Hle |].
  split; [exact Ht |]. split; [exact Hj |].
  exact (@undeclared_format_writes_message_only sample_lib sample_env
           1%positive 7 ERROR "disk full" [] sample_world text_logger Stdout
           sample_text_logger eq_refl Hle Ht Hj).
Defined.

(* ================================================================== *)
(** * Every field shows in a rendered entry                            *)
(* ================================================================== *)

Lemma strings_Join_contains (xs : list string) (sep x : string) :
  x ∈ xs → strings_Contains (strings_Join xs sep) x = true.
Proof.
  induction xs as [|y xs IH]; intros Hx; [by apply elem_of_nil in Hx |].
  apply elem_of_cons in Hx as [->|Hx].
  - destruct xs; cbn [strings_Join];
      [apply strings_Contains_refl | apply strings_Contains_start].
  - destruct xs as [|z xs]; [by apply elem_of_nil in Hx |].
    change (strings_Join (y :: z :: xs) sep)
      with (y +:+ sep +:+ strings_Join (z :: xs) sep).
    do 2 apply strings_Contains_skip. by apply IH.
Qed.

Lemma json_members_member (kvs : list (string * Value)) (js : list string)
    (k : string) (v : Value) :
  json_members kvs = Some js → (k, v) ∈ kvs →
  ∃ jv, json_value v = Some jv ∧ (json_string k +:+ ":" +:+ jv) ∈ js.
Proof.
  revert js. induction kvs as [|[k0 v0] kvs IH]; intros js Hjs Hin;
    [by apply elem_of_nil in Hin |].
  cbn [json_members] in Hjs.
  destruct (json_value v0) as [jv0|] eqn:Hv0; [| done].
  destruct (json_members kvs) as [js0|] eqn:Hm; [| done].
  injection Hjs as <-.
  apply elem_of_cons in Hin as [[= -> ->]|Hin].
  - exists jv0. split; [done | apply elem_of_cons; by left].
  - destruct (IH js0 eq_refl Hin) as (jv & Hv & Hmem).
    exists jv. split; [done | apply elem_of_cons; by right].
Qed.

(** Every field of an entry shows in its text line as [key=value],
    whatever order the fields are visited in; and when [json.Marshal]
    succeeds, every field shows in the JSON line as its quoted key, a
    colon and its encoded value. *)
Theorem every_field_is_rendered (e : Env) (entry : LogEntry) (k : string)
    (v : Value) :
  Fields entry !! k = Some v →
  strings_Contains (formatEntry e TextFormat entry) (k +:+ "=" +:+ fmt_v v)
    = true ∧
  (∀ data, json_Marshal entry = Some data →
     formatEntry e JSONFormat entry = data ∧
     ∃ jv, json_value v = Some jv ∧
           strings_Contains data (json_string k +:+ ":" +:+ jv) = true).
Proof.
  intros Hk.
  assert (Hne : Fields entry ≠ ∅).
  { intros He. by rewrite He in Hk. }
  split.
  - change (formatEntry e TextFormat entry) with (formatText e entry).
    rewrite formatText_text_line. unfold text_line.
    rewrite (decide_False (P := Fields entry = ∅)) by done.
    do 7 apply strings_Contains_skip.
    eapply strings_Contains_trans; [apply strings_Contains_mid |].
    apply strings_Join_contains.
    apply (list_elem_of_fmap_2 (λ kv, kv.1 +:+ "=" +:+ fmt_v kv.2) _ (k, v)).
    by rewrite range_perm, elem_of_map_to_list.
  - intros data Hdata. split.
    { unfold formatEntry. cbn. by rewrite Hdata. }
    unfold json_Marshal, json_map in Hdata. cbn zeta in Hdata.
    rewrite decide_False in Hdata
      by (by rewrite map_size_empty_iff).
    destruct (json_members _) as [js|] eqn:Hm; [| done].
    destruct (json_members_member _ js k v Hm) as (jv & Hv & Hin).
    { by rewrite merge_sort_Permutation, elem_of_map_to_list. }
    exists jv. split; [done |]. injection Hdata as <-.
    do 5 apply strings_Contains_skip.
    eapply strings_Contains_trans; [apply strings_Contains_start |].
    eapply strings_Contains_trans; [apply strings_Contains_mid |].
    by apply strings_Join_contains.
Qed.

Lemma every_field_witness :
  let entry :=
    {| Timestamp := "2024-01-02T03:04:05Z"; Level := "INFO";
       Message := "paid"; Caller := "";
       Fields := <["order" := VInt 17]> {["user" := VString "ann"]} |} in
  Fields entry !! "order" = Some (VInt 17) ∧
  strings_Contains (formatEntry sample_env TextFormat entry) "order=17"
    = true.
Proof.
  intros entry. split; [reflexivity |].
  exact (proj1 (every_field_is_rendered sample_env entry "order" (VInt 17)
                  eq_refl)).
Defined.

(* ================================================================== *)
(** * The context carrier and the middleware, further                  *)
(* ================================================================== *)

(** [WithContext] touches two keys at most: "request_id" and
    "user_id" take the carrier's value where it has one, and keep what
    the receiver had where the carrier has none; every other field of
    the derived logger is the receiver's. *)
Theorem WithContext_sets_two_keys (e : Env) (l : loc) (ctx : string → Value)
    (w : World) (L : Logger) :
  loggers w !! l = Some L →
  ∃ l' L' w',
    WithContext e l ctx w = Returned l' w' ∧
    loggers w' !! l' = Some L' ∧
    (∀ k, k ≠ "request_id" → k ≠ "user_id" →
       content w' L' !! k = content w L !! k) ∧
    content w' L' !! "request_id" =
      (if decide (ctx "request_id" = VNil)
       then content w L !! "request_id" else Some (ctx "request_id")) ∧
    content w' L' !! "user_id" =
      (if decide (ctx "user_id" = VNil)
       then content w L !! "user_id" else Some (ctx "user_id")).
Proof.
  intros Hl. do 3 eexists.
  split; [apply (derive_spec e l (ByContext ctx) w L Hl) |].
  split; [apply derived_world_new |].
  rewrite derived_world_content. cbn [extend]. unfold context_fields.
  split; [| split].
  - intros k Hk1 Hk2. repeat case_decide; by rewrite ?lookup_insert_ne by done.
  - repeat case_decide; try done; by simplify_map_eq.
  - repeat case_decide; try done; by simplify_map_eq.
Qed.

Lemma WithContext_witness :
  loggers sample_world !! 2%positive = Some json_logger ∧
  ∃ l' L' w',
    WithContext sample_env 2%positive
      (λ k, if String.eqb k "request_id" then VString "r-7" else VNil)
      sample_world = Returned l' w' ∧
    loggers w' !! l' = Some L' ∧
    content w' L' !! "ratio" = Some VNaN ∧
    content w' L' !! "request_id" = Some (VString "r-7") ∧
    content w' L' !! "user_id" = None.
Proof.
  split; [reflexivity |].
  destruct (WithContext_sets_two_keys sample_env 2%positive
              (λ k, if String.eqb k "request_id" then VString "r-7" else VNil)
              sample_world json_logger sample_json_logger)
    as (l' & L' & w' & Hrun & Hl' & Hother & Hreq & Huser).
  exists l', L', w'. split; [exact Hrun |]. split; [exact Hl' |].
  split; [| split].
  - rewrite (Hother "ratio") by discriminate. reflexivity.
  - exact Hreq.
  - exact Huser.
Defined.

Section MiddlewareFurther.
Context `{GoLib}.

(** The middleware only observes: around a handler that returns, the
    inner response writer receives exactly the handler's calls, in
    order, whatever the threshold; the logger it was made from is left
    as it was; and under a threshold above INFO the handler still runs
    and nothing is written. *)
Theorem middleware_only_observes (e : Env) (l : loc) (next : Handler)
    (rw : positive) (r : Request) (w : World) (L : Logger) (o : Writer)
    (calls : list RWCall) :
  loggers w !! l = Some L →
  output L = Some o →
  next r = (calls, Returns) →
  ∃ w',
    HTTPLogMiddleware e l next rw r w = Returned tt w' ∧
    served w' = served w ++ ((rw,.) <$> calls) ∧
    loggers w' !! l = Some L ∧
    (∀ p m, maps w !! p = Some m → maps w' !! p = Some m) ∧
    (INFO < level L → written w' = written w).
Proof.
  intros Hl Ho Hnext. unfold HTTPLogMiddleware.
  erewrite bind_Returned; last done.
  erewrite bind_Returned; last first.
  { eapply ServeHTTP_returns; [done |]. cbn. apply lookup_insert_eq. }
  erewrite bind_Returned; last first.
  { unfold get_wrapper. cbn. by rewrite lookup_insert_eq. }
  cbn [statusCode ResponseWriter].
  set (w2 := set_served _ _).
  erewrite bind_Returned; last first.
  { apply (derive_spec e l (ByFields _) w2 L). done. }
  unfold Info.
  set (w3 := derived_world w2 L _).
  assert (Hl3 : loggers w3 !! l = Some L)
    by (by apply derived_world_old_logger).
  assert (Hm3 : ∀ p m, maps w !! p = Some m → maps w3 !! p = Some m).
  { intros p m Hp. by apply derived_world_old_map. }
  destruct (decide (level L ≤ INFO)) as [Hle|Hgt].
  - eexists. split.
    { eapply (log_written _ _ _ _ _ _ (copy_of L _) o); [| done | done].
      apply derived_world_new. }
    split; [done |]. split; [done |]. split; [done |]. lia.
  - exists w3. split.
    { eapply (log_dropped _ _ _ _ _ _ (copy_of L _)).
      - apply derived_world_new.
      - cbn. lia. }
    done.
Qed.

(** The middleware has no recovery: when the handler panics, the
    panic goes on to the caller, the handler's calls up to it have
    reached the inner writer, and no record is written. *)
Theorem middleware_passes_panic_on (e : Env) (l : loc) (next : Handler)
    (rw : positive) (r : Request) (w : World) (calls : list RWCall) :
  next r = (calls, Panics) →
  ∃ w',
    HTTPLogMiddleware e l next rw r w = Panicked w' ∧
    written w' = written w ∧
    served w' = served w ++ ((rw,.) <$> calls) ∧
    loggers w' = loggers w ∧
    maps w' = maps w.
Proof.
  intros Hnext. unfold HTTPLogMiddleware.
  erewrite bind_Returned; last done.
  unfold ServeHTTP. rewrite Hnext.
  unfold mbind at 1. unfold Go_bind.
  unfold mbind at 1. unfold Go_bind.
  erewrite for_each_wrapper_call; last by (cbn; apply lookup_insert_eq).
  eexists. split; [done |]. done.
Qed.
End MiddlewareFurther.

Lemma middleware_observes_witness :
  loggers sample_world !! 2%positive = Some json_logger ∧
  output json_logger = Some (Sink 1) ∧
  not_found sample_request =
    ([CallWriteHeader 404; CallWrite "no such page"], Returns) ∧
  ∃ w',
    @HTTPLogMiddleware sample_lib sample_env 2%positive not_found 9%positive
      sample_request sample_world = Returned tt w' ∧
    served w' =
      [(9%positive, CallWriteHeader 404);
       (9%positive, CallWrite "no such page")].
Proof.
  split; [reflexivity |]. split; [reflexivity |]. split; [reflexivity |].
  destruct (@middleware_only_observes sample_lib sample_env 2%positive
              not_found 9%positive sample_request sample_world json_logger
              (Sink 1) _ sample_json_logger eq_refl eq_refl)
    as (w' & Hrun & Hserved & _).
  exists w'. split; [exact Hrun | exact Hserved].
Defined.

Lemma middleware_panic_witness :
  crashing sample_request = ([CallWrite "partial"], Panics) ∧
  ∃ w',
    @HTTPLogMiddleware sample_lib sample_env 1%positive crashing 9%positive
      sample_request sample_world = Panicked w' ∧
    written w' = [] ∧
    served w' = [(9%positive, CallWrite "partial")].
Proof.
  split; [reflexivity |].
  destruct (@middleware_passes_panic_on sample_lib sample_env 1%positive
              crashing 9%positive sample_request sample_world _ eq_refl)
    as (w' & Hrun & Hw & Hs & _).
  exists w'. split; [exact Hrun |]. split; [exact Hw | exact Hs].
Defined.

(* ================================================================== *)
(** * A JSON line is one line                                          *)
(* ================================================================== *)

Lemma no_control_app (a b : string) :
  no_control (a +:+ b) = no_control a && no_control b.
Proof.
  unfold no_control. induction a as [|c a IH]; [done |].
  rewrite string_app_cons. cbn. by rewrite IH, andb_assoc.
Qed.

Lemma json_byte_no_control (c : ascii) : no_control (json_byte c) = true.
Proof. by destruct c as [[] [] [] [] [] [] [] []]. Qed.

Lemma high_byte_no_control (c : ascii) :
  below_RuneSelf c = false → (0x20 <=? byte_code c) = true.
Proof. unfold below_RuneSelf. lia. Qed.

(** A rune that decodes to more than one byte is followed by its
    continuation bytes, all ≥ 0x80. *)
Lemma utf8_DecodeRune_continuation (p0 : Z) (rest : string) (r : Z)
    (size : nat) :
  utf8_DecodeRune p0 rest = (r, size) →
  ((r =? RuneError) && (size =? 1)%nat) = false →
  leading_high (size - 1) rest = true.
Proof.
  unfold utf8_DecodeRune.
  assert (Htable : ∀ sz lo hi, utf8_first p0 = (sz, lo, hi) →
            sz = 1 ∨ 0x80 ≤ lo).
  { unfold utf8_first. intros sz lo hi.
    repeat case_match; intros [= <- <- <-]; lia. }
  destruct (utf8_first p0) as [[sz lo] hi] eqn:Hfirst.
  destruct (Htable sz lo hi eq_refl) as [->|Hlo]; cbn zeta.
  { intros [= <- <-]. done. }
  destruct (sz =? 1); [by intros [= <- <-] |].
  unfold byte_at.
  destruct rest as [|c1 rest]; cbn; [by intros [= <- <-] |].
  destruct ((lo <=? byte_code c1) && (byte_code c1 <=? hi)) eqn:H1; cbn;
    [| by intros [= <- <-]].
  assert (Hc1 : (0x80 <=? byte_code c1) = true) by lia.
  destruct (sz =? 2); [intros [= <- <-] _; cbn; by rewrite Hc1 |].
  destruct rest as [|c2 rest]; cbn; [by intros [= <- <-] |].
  destruct ((128 <=? byte_code c2) && (byte_code c2 <=? 191)) eqn:H2; cbn;
    [| by intros [= <- <-]].
  assert (Hc2 : (0x80 <=? byte_code c2) = true) by lia.
  destruct (sz =? 3); [intros [= <- <-] _; cbn; by rewrite Hc1, Hc2 |].
  destruct rest as [|c3 rest]; cbn; [by intros [= <- <-] |].
  destruct ((128 <=? byte_code c3) && (byte_code c3 <=? 191)) eqn:H3; cbn;
    [| by intros [= <- <-]].
  assert (Hc3 : (0x80 <=? byte_code c3) = true) by lia.
  intros [= <- <-] _. cbn. by rewrite Hc1, Hc2, Hc3.
Qed.

Lemma separator_escape_no_control (r : Z) :
  no_control
    (String backslash ("u202" +:+ String (hex_digit (Z.land r 0xF)) ""))
  = true.
Proof.
  assert (Hn : 0 ≤ Z.land r 0xF < 16).
  { change 15 with (Z.ones 4). rewrite Z.land_ones by lia.
    apply Z.mod_pos_bound. lia. }
  generalize dependent (Z.land r 0xF). intros n Hn.
  assert (n = 0 ∨ n = 1 ∨ n = 2 ∨ n = 3 ∨ n = 4 ∨ n = 5 ∨ n = 6 ∨ n = 7 ∨
          n = 8 ∨ n = 9 ∨ n = 10 ∨ n = 11 ∨ n = 12 ∨ n = 13 ∨ n = 14 ∨
          n = 15) as Hcases by lia.
  repeat (destruct Hcases as [->|Hcases]; [done |]). by subst.
Qed.

Lemma json_escape_from_no_control (s : string) :
  ∀ (pending : nat) (drop : bool),
    drop = true ∨ leading_high pending s = true →
    no_control (json_escape_from pending drop s) = true.
Proof.
  induction s as [|c s IH]; intros pending drop Hok; [done |].
  cbn [json_escape_from]. destruct pending as [|k].
  - destruct (below_RuneSelf c) eqn:Hc.
    + rewrite no_control_app, json_byte_no_control. cbn.
      apply IH. by right.
    + destruct (utf8_DecodeRune (byte_code c) s) as [r size] eqn:Hd.
      destruct ((r =? RuneError) && (size =? 1)%nat) eqn:Hbad.
      * rewrite no_control_app. apply andb_true_iff. split; [done |].
        apply IH. by right.
      * destruct ((r =? 0x2028) || (r =? 0x2029)) eqn:Hsep.
        -- rewrite no_control_app, separator_escape_no_control.
           apply IH. by left.
        -- unfold no_control. cbn [string_forallb].
           rewrite (high_byte_no_control c Hc). cbn.
           apply IH. right. by eapply utf8_DecodeRune_continuation.
  - destruct Hok as [->|Hhigh].
    + rewrite string_app_nil_l. apply IH. by left.
    + cbn in Hhigh. apply andb_true_iff in Hhigh as [Hc Hrest].
      destruct drop.
      * rewrite string_app_nil_l. apply IH. by left.
      * rewrite string_app_cons, string_app_nil_l.
        unfold no_control. cbn [string_forallb].
        assert (H20 : (0x20 <=? byte_code c) = true) by lia.
        rewrite H20. cbn. apply IH. by right.
Qed.

Lemma json_string_no_control (s : string) : no_control (json_string s) = true.
Proof.
  unfold json_string.
  change (String dquote (json_escape s +:+ String dquote ""))
    with (String dquote "" +:+ json_escape s +:+ String dquote "").
  rewrite !no_control_app. unfold json_escape.
  rewrite json_escape_from_no_control by (by right). done.
Qed.

Lemma pretty_N_go_no_control (x : N) :
  ∀ s, no_control s = true → no_control (pretty_N_go x s) = true.
Proof.
  induction (N.lt_wf_0 x) as [x _ IH]. intros s Hs.
  destruct (decide (x = 0)%N) as [->|Hx]; [by rewrite pretty_N_go_0 |].
  rewrite pretty_N_go_step by lia.
  apply IH; [apply N.div_lt; lia |].
  unfold no_control in *. cbn [string_forallb]. rewrite Hs.
  unfold pretty_N_char. by repeat case_match.
Qed.

Lemma pretty_Z_no_control (n : Z) : no_control (pretty n) = true.
Proof.
  assert (HN : ∀ x : N, no_control (pretty x) = true).
  { intros x. unfold pretty, pretty_N. case_decide; [done |].
    by apply pretty_N_go_no_control. }
  destruct n as [|p|p]; [done | apply (HN (N.pos p)) |].
  change (pretty (Z.neg p)) with ("-" +:+ pretty (N.pos p)).
  by rewrite no_control_app, HN.
Qed.

Lemma json_value_no_control (v : Value) (jv : string) :
  json_value v = Some jv → no_control jv = true.
Proof.
  destruct v as [|[]|n|s|]; intros [= <-]; try done.
  - apply pretty_Z_no_control.
  - apply json_string_no_control.
Qed.

Lemma strings_Join_no_control (xs : list string) (sep : string) :
  no_control sep = true →
  Forall (λ x, no_control x = true) xs →
  no_control (strings_Join xs sep) = true.
Proof.
  intros Hsep. induction 1 as [|x xs Hx Hxs IH]; [done |].
  destruct xs as [|y xs]; [done |].
  change (strings_Join (x :: y :: xs) sep)
    with (x +:+ sep +:+ strings_Join (y :: xs) sep).
  by rewrite !no_control_app, Hx, Hsep, IH.
Qed.

Lemma json_members_no_control (kvs : list (string * Value)) :
  ∀ js, json_members kvs = Some js → Forall (λ x, no_control x = true) js.
Proof.
  induction kvs as [|[k v] kvs IH]; intros js; cbn [json_members].
  - by intros [= <-].
  - destruct (json_value v) as [jv|] eqn:Hv; [| done].
    destruct (json_members kvs) as [js0|]; [| done].
    intros [= <-]. constructor; [| by apply IH].
    rewrite !no_control_app, json_string_no_control.
    by rewrite (json_value_no_control v jv Hv).
Qed.

Lemma no_control_no_newline (s : string) :
  no_control s = true → strings_Contains s newline = false.
Proof.
  unfold no_control. induction s as [|c s IH]; [done |].
  cbn [string_forallb]. intros [Hc Hs]%andb_true_iff.
  cbn [strings_Contains]. rewrite (IH Hs), orb_false_r.
  change (String.prefix newline (String c s))
    with (if ascii_dec "010" c then String.prefix "" s else false).
  destruct (ascii_dec "010" c) as [<-|]; [by vm_compute in Hc | done].
Qed.

(** What [json.Marshal] yields for an entry holds no control byte,
    whatever the message, the caller and the fields hold: a JSON
    record never spans lines. *)
Theorem json_rendering_is_one_line (entry : LogEntry) (data : string) :
  json_Marshal entry = Some data →
  no_control data = true ∧ strings_Contains data newline = false.
Proof.
  intros Hdata.
  assert (Hnc : no_control data = true); [| by auto using no_control_no_newline].
  unfold json_Marshal in Hdata. cbn zeta in Hdata.
  assert (Hhead : ∀ k, no_control (json_key k) = true).
  { intros k. unfold json_key.
    by rewrite no_control_app, json_string_no_control. }
  assert (Hcaller : no_control
    (if String.eqb (Caller entry) "" then ""
     else "," +:+ json_key "caller" +:+ json_string (Caller entry)) = true).
  { destruct (String.eqb (Caller entry) ""); [done |].
    by rewrite !no_control_app, Hhead, json_string_no_control. }
  case_decide.
  - injection Hdata as <-.
    by rewrite !no_control_app, !Hhead, !json_string_no_control, Hcaller.
  - unfold json_map in Hdata.
    destruct (json_members _) as [js|] eqn:Hm; [| done].
    injection Hdata as <-.
    rewrite !no_control_app, !Hhead, !json_string_no_control, Hcaller.
    rewrite strings_Join_no_control; [done | done |].
    by eapply json_members_no_control.
Qed.

Lemma json_one_line_witness :
  let entry :=
    {| Timestamp := "2024-01-02T03:04:05Z"; Level := "INFO";
       Message := "first" +:+ newline +:+ "second"; Caller := "";
       Fields := {["note" := VString (String "009"%char "tabbed")]} |} in
  is_Some (json_Marshal entry) ∧
  strings_Contains (formatEntry sample_env JSONFormat entry) newline = false ∧
  strings_Contains (formatEntry sample_env TextFormat entry) newline = true.
Proof.
  intros entry.
  destruct (json_Marshal entry) as [data|] eqn:Hdata; [| by vm_compute in Hdata].
  split; [by eexists |]. split; [| vm_compute; reflexivity].
  destruct (json_rendering_is_one_line entry data Hdata) as [_ Hnl].
  unfold formatEntry. cbn. rewrite Hdata. exact Hnl.
Defined.

(* ================================================================== *)
(** * Indexing and slicing                                             *)
(* ================================================================== *)

Lemma substring_nothing (n : nat) (s : string) : String.substring n 0 s = "".
Proof. revert n. induction s as [|c s IH]; intros [|n]; cbn; auto. Qed.

Lemma substring_app (s : string) :
  ∀ a m k : nat,
    String.substring a m s +:+ String.substring (a + m) k s =
    String.substring a (m + k) s.
Proof.
  induction s as [|c s IH]; intros a m k.
  - by destruct a, m, k.
  - destruct a as [|a]; cbn [Nat.add String.substring].
    + destruct m as [|m]; [done |].
      cbn [Nat.add String.substring]. rewrite string_app_cons. f_equal.
      apply (IH 0%nat).
    + apply IH.
Qed.

Lemma substring_all (s : string) : String.substring 0 (String.length s) s = s.
Proof. induction s as [|c s IH]; [done |]. cbn. by rewrite IH. Qed.

Lemma length_substring (s : string) :
  ∀ a m : nat,
    (a + m ≤ String.length s)%nat →
    String.length (String.substring a m s) = m.
Proof.
  induction s as [|c s IH]; intros a m Hle; cbn in Hle.
  - assert (a = 0 ∧ m = 0)%nat as [-> ->] by lia. done.
  - destruct a as [|a]; cbn [String.substring].
    + destruct m as [|m]; [done |]. cbn. f_equal. apply IH. lia.
    + apply IH. lia.
Qed.

Lemma len_nonneg (s : string) : 0 ≤ len s.
Proof. unfold len. lia. Qed.

Lemma len_empty (s : string) : len s = 0 ↔ s = "".
Proof. unfold len. destruct s; cbn; split; (done || lia). Qed.

Lemma len_app (a b : string) : len (a +:+ b) = len a + len b.
Proof.
  unfold len. induction a as [|c a IH];
    [rewrite string_app_nil_l; cbn; lia |].
  rewrite string_app_cons. cbn [String.length]. lia.
Qed.

Lemma slice_app (s : string) (a b c : Z) :
  0 ≤ a ≤ b → b ≤ c → slice s a b +:+ slice s b c = slice s a c.
Proof.
  intros Hab Hbc. unfold slice.
  replace (Z.to_nat b) with (Z.to_nat a + Z.to_nat (b - a))%nat by lia.
  replace (Z.to_nat (c - a))
    with (Z.to_nat (b - a) + Z.to_nat (c - b))%nat by lia.
  apply substring_app.
Qed.

Lemma slice_all (s : string) : slice s 0 (len s) = s.
Proof.
  unfold slice, len. rewrite Z.sub_0_r, Nat2Z.id. apply substring_all.
Qed.

Lemma slice_nothing (s : string) (a : Z) : slice s a a = "".
Proof. unfold slice. rewrite Z.sub_diag. apply substring_nothing. Qed.

Lemma len_slice (s : string) (a b : Z) :
  0 ≤ a ≤ b → b ≤ len s → len (slice s a b) = b - a.
Proof.
  intros Hab Hb. unfold slice, len in *.
  rewrite length_substring by lia. lia.
Qed.

Lemma at_index_slice (s : string) (a b i : Z) :
  0 ≤ a → 0 ≤ i < b - a → at_index (slice s a b) i = at_index s (a + i).
Proof.
  intros Ha Hi. unfold at_index, slice.
  rewrite substring_correct1 by lia. f_equal. lia.
Qed.

Lemma blank_at_slice (s : string) (a b i : Z) :
  0 ≤ a → 0 ≤ i < b - a → blank_at (slice s a b) i = blank_at s (a + i).
Proof. intros Ha Hi. unfold blank_at. by rewrite at_index_slice. Qed.

Lemma string_forallb_get (P : ascii → bool) (t : string) :
  (∀ n c, String.get n t = Some c → P c = true) → string_forallb P t = true.
Proof.
  induction t as [|c t IH]; intros Hall; [done |]. cbn.
  rewrite (Hall 0%nat c eq_refl). cbn. apply IH.
  intros n c' Hn. by apply (Hall (S n)).
Qed.

Lemma string_forallb_app (P : ascii → bool) (a b : string) :
  string_forallb P (a +:+ b) = string_forallb P a && string_forallb P b.
Proof.
  induction a as [|c a IH]; [done |].
  rewrite string_app_cons. cbn. by rewrite IH, andb_assoc.
Qed.

Lemma all_blank_slice (s : string) (a b : Z) :
  0 ≤ a ≤ b →
  (∀ j, a ≤ j < b → blank_at s j = true) →
  all_blank (slice s a b) = true.
Proof.
  intros Hab Hall. apply string_forallb_get. intros n c Hn.
  unfold slice in Hn.
  destruct (decide (n < Z.to_nat (b - a))%nat) as [Hlt|Hge].
  - rewrite substring_correct1 in Hn by done.
    specialize (Hall (a + Z.of_nat n) ltac:(lia)).
    unfold blank_at, at_index in Hall.
    replace (Z.to_nat (a + Z.of_nat n)) with (n + Z.to_nat a)%nat in Hall
      by lia.
    by rewrite Hn in Hall.
  - rewrite substring_correct2 in Hn by lia. done.
Qed.

(* ================================================================== *)
(** * [trimSpace]                                                       *)
(* ================================================================== *)

Lemma trim_leading_spec (s : string) (end_ : Z) :
  ∀ (fuel : nat) (start : Z),
    start ≤ end_ → end_ - start ≤ Z.of_nat fuel →
    let a := trim_leading fuel s start end_ in
    start ≤ a ≤ end_ ∧
    (∀ j, start ≤ j < a → blank_at s j = true) ∧
    (a < end_ → blank_at s a = false).
Proof.
  induction fuel as [|fuel IH]; intros start Hle Hfuel; cbn [trim_leading].
  - split; [lia |]. split; intros; lia.
  - destruct ((start <? end_) && blank_at s start) eqn:Hc.
    + apply andb_true_iff in Hc as [Hlt Hb].
      destruct (IH (start + 1) ltac:(lia) ltac:(lia)) as (Ha & Hall & Hstop).
      split; [lia |]. split; [| done].
      intros j Hj. destruct (decide (j = start)) as [->|]; [done |].
      apply Hall. lia.
    + split; [lia |]. split; [intros; lia |].
      intros Hlt. apply andb_false_iff in Hc as [Hc|Hc]; [lia | done].
Qed.

Lemma trim_trailing_spec (s : string) (start : Z) :
  ∀ (fuel : nat) (end_ : Z),
    start ≤ end_ → end_ - start ≤ Z.of_nat fuel →
    let b := trim_trailing fuel s start end_ in
    start ≤ b ≤ end_ ∧
    (∀ j, b ≤ j < end_ → blank_at s j = true) ∧
    (start < b → blank_at s (b - 1) = false).
Proof.
  induction fuel as [|fuel IH]; intros end_ Hle Hfuel; cbn [trim_trailing].
  - split; [lia |]. split; intros; lia.
  - destruct ((end_ >? start) && blank_at s (end_ - 1)) eqn:Hc.
    + apply andb_true_iff in Hc as [Hgt Hb].
      destruct (IH (end_ - 1) ltac:(lia) ltac:(lia)) as (Ha & Hall & Hstop).
      split; [lia |]. split; [| done].
      intros j Hj. destruct (decide (j = end_ - 1)) as [->|]; [done |].
      apply Hall. lia.
    + split; [lia |]. split; [intros; lia |].
      intros Hlt. apply andb_false_iff in Hc as [Hc|Hc]; [lia | done].
Qed.

(** Text that is empty, or starts and ends with a byte that is not
    blank, is left as it is. *)
Lemma trimSpace_clean (t : string) :
  t = "" ∨ (blank_at t 0 = false ∧ blank_at t (len t - 1) = false) →
  trimSpace t = t.
Proof.
  intros [->|[Hfirst Hlast]]; [done |].
  destruct t as [|c t]; [done |].
  unfold trimSpace. cbn zeta. cbn [String.length trim_leading].
  rewrite Hfirst, andb_false_r. cbn [trim_trailing].
  change (len (String c t)) with (len (String c t)).
  rewrite Hlast, andb_false_r. apply slice_all.
Qed.

(** The text is a blank lead, the trimmed text and a blank trail, and
    a trimmed text that is not empty starts and ends with a byte that
    is not blank. *)
Lemma trimSpace_parts (s : string) :
  (∃ lead trail,
     s = lead +:+ trimSpace s +:+ trail ∧
     all_blank lead = true ∧ all_blank trail = true) ∧
  (trimSpace s ≠ "" →
     blank_at (trimSpace s) 0 = false ∧
     blank_at (trimSpace s) (len (trimSpace s) - 1) = false).
Proof.
  set (a := trim_leading (String.length s) s 0 (len s)).
  set (b := trim_trailing (String.length s) s a (len s)).
  assert (Ht : trimSpace s = slice s a b) by done.
  destruct (trim_leading_spec s (len s) (String.length s) 0
              (len_nonneg s) ltac:(unfold len; lia)) as (Ha & Hlead & Hstop).
  fold a in Ha, Hlead, Hstop.
  destruct (trim_trailing_spec s a (String.length s) (len s)
              ltac:(lia) ltac:(unfold len; lia)) as (Hb & Htrail & Hstop').
  fold b in Hb, Htrail, Hstop'.
  split.
  - exists (slice s 0 a), (slice s b (len s)). split; [| split].
    + rewrite Ht, (slice_app s a b (len s)), (slice_app s 0 a (len s))
        by lia. by rewrite slice_all.
    + apply all_blank_slice; [lia | done].
    + apply all_blank_slice; [lia | done].
  - intros Hne. rewrite Ht in Hne |- *.
    assert (Hab : a < b).
    { destruct (decide (a < b)); [done |]. exfalso. apply Hne.
      replace b with a by lia. apply slice_nothing. }
    rewrite len_slice by lia.
    rewrite !blank_at_slice by lia.
    rewrite Z.add_0_r. replace (a + (b - a - 1)) with (b - 1) by lia.
    split; [apply Hstop; lia | apply Hstop'; lia].
Qed.

Lemma trimSpace_idempotent (s : string) :
  trimSpace (trimSpace s) = trimSpace s.
Proof.
  apply trimSpace_clean.
  destruct (decide (trimSpace s = "")); [by left |].
  right. by apply trimSpace_parts.
Qed.

(** [trimSpace] takes blank bytes off both ends and nothing else: the
    text is a blank lead, the result and a blank trail; a result that
    is not empty starts and ends with a byte that is not blank;
    trimming twice is trimming once; and an all-blank text gives the
    empty text. *)
Theorem trimSpace_strips_blank_ends (s : string) :
  (∃ lead trail,
     s = lead +:+ trimSpace s +:+ trail ∧
     all_blank lead = true ∧ all_blank trail = true) ∧
  (trimSpace s ≠ "" →
     blank_at (trimSpace s) 0 = false ∧
     blank_at (trimSpace s) (len (trimSpace s) - 1) = false) ∧
  trimSpace (trimSpace s) = trimSpace s ∧
  (all_blank s = true → trimSpace s = "").
Proof.
  destruct (trimSpace_parts s) as [Hdec Hends].
  split; [done |]. split; [done |].
  split; [apply trimSpace_idempotent |].
  intros Hblank.
  destruct (decide (trimSpace s = "")) as [|Hne]; [done |].
  destruct (Hends Hne) as [Hfirst _].
  destruct Hdec as (lead & trail & Hs & _ & _).
  rewrite Hs in Hblank. unfold all_blank in Hblank.
  rewrite !string_forallb_app in Hblank.
  apply andb_true_iff in Hblank as [_ [Hmid _]%andb_true_iff].
  destruct (trimSpace s) as [|c t]; [done |].
  change (blank_at (String c t) 0) with (is_blank c) in Hfirst.
  cbn [string_forallb] in Hmid.
  apply andb_true_iff in Hmid as [Hc _]. congruence.
Qed.

Lemma trimSpace_witness :
  trimSpace "  origin.example  " ≠ "" ∧
  all_blank "   " = true ∧
  trimSpace "  origin.example  " = "origin.example" ∧
  trimSpace "   " = "".
Proof.
  destruct (trimSpace_strips_blank_ends "   ") as (_ & _ & _ & Hblank).
  destruct (trimSpace_strips_blank_ends "  origin.example  ")
    as (_ & Hends & _ & _).
  assert (Hne : trimSpace "  origin.example  " ≠ "") by discriminate.
  destruct (Hends Hne) as [_ _].
  split; [exact Hne |]. split; [reflexivity |].
  split; [reflexivity | exact (Hblank eq_refl)].
Defined.

(* ================================================================== *)
(** * [splitString]                                                     *)
(* ================================================================== *)

Lemma glue_snoc (sep : string) (result : list string) (p : string) :
  glue sep (result ++ [p]) = glue sep result +:+ p +:+ sep.
Proof.
  induction result as [|q result IH]; cbn [app glue foldr].
  - by rewrite string_app_nil_r.
  - fold (glue sep (result ++ [p])). fold (glue sep result).
    by rewrite IH, !string_app_assoc.
Qed.

Lemma strings_Join_snoc (sep : string) (result : list string) (x : string) :
  strings_Join (result ++ [x]) sep = glue sep result +:+ x.
Proof.
  induction result as [|q result IH]; [done |].
  cbn [app glue foldr]. fold (glue sep result).
  destruct result as [|q' result].
  - cbn. by rewrite !string_app_assoc, string_app_nil_l.
  - change (strings_Join (q :: (q' :: result) ++ [x]) sep)
      with (q +:+ sep +:+ strings_Join ((q' :: result) ++ [x]) sep).
    by rewrite IH, !string_app_assoc.
Qed.

Lemma slice_slice (s : string) (a b c d : Z) :
  0 ≤ a → 0 ≤ c ≤ d → a + d ≤ b →
  slice (slice s a b) c d = slice s (a + c) (a + d).
Proof.
  intros Ha Hcd Hb. unfold slice. apply get_correct. intros p.
  destruct (decide (p < Z.to_nat (d - c))%nat) as [Hp|Hp].
  - rewrite !substring_correct1 by lia. f_equal. lia.
  - rewrite !substring_correct2 by lia. done.
Qed.

Lemma prefix_length (a t : string) :
  String.prefix a t = true → (String.length a ≤ String.length t)%nat.
Proof.
  revert a. induction t as [|c t IH]; intros [|x a]; cbn; try (done || lia).
  destruct (ascii_dec x c); [| done]. intros Hp. apply IH in Hp. lia.
Qed.

(** A text that contains the separator has it at some index. *)
Lemma strings_Contains_at (t sep : string) :
  strings_Contains t sep = true →
  ∃ j, 0 ≤ j ∧ j + len sep ≤ len t ∧ slice t j (j + len sep) = sep.
Proof.
  induction t as [|c t IH]; cbn [strings_Contains].
  - rewrite orb_false_r. intros Hp. exists 0.
    pose proof (prefix_length _ _ Hp) as Hlen.
    apply prefix_correct in Hp. unfold slice, len.
    split; [lia |]. split; [lia |].
    by rewrite Z.add_0_l, Z.sub_0_r, Nat2Z.id.
  - intros [Hp|Ht]%orb_true_iff.
    + exists 0. pose proof (prefix_length _ _ Hp) as Hlen.
      apply prefix_correct in Hp. unfold slice, len.
      split; [lia |]. split; [lia |].
      by rewrite Z.add_0_l, Z.sub_0_r, Nat2Z.id.
    + destruct (IH Ht) as (j & Hj & Hle & Hs). exists (j + 1).
      split; [lia |]. split.
      * unfold len in *. cbn [String.length]. lia.
      * unfold slice in *.
        replace (Z.to_nat (j + 1)) with (S (Z.to_nat j)) by lia.
        replace (j + 1 + len sep - (j + 1)) with (j + len sep - j) by lia.
        done.
Qed.

Section Split.
Variables (s sep : string).
Hypothesis sep_nonempty : sep ≠ "".

Lemma len_sep_pos : 1 ≤ len sep.
Proof.
  pose proof (len_nonneg sep). pose proof (len_empty sep).
  destruct (decide (len sep = 0)); [tauto | lia].
Qed.

(** With a separator that is not empty the loop ends within
    [len(s) - i + 1] iterations, and the pieces it yields, joined by
    the separator, are the text. *)
Lemma split_loop_joins :
  ∀ (fuel : nat) (i start : Z) (result : list string),
    0 ≤ start ≤ i → i ≤ len s →
    len s - i < Z.of_nat fuel →
    glue sep result = slice s 0 start →
    ∃ pieces,
      split_loop fuel s sep i start result = Some pieces ∧
      strings_Join pieces sep = s ∧ pieces ≠ [].
Proof.
  pose proof len_sep_pos as Hsep.
  induction fuel as [|fuel IH]; intros i start result Hi Hlen Hfuel Hglue;
    [lia |].
  cbn [split_loop]. destruct (i <? len s) eqn:Hlt.
  - destruct ((i + len sep <=? len s)
              && String.eqb (slice s i (i + len sep)) sep) eqn:Hm; cbn zeta.
    + apply andb_true_iff in Hm as [Hfit Heq]. apply String.eqb_eq in Heq.
      apply IH; [lia | lia | lia |].
      rewrite glue_snoc, Hglue.
      rewrite <- (slice_app s 0 start (i + len sep)) by lia.
      rewrite <- (slice_app s start i (i + len sep)) by lia.
      by rewrite Heq.
    + apply IH; [lia | lia | lia | done].
  - eexists. split; [done |]. split.
    + rewrite strings_Join_snoc, Hglue.
      rewrite (slice_app s 0 start (len s)) by lia. apply slice_all.
    + by destruct result.
Qed.

(** No piece the loop yields contains the separator. *)
Lemma split_loop_sep_free :
  ∀ (fuel : nat) (i start : Z) (result pieces : list string),
    0 ≤ start ≤ i → i ≤ len s →
    (∀ j, start ≤ j < i →
       ¬ (j + len sep ≤ len s ∧ slice s j (j + len sep) = sep)) →
    Forall (λ p, sep_free sep p = true) result →
    split_loop fuel s sep i start result = Some pieces →
    Forall (λ p, sep_free sep p = true) pieces.
Proof.
  pose proof len_sep_pos as Hsep.
  assert (Hpiece : ∀ start i, 0 ≤ start ≤ i → i ≤ len s →
    (∀ j, start ≤ j < i →
       ¬ (j + len sep ≤ len s ∧ slice s j (j + len sep) = sep)) →
    sep_free sep (slice s start i) = true).
  { intros start i Hi Hlen Hno. unfold sep_free.
    destruct (strings_Contains (slice s start i) sep) eqn:Hc; [| done].
    exfalso. apply strings_Contains_at in Hc as (j & Hj & Hfit & Hocc).
    rewrite len_slice in Hfit by lia.
    rewrite slice_slice in Hocc by lia.
    apply (Hno (start + j)); [lia |]. split; [lia |].
    by rewrite <- Z.add_assoc. }
  induction fuel as [|fuel IH]; intros i start result pieces Hi Hlen Hno Hres;
    [done |].
  cbn [split_loop]. destruct (i <? len s) eqn:Hlt.
  - destruct ((i + len sep <=? len s)
              && String.eqb (slice s i (i + len sep)) sep) eqn:Hm; cbn zeta.
    + apply andb_true_iff in Hm as [Hfit Heq].
      apply IH; [lia | lia | intros; lia |].
      apply Forall_app. split; [done |]. constructor; [| done].
      by apply Hpiece.
    + apply IH; [lia | lia | | done].
      intros j Hj. destruct (decide (j = i)) as [->|]; [| apply Hno; lia].
      intros [Hfit Heq]. apply andb_false_iff in Hm as [Hm|Hm]; [lia |].
      apply String.eqb_neq in Hm. done.
  - intros [= <-]. apply Forall_app. split; [done |]. constructor; [| done].
    apply Hpiece; [lia | lia |]. intros j Hj. apply Hno. lia.
Qed.
End Split.

Lemma splitString_returns (fuel : nat) (s sep : string) :
  sep ≠ "" → s ≠ "" →
  (String.length s < fuel)%nat →
  ∃ pieces,
    splitString fuel s sep = Some pieces ∧
    strings_Join pieces sep = s ∧
    Forall (λ p, sep_free sep p = true) pieces ∧
    pieces ≠ [].
Proof.
  intros Hsep Hs Hfuel. unfold splitString.
  apply String.eqb_neq in Hs as ->.
  destruct (split_loop_joins s sep Hsep fuel 0 0 [])
    as (pieces & Hrun & Hjoin & Hne);
    [lia | apply len_nonneg | unfold len; lia | by rewrite slice_nothing |].
  exists pieces. split; [done |]. split; [done |]. split; [| done].
  eapply (split_loop_sep_free s sep Hsep fuel 0 0 []);
    [lia | apply len_nonneg | intros; lia | done | done].
Qed.

(** [splitString] with a separator that is not empty returns within
    [len(s) + 1] iterations of its loop; the pieces, joined by the
    separator, give the text back; no piece contains the separator;
    and there is no piece exactly when the text is empty. *)
Theorem splitString_pieces_rejoin (fuel : nat) (s sep : string) :
  sep ≠ "" →
  (String.length s < fuel)%nat →
  ∃ pieces,
    splitString fuel s sep = Some pieces ∧
    strings_Join pieces sep = s ∧
    Forall (λ p, sep_free sep p = true) pieces ∧
    (pieces = [] ↔ s = "").
Proof.
  intros Hsep Hfuel. destruct (decide (s = "")) as [->|Hs].
  - by exists [].
  - destruct (splitString_returns fuel s sep Hsep Hs Hfuel)
      as (pieces & Hrun & Hjoin & Hfree & Hne).
    exists pieces. split; [done |]. split; [done |]. split; [done |].
    by split.
Qed.

Lemma split_loop_empty_separator (s : string) :
  0 < len s →
  ∀ (fuel : nat) (start : Z) (result : list string),
    split_loop fuel s "" 0 start result = None.
Proof.
  intros Hlen. induction fuel as [|fuel IH]; intros start result; [done |].
  cbn [split_loop]. change (len "") with 0.
  rewrite Z.add_0_r, slice_nothing.
  replace (0 <? len s) with true by lia.
  replace (0 <=? len s) with true by lia. cbn. apply IH.
Qed.

(** With the empty separator [splitString] never returns on a text
    that is not empty: every iteration finds the separator at index 0
    and leaves the index there. *)
Theorem splitString_empty_separator_never_returns (fuel : nat) (s : string) :
  s ≠ "" → splitString fuel s "" = None.
Proof.
  intros Hs. unfold splitString.
  apply String.eqb_neq in Hs as Hs'. rewrite Hs'.
  apply split_loop_empty_separator.
  pose proof (len_nonneg s). pose proof (len_empty s).
  destruct (decide (len s = 0)); [tauto | lia].
Qed.

Lemma splitString_witness :
  "," ≠ "" ∧ (String.length "a,b,,c" < 7)%nat ∧
  splitString 7 "a,b,,c" "," = Some ["a"; "b"; ""; "c"] ∧
  ∃ pieces,
    splitString 7 "a,b,,c" "," = Some pieces ∧
    strings_Join pieces "," = "a,b,,c" ∧
    Forall (λ p, sep_free "," p = true) pieces ∧
    (pieces = [] ↔ "a,b,,c" = "").
Proof.
  assert (Hsep : "," ≠ "") by discriminate.
  assert (Hfuel : (String.length "a,b,,c" < 7)%nat) by (cbn; lia).
  split; [exact Hsep |]. split; [exact Hfuel |]. split; [reflexivity |].
  exact (splitString_pieces_rejoin 7 "a,b,,c" "," Hsep Hfuel).
Defined.

Lemma splitString_empty_separator_witness :
  "ab" ≠ "" ∧ splitString 1000 "ab" "" = None.
Proof.
  assert (Hne : "ab" ≠ "") by discriminate.
  split; [exact Hne |].
  exact (splitString_empty_separator_never_returns 1000 "ab" Hne).
Defined.

(* ================================================================== *)
(** * Splitting what was joined, and [getEnvAsSlice]                   *)
(* ================================================================== *)

Lemma strings_Contains_byte (c : ascii) (p : string) :
  strings_Contains p (String c "") = negb (byte_free c p).
Proof.
  unfold byte_free. induction p as [|b p IH]; [done |].
  cbn [strings_Contains string_forallb]. rewrite IH.
  change (String.prefix (String c "") (String b p))
    with (if ascii_dec c b then String.prefix "" p else false).
  destruct (ascii_dec c b) as [->|Hne].
  - rewrite Ascii.eqb_refl. by destruct p.
  - assert (Hb : Ascii.eqb b c = false) by (apply Ascii.eqb_neq; congruence).
    by rewrite Hb.
Qed.

Lemma strings_Join_cons (x : string) (xs : list string) (sep : string) :
  strings_Join (x :: xs) sep =
  x +:+ (if xs is [] then "" else sep +:+ strings_Join xs sep).
Proof. destruct xs; [by rewrite string_app_nil_r | done]. Qed.

(** Two texts without the byte [c], each followed by nothing or by
    [c] and more, are equal when the whole texts are. *)
Lemma byte_free_split_unique (c : ascii) (x : string) :
  ∀ (y r1 r2 : string),
    byte_free c x = true → byte_free c y = true →
    (r1 = "" ∨ ∃ r, r1 = String c r) →
    (r2 = "" ∨ ∃ r, r2 = String c r) →
    x +:+ r1 = y +:+ r2 → x = y ∧ r1 = r2.
Proof.
  unfold byte_free.
  induction x as [|a x IH]; intros y r1 r2 Hx Hy H1 H2 Heq.
  - rewrite string_app_nil_l in Heq. destruct y as [|b y]; [done |].
    rewrite string_app_cons in Heq. cbn in Hy.
    apply andb_true_iff in Hy as [Hb _].
    destruct H1 as [->|[r ->]]; [done |]. injection Heq as <- _.
    by rewrite Ascii.eqb_refl in Hb.
  - rewrite string_app_cons in Heq. cbn in Hx.
    apply andb_true_iff in Hx as [Ha Hx].
    destruct y as [|b y].
    + rewrite string_app_nil_l in Heq.
      destruct H2 as [->|[r ->]]; [done |]. injection Heq as -> _.
      by rewrite Ascii.eqb_refl in Ha.
    + rewrite string_app_cons in Heq. injection Heq as -> Heq.
      cbn in Hy. apply andb_true_iff in Hy as [_ Hy].
      destruct (IH y r1 r2 Hx Hy H1 H2 Heq) as [-> ->]. done.
Qed.

Lemma strings_Join_unique (c : ascii) (xs : list string) :
  ∀ ys,
    xs ≠ [] → ys ≠ [] →
    Forall (λ x, byte_free c x = true) xs →
    Forall (λ y, byte_free c y = true) ys →
    strings_Join xs (String c "") = strings_Join ys (String c "") →
    xs = ys.
Proof.
  induction xs as [|x xs IH]; intros ys Hxs Hys Hfx Hfy Heq; [done |].
  destruct ys as [|y ys]; [done |].
  rewrite !strings_Join_cons in Heq.
  apply Forall_cons in Hfx as [Hx Hfx]. apply Forall_cons in Hfy as [Hy Hfy].
  apply (byte_free_split_unique c) in Heq as [-> Hrest]; [| done | done | |].
  - f_equal. destruct xs as [|x' xs], ys as [|y' ys]; try done.
    apply IH; [done | done | done | done |]. by injection Hrest.
  - destruct xs; [by left | right; by eexists].
  - destruct ys; [by left | right; by eexists].
Qed.

Lemma splitString_undoes_parts (fuel : nat) (c : ascii) (xs : list string) :
  xs ≠ [] →
  Forall (λ x, byte_free c x = true) xs →
  strings_Join xs (String c "") ≠ "" →
  (String.length (strings_Join xs (String c "")) < fuel)%nat →
  splitString fuel (strings_Join xs (String c "")) (String c "") = Some xs.
Proof.
  intros Hxs Hfree Hne Hfuel.
  destruct (splitString_returns fuel _ (String c "")
              ltac:(discriminate) Hne Hfuel)
    as (pieces & Hrun & Hjoin & Hsep & Hnil).
  rewrite Hrun. f_equal.
  apply (strings_Join_unique c); [done | done | | done | done].
  eapply Forall_impl; [exact Hsep |]. intros p Hp. cbn beta in Hp.
  unfold sep_free in Hp. rewrite strings_Contains_byte in Hp.
  by destruct (byte_free c p).
Qed.

(** For a one-byte separator, [splitString] undoes [strings.Join] on
    pieces that do not hold that byte — except that the joined text
    must not be empty: from the empty text it yields no piece at all,
    so the one-piece list of the empty text does not come back. *)
Theorem splitString_undoes_Join (fuel : nat) (c : ascii) (xs : list string) :
  (xs ≠ [] →
   Forall (λ x, byte_free c x = true) xs →
   strings_Join xs (String c "") ≠ "" →
   (String.length (strings_Join xs (String c "")) < fuel)%nat →
   splitString fuel (strings_Join xs (String c "")) (String c "") = Some xs) ∧
  splitString fuel (strings_Join [""] (String c "")) (String c "") = Some [].
Proof. split; [apply splitString_undoes_parts | done]. Qed.

Lemma splitString_undoes_witness :
  ["GET"; "POST"; ""] ≠ [] ∧
  Forall (λ x, byte_free "," x = true) ["GET"; "POST"; ""] ∧
  strings_Join ["GET"; "POST"; ""] "," ≠ "" ∧
  (String.length (strings_Join ["GET"; "POST"; ""] ",") < 10)%nat ∧
  splitString 10 "GET,POST," "," = Some ["GET"; "POST"; ""].
Proof.
  assert (Hfree : Forall (λ x, byte_free "," x = true) ["GET"; "POST"; ""])
    by (repeat constructor).
  assert (Hfuel :
    (String.length (strings_Join ["GET"; "POST"; ""] ",") < 10)%nat)
    by (apply Nat.ltb_lt; reflexivity).
  split; [discriminate |]. split; [exact Hfree |].
  split; [discriminate |]. split; [exact Hfuel |].
  exact (proj1 (splitString_undoes_Join 10 "," ["GET"; "POST"; ""])
           ltac:(discriminate) Hfree ltac:(discriminate) Hfuel).
Defined.

Lemma foldl_keep_nonempty (items acc : list string) :
  foldl (λ result item,
           if negb (String.eqb item "") then result ++ [item] else result)
        acc items
  = acc ++ filter (λ x, x ≠ "") items.
Proof.
  revert acc. induction items as [|x items IH]; intros acc; cbn [foldl].
  - by rewrite app_nil_r.
  - rewrite IH. destruct (String.eqb x "") eqn:Hx; cbn [negb].
    + apply String.eqb_eq in Hx as ->. by rewrite filter_cons_False by auto.
    + apply String.eqb_neq in Hx.
      by rewrite filter_cons_True, <- app_assoc by done.
Qed.

Lemma splitAndTrim_spec (fuel : nat) (s sep : string) :
  splitAndTrim fuel s sep =
  (λ items : list string, trimSpace <$> items) <$> splitString fuel s sep.
Proof.
  unfold splitAndTrim. destruct (splitString fuel s sep) as [items|]; [| done].
  cbn. f_equal. apply (foldl_snoc_fmap trimSpace items []).
Qed.

Lemma getEnvAsSlice_spec (env : gmap string string) (key : string)
    (d : list string) :
  getEnvAsSlice env key d =
  let value := os_Getenv env key in
  if decide (value = "") then Some d
  else
    items ← splitString (S (String.length value)) value ",";
    let result := filter (λ x, x ≠ "") (trimSpace <$> items) in
    Some (if decide (result = []) then d else result).
Proof.
  unfold getEnvAsSlice. cbn zeta.
  destruct (String.eqb (os_Getenv env key) "") eqn:Hv; cbn [negb].
  - apply String.eqb_eq in Hv. by rewrite decide_True.
  - apply String.eqb_neq in Hv. rewrite decide_False by done.
    rewrite splitAndTrim_spec.
    destruct (splitString _ _ _) as [items|]; [| done]. cbn.
    rewrite foldl_keep_nonempty. cbn [app].
    by destruct (filter _ _).
Qed.

Lemma byte_free_trimSpace (c : ascii) (p : string) :
  byte_free c p = true → byte_free c (trimSpace p) = true.
Proof.
  intros Hp.
  destruct (trimSpace_parts p) as [(lead & trail & Hs & _) _].
  rewrite Hs in Hp. unfold byte_free in *.
  rewrite !string_forallb_app in Hp.
  by apply andb_true_iff in Hp as [_ [Hmid _]%andb_true_iff].
Qed.

Lemma getEnvAsSlice_result (env : gmap string string) (key : string)
    (d : list string) :
  ∃ r,
    getEnvAsSlice env key d = Some r ∧
    (r = d ∨ (r ≠ [] ∧ Forall clean_item r)).
Proof.
  rewrite getEnvAsSlice_spec. cbn zeta.
  case_decide as Hv; [exists d; by split; [| left] |].
  destruct (splitString_returns (S (String.length (os_Getenv env key)))
              (os_Getenv env key) "," ltac:(discriminate) Hv ltac:(lia))
    as (pieces & Hrun & _ & Hfree & _).
  rewrite Hrun. cbn. eexists. split; [done |].
  case_decide as Hr; [by left |]. right. split; [done |].
  apply Forall_forall. intros x Hx.
  apply list_elem_of_filter in Hx as [Hne Hx].
  apply list_elem_of_fmap in Hx as (p & -> & Hp).
  split; [done |]. split; [| apply trimSpace_idempotent].
  apply byte_free_trimSpace.
  rewrite Forall_forall in Hfree. specialize (Hfree p Hp). cbn beta in Hfree.
  unfold sep_free in Hfree. rewrite strings_Contains_byte in Hfree.
  by destruct (byte_free "," p).
Qed.

(** [getEnvAsSlice] always returns.  It yields either the default or
    a list that is not empty, whose items are not empty, hold no comma
    and have no blank at either end; the default when the variable is
    unset or empty.  So the result is empty only if the default is. *)
Theorem getEnvAsSlice_yields_clean_items (env : gmap string string)
    (key : string) (d : list string) :
  ∃ r,
    getEnvAsSlice env key d = Some r ∧
    (r = d ∨ (r ≠ [] ∧ Forall clean_item r)) ∧
    (os_Getenv env key = "" → r = d) ∧
    (d ≠ [] → r ≠ []).
Proof.
  destruct (getEnvAsSlice_result env key d) as (r & Hrun & Hr).
  exists r. split; [done |]. split; [done |]. split.
  - intros Hv. rewrite getEnvAsSlice_spec in Hrun. cbn zeta in Hrun.
    rewrite decide_True in Hrun by done. congruence.
  - intros Hd. by destruct Hr as [->|[Hne _]].
Qed.

Lemma strings_Join_nonempty (x : string) (xs : list string) (sep : string) :
  x ≠ "" → strings_Join (x :: xs) sep ≠ "".
Proof.
  intros Hx. rewrite strings_Join_cons. destruct x; [done |].
  by rewrite string_app_cons.
Qed.

Lemma fmap_fixed {A} (f : A → A) (l : list A) :
  Forall (λ y, f y = y) l → f <$> l = l.
Proof. induction 1 as [|y l Hy _ IH]; [done |]. cbn. by rewrite Hy, IH. Qed.

Lemma filter_keeps_all {A} (P : A → Prop) `{∀ x, Decision (P x)}
    (l : list A) :
  Forall P l → filter P l = l.
Proof.
  induction 1 as [|y l Hy _ IH]; [done |].
  by rewrite filter_cons_True, IH.
Qed.

(** [getEnvAsSlice] reads back a list written with commas: when the
    variable holds the comma-joined text of items that are not empty,
    hold no comma and have no blank at either end, it yields exactly
    those items. *)
Theorem getEnvAsSlice_reads_joined_items (env : gmap string string)
    (key : string) (d xs : list string) :
  xs ≠ [] →
  Forall clean_item xs →
  env !! key = Some (strings_Join xs ",") →
  getEnvAsSlice env key d = Some xs.
Proof.
  intros Hxs Hclean Henv. rewrite getEnvAsSlice_spec. cbn zeta.
  unfold os_Getenv. rewrite Henv. cbn [default id].
  destruct xs as [|x xs]; [done |].
  apply Forall_cons in Hclean as Hboth. destruct Hboth as [(Hx & _ & _) _].
  pose proof (strings_Join_nonempty x xs "," Hx) as Hne.
  rewrite decide_False by done.
  rewrite (splitString_undoes_parts _ "," (x :: xs)); [| done | | done | lia].
  - cbn [mbind option_bind].
    rewrite (fmap_fixed trimSpace (x :: xs)).
    + rewrite filter_keeps_all; [done |].
      eapply Forall_impl; [exact Hclean |]. by intros y (Hy & _ & _).
    + eapply Forall_impl; [exact Hclean |]. by intros y (_ & _ & Hy).
  - eapply Forall_impl; [exact Hclean |]. by intros y (_ & Hy & _).
Qed.

Lemma getEnvAsSlice_witness :
  ["http://a.example"; "http://b.example"] ≠ [] ∧
  Forall clean_item ["http://a.example"; "http://b.example"] ∧
  ({["CORS_ALLOWED_ORIGINS" := "http://a.example,http://b.example"]}
     : gmap string string) !! "CORS_ALLOWED_ORIGINS"
    = Some (strings_Join ["http://a.example"; "http://b.example"] ",") ∧
  getEnvAsSlice {["CORS_ALLOWED_ORIGINS" := "http://a.example,http://b.example"]}
    "CORS_ALLOWED_ORIGINS" ["*"]
    = Some ["http://a.example"; "http://b.example"].
Proof.
  assert (Hclean : Forall clean_item ["http://a.example"; "http://b.example"]).
  { repeat constructor; discriminate. }
  split; [discriminate |]. split; [exact Hclean |]. split; [reflexivity |].
  apply (getEnvAsSlice_reads_joined_items
           {["CORS_ALLOWED_ORIGINS" := "http://a.example,http://b.example"]}
           "CORS_ALLOWED_ORIGINS" ["*"]
           ["http://a.example"; "http://b.example"]);
    [discriminate | exact Hclean | reflexivity].
Defined.

Lemma getEnvAsSlice_clean_witness :
  ∃ r,
    getEnvAsSlice {["K" := " a , ,b,"]} "K" ["*"] = Some r ∧
    (r = ["*"] ∨ (r ≠ [] ∧ Forall clean_item r)) ∧
    (os_Getenv {["K" := " a , ,b,"]} "K" = "" → r = ["*"]) ∧
    (["*"] ≠ [] → r ≠ []).
Proof.
  exact (getEnvAsSlice_yields_clean_items {["K" := " a , ,b,"]} "K" ["*"]).
Defined.

(* ================================================================== *)
(** * [getEnvAsInt] and [strconv.Atoi]                                 *)
(* ================================================================== *)

Lemma digits_from_app (a b : string) :
  ∀ acc, digits_from acc (a +:+ b) = digits_from acc a ≫= λ v, digits_from v b.
Proof.
  induction a as [|c a IH]; intros acc; [done |].
  rewrite string_app_cons. cbn [digits_from]. cbn zeta.
  destruct (_ && _); [apply IH | done].
Qed.

Lemma pretty_N_go_app (x : N) :
  ∀ s, pretty_N_go x s = pretty_N_go x "" +:+ s.
Proof.
  induction (N.lt_wf_0 x) as [x _ IH]; intros s.
  destruct (decide (x = 0)%N) as [->|Hx]; [by rewrite !pretty_N_go_0 |].
  rewrite !(pretty_N_go_step x) by lia.
  rewrite (IH (x `div` 10)%N) by (apply N.div_lt; lia).
  rewrite (IH (x `div` 10)%N ltac:(apply N.div_lt; lia) (String _ "")).
  by rewrite string_app_assoc.
Qed.

Lemma pretty_N_char_code (d : N) :
  (d < 10)%N → byte_code (pretty_N_char d) - 48 = Z.of_N d.
Proof.
  intros Hd.
  assert (d = 0 ∨ d = 1 ∨ d = 2 ∨ d = 3 ∨ d = 4 ∨ d = 5 ∨ d = 6 ∨ d = 7
          ∨ d = 8 ∨ d = 9)%N as Hcases by lia.
  by destruct Hcases as [->|[->|[->|[->|[->|[->|[->|[->|[->| ->]]]]]]]]].
Qed.

Lemma digits_from_pretty_N_go (x : N) :
  digits_from 0 (pretty_N_go x "") = Some (Z.of_N x).
Proof.
  induction (N.lt_wf_0 x) as [x _ IH].
  destruct (decide (x = 0)%N) as [->|Hx]; [done |].
  rewrite pretty_N_go_step by lia. rewrite pretty_N_go_app.
  rewrite digits_from_app, IH by (apply N.div_lt; lia).
  cbn [mbind option_bind digits_from]. cbn zeta.
  pose proof (N.mod_lt x 10 ltac:(done)) as Hlt.
  rewrite pretty_N_char_code by done.
  pose proof (N.div_mod x 10 ltac:(done)) as Hdm.
  clear IH. set (m := (x `mod` 10)%N) in *. set (q := (x `div` 10)%N) in *.
  clearbody q m.
  replace ((0 <=? Z.of_N m) && (Z.of_N m <=? 9)) with true by lia.
  f_equal. lia.
Qed.

Lemma pretty_N_go_nonempty (x : N) : (0 < x)%N → pretty_N_go x "" ≠ "".
Proof.
  intros Hx. rewrite pretty_N_go_step by done. rewrite pretty_N_go_app.
  by apply string_app_nonempty.
Qed.

Lemma digits_from_no_sign (acc v : Z) (c : ascii) (rest : string) :
  digits_from acc (String c rest) = Some v →
  Ascii.eqb c "-" = false ∧ Ascii.eqb c "+" = false.
Proof.
  intros Hrun. cbn [digits_from] in Hrun. cbn zeta in Hrun.
  split.
  - destruct (Ascii.eqb c "-") eqn:Hc; [| done].
    apply Ascii.eqb_eq in Hc as ->. by vm_compute in Hrun.
  - destruct (Ascii.eqb c "+") eqn:Hc; [| done].
    apply Ascii.eqb_eq in Hc as ->. by vm_compute in Hrun.
Qed.

Lemma strconv_Atoi_digits (s : string) (v : Z) :
  s ≠ "" → digits_from 0 s = Some v → v < 2 ^ 63 → 0 ≤ v →
  strconv_Atoi s = Some v.
Proof.
  intros Hs Hrun Hhi Hlo. unfold strconv_Atoi.
  destruct s as [|c rest]; [done |].
  destruct (digits_from_no_sign _ _ _ _ Hrun) as [-> ->].
  apply String.eqb_neq in Hs as ->. rewrite Hrun.
  replace ((- 2 ^ 63 <=? v) && (v <? 2 ^ 63)) with true by lia. done.
Qed.

Lemma strconv_Atoi_minus (s : string) (v : Z) :
  s ≠ "" → digits_from 0 s = Some v → - 2 ^ 63 ≤ - v → 0 ≤ v →
  strconv_Atoi (String "-" s) = Some (- v).
Proof.
  intros Hs Hrun Hlo Hpos. unfold strconv_Atoi.
  change (Ascii.eqb "-" "-") with true. cbn match.
  apply String.eqb_neq in Hs as ->. rewrite Hrun.
  replace ((- 2 ^ 63 <=? - v) && (- v <? 2 ^ 63)) with true by lia. done.
Qed.

Lemma strconv_Atoi_pretty (n : Z) :
  - 2 ^ 63 ≤ n < 2 ^ 63 → strconv_Atoi (pretty n) = Some n.
Proof.
  intros [Hlo Hhi]. destruct n as [|p|p].
  - done.
  - change (pretty (Z.pos p)) with (pretty_N_go (N.pos p) "").
    apply strconv_Atoi_digits; [by apply pretty_N_go_nonempty | | done | lia].
    apply (digits_from_pretty_N_go (N.pos p)).
  - change (pretty (Z.neg p)) with (String "-" (pretty_N_go (N.pos p) "")).
    change (Z.neg p) with (- Z.pos p).
    apply strconv_Atoi_minus; [by apply pretty_N_go_nonempty | | lia | lia].
    apply (digits_from_pretty_N_go (N.pos p)).
Qed.

Lemma pretty_Z_nonempty (n : Z) : pretty n ≠ "".
Proof.
  destruct n as [|p|p]; [done | | done].
  change (pretty (Z.pos p)) with (pretty_N_go (N.pos p) "").
  by apply pretty_N_go_nonempty.
Qed.

(** [getEnvAsInt] reads back every [int]: when the variable holds the
    decimal numeral of a number from [-2^63] up to [2^63 - 1], that
    number is the result, whatever the default. *)
Theorem getEnvAsInt_reads_decimal (env : gmap string string) (key : string)
    (d n : Z) :
  - 2 ^ 63 ≤ n < 2 ^ 63 →
  env !! key = Some (pretty n) →
  getEnvAsInt env key d = n.
Proof.
  intros Hn Henv. unfold getEnvAsInt, os_Getenv. rewrite Henv.
  cbn [default id]. cbn zeta.
  pose proof (pretty_Z_nonempty n) as Hne.
  apply String.eqb_neq in Hne as ->. cbn [negb].
  by rewrite strconv_Atoi_pretty.
Qed.

Lemma digits_from_all_digits (s : string) :
  ∀ acc v, digits_from acc s = Some v → string_forallb is_digit s = true.
Proof.
  induction s as [|c s IH]; intros acc v Hrun; [done |].
  cbn [digits_from] in Hrun. cbn zeta in Hrun.
  destruct (_ && _) eqn:Hd in Hrun; [| done].
  cbn [string_forallb]. rewrite (IH _ _ Hrun), andb_true_r.
  unfold is_digit. lia.
Qed.

Lemma digits_are_numeral_bytes (s : string) :
  string_forallb is_digit s = true → string_forallb numeral_byte s = true.
Proof.
  induction s as [|c s IH]; [done |]. cbn [string_forallb].
  intros [Hc Hs]%andb_true_iff. rewrite (IH Hs), andb_true_r.
  unfold numeral_byte. by rewrite Hc.
Qed.

Lemma strconv_Atoi_numeral (s : string) (n : Z) :
  strconv_Atoi s = Some n → string_forallb numeral_byte s = true.
Proof.
  unfold strconv_Atoi. destruct s as [|c rest]; [done |].
  destruct (Ascii.eqb c "-") eqn:Hminus; [| destruct (Ascii.eqb c "+") eqn:Hplus].
  - destruct (String.eqb rest ""); [done |].
    destruct (digits_from 0 rest) as [v|] eqn:Hrun; [| done]. intros _.
    cbn [string_forallb]. unfold numeral_byte at 1.
    rewrite Hminus, orb_true_r. cbn [orb andb].
    eauto using digits_are_numeral_bytes, digits_from_all_digits.
  - destruct (String.eqb rest ""); [done |].
    destruct (digits_from 0 rest) as [v|] eqn:Hrun; [| done]. intros _.
    cbn [string_forallb]. unfold numeral_byte at 1.
    rewrite Hplus, orb_true_r. cbn [andb].
    eauto using digits_are_numeral_bytes, digits_from_all_digits.
  - destruct (String.eqb (String c rest) ""); [done |].
    destruct (digits_from 0 (String c rest)) as [v|] eqn:Hrun; [| done].
    intros _.
    eauto using digits_are_numeral_bytes, digits_from_all_digits.
Qed.

(** [getEnvAsInt] does not trim: a value with any byte that is neither
    a decimal digit nor a sign, a blank included, gives the default. *)
Theorem getEnvAsInt_rejects_other_bytes (env : gmap string string)
    (key : string) (d : Z) :
  string_forallb numeral_byte (os_Getenv env key) = false →
  getEnvAsInt env key d = d.
Proof.
  intros Hbad. unfold getEnvAsInt. cbn zeta.
  destruct (negb _); [| done].
  destruct (strconv_Atoi (os_Getenv env key)) as [n|] eqn:Hrun; [| done].
  apply strconv_Atoi_numeral in Hrun. congruence.
Qed.

Lemma getEnvAsInt_witness :
  - 2 ^ 63 ≤ -9223372036854775808 < 2 ^ 63 ∧
  ({["REDIS_DB" := "-9223372036854775808"]} : gmap string string) !! "REDIS_DB"
    = Some (pretty (-9223372036854775808)) ∧
  getEnvAsInt {["REDIS_DB" := "-9223372036854775808"]} "REDIS_DB" 0
    = -9223372036854775808.
Proof.
  split; [lia |]. split; [reflexivity |].
  apply (getEnvAsInt_reads_decimal
           {["REDIS_DB" := "-9223372036854775808"]} "REDIS_DB" 0
           (-9223372036854775808)); [lia | reflexivity].
Defined.

Lemma getEnvAsInt_rejects_witness :
  string_forallb numeral_byte
    (os_Getenv {["RATE_LIMIT_REQUESTS" := " 250"]} "RATE_LIMIT_REQUESTS")
    = false ∧
  getEnvAsInt {["RATE_LIMIT_REQUESTS" := " 250"]} "RATE_LIMIT_REQUESTS" 100
    = 100.
Proof.
  split; [reflexivity |].
  apply (getEnvAsInt_rejects_other_bytes
           {["RATE_LIMIT_REQUESTS" := " 250"]} "RATE_LIMIT_REQUESTS" 100).
  reflexivity.
Defined.

(* ================================================================== *)
(** * [Load] and the mode predicates                                   *)
(* ================================================================== *)

Lemma getEnv_nonempty (env : gmap string string) (key d : string) :
  d ≠ "" → getEnv env key d ≠ "".
Proof.
  intros Hd. unfold getEnv. cbn zeta.
  destruct (String.eqb (os_Getenv env key) "") eqn:Hv; [done |].
  by apply String.eqb_neq in Hv.
Qed.

Lemma getEnvAsSlice_nonempty (env : gmap string string) (key : string)
    (d : list string) :
  d ≠ [] → Forall (λ x, x ≠ "") d →
  ∃ r, getEnvAsSlice env key d = Some r ∧ r ≠ [] ∧ Forall (λ x, x ≠ "") r.
Proof.
  intros Hd Hitems.
  destruct (getEnvAsSlice_result env key d) as (r & Hrun & [->|[Hne Hclean]]).
  - by exists d.
  - exists r. split; [done |]. split; [done |].
    eapply Forall_impl; [exact Hclean |]. by intros x (Hx & _).
Qed.

Section LoadFacts.
Context `{GoTime}.

(** [Load] returns whatever the environment holds, and leaves no
    setting empty whose default is not: each such text is not empty,
    and each CORS list holds at least one item and no empty one. *)
Theorem Load_leaves_no_defaulted_setting_empty (env : gmap string string) :
  ∃ c,
    Load env = Some c ∧
    Forall (λ s, s ≠ "") (defaulted_texts c) ∧
    Forall (λ l, l ≠ [] ∧ Forall (λ x, x ≠ "") l) (cors_lists c).
Proof.
  unfold Load.
  destruct (getEnvAsSlice_nonempty env "CORS_ALLOWED_ORIGINS" ["*"])
    as (origins & -> & Ho); [done | by repeat constructor |].
  destruct (getEnvAsSlice_nonempty env "CORS_ALLOWED_METHODS"
              ["GET"; "POST"; "PUT"; "DELETE"; "OPTIONS"])
    as (methods & -> & Hm); [done | by repeat constructor |].
  destruct (getEnvAsSlice_nonempty env "CORS_ALLOWED_HEADERS"
              ["Content-Type"; "Authorization"])
    as (headers & -> & Hh); [done | by repeat constructor |].
  cbn [mbind option_bind]. eexists. split; [done |]. split.
  - unfold defaulted_texts. cbn -[getEnv].
    repeat (apply Forall_cons; split; [by apply getEnv_nonempty |]).
    apply Forall_nil_2.
  - unfold cors_lists. cbn.
    repeat (apply Forall_cons; split; [done |]). apply Forall_nil_2.
Qed.

Lemma Load_Environment (env : gmap string string) (c : AppConfig) :
  Load env = Some c → Environment c = getEnv env "APP_ENV" "development".
Proof.
  unfold Load. intros Hrun.
  destruct (getEnvAsSlice env "CORS_ALLOWED_ORIGINS" _); [| done].
  destruct (getEnvAsSlice env "CORS_ALLOWED_METHODS" _); [| done].
  destruct (getEnvAsSlice env "CORS_ALLOWED_HEADERS" _); [| done].
  cbn [mbind option_bind] in Hrun. by injection Hrun as <-.
Qed.

(** The mode of a loaded configuration follows [APP_ENV]: development
    when the variable is unset, empty or [development]; production and
    test only for those very words; so at most one of the three
    predicates holds, and none for any other word. *)
Theorem Load_mode_follows_APP_ENV (env : gmap string string) (c : AppConfig) :
  Load env = Some c →
  (IsDevelopment c = true ↔
     os_Getenv env "APP_ENV" = "" ∨ os_Getenv env "APP_ENV" = "development") ∧
  (IsProduction c = true ↔ os_Getenv env "APP_ENV" = "production") ∧
  (IsTest c = true ↔ os_Getenv env "APP_ENV" = "test") ∧
  (IsDevelopment c && IsProduction c = false) ∧
  (IsDevelopment c && IsTest c = false) ∧
  (IsProduction c && IsTest c = false).
Proof.
  intros Hrun. apply Load_Environment in Hrun.
  unfold IsDevelopment, IsProduction, IsTest. rewrite Hrun.
  unfold getEnv. cbn zeta.
  destruct (String.eqb (os_Getenv env "APP_ENV") "") eqn:Hv; cbn [negb].
  - apply String.eqb_eq in Hv. rewrite Hv.
    repeat split; try done; auto.
  - apply String.eqb_neq in Hv.
    repeat split; rewrite ?String.eqb_eq; try tauto.
    + destruct (String.eqb_spec (os_Getenv env "APP_ENV") "development") as [->|];
        [done | done].
    + destruct (String.eqb_spec (os_Getenv env "APP_ENV") "development") as [->|];
        [done | done].
    + destruct (String.eqb_spec (os_Getenv env "APP_ENV") "production") as [->|];
        [done | done].
Qed.

Lemma Load_agrees (env env' : gmap string string) :
  (∀ key, key ∈ Load_variables → os_Getenv env key = os_Getenv env' key) →
  Load env = Load env'.
Proof.
  intros Hagree.
  unfold Load, getEnvAsSlice, getEnv, getEnvAsInt, getEnvAsDuration.
  repeat match goal with
  | |- context [os_Getenv env ?k] =>
      rewrite (Hagree k) by (unfold Load_variables; repeat constructor)
  end.
  done.
Qed.

Lemma Load_Port (env : gmap string string) :
  Port <$> Load env = Some (getEnv env "PORT" "8080").
Proof.
  unfold Load.
  destruct (getEnvAsSlice_result env "CORS_ALLOWED_ORIGINS" ["*"])
    as (origins & -> & _).
  destruct (getEnvAsSlice_result env "CORS_ALLOWED_METHODS"
              ["GET"; "POST"; "PUT"; "DELETE"; "OPTIONS"])
    as (methods & -> & _).
  destruct (getEnvAsSlice_result env "CORS_ALLOWED_HEADERS"
              ["Content-Type"; "Authorization"])
    as (headers & -> & _).
  done.
Qed.

(** [Load] reads no variable of the process but those it names:
    whatever [.env] defines, two process environments that have each
    of these variables unset alike or set to the same text load the
    same configuration.  Where [.env] defines none of them (or only as
    empty), a variable set to the empty text counts as unset.  That is
    not so in general: when [.env] gives [PORT] a value, a process
    with [PORT] set empty loads the default port, and a process with
    [PORT] unset loads the port of [.env]. *)
Theorem Load_reads_only_its_variables (dotenv env env' : gmap string string) :
  ((∀ key, key ∈ Load_variables → env !! key = env' !! key) →
     Load (godotenv_Load dotenv env) = Load (godotenv_Load dotenv env')) ∧
  ((∀ key, key ∈ Load_variables → os_Getenv dotenv key = "") →
   (∀ key, key ∈ Load_variables → os_Getenv env key = os_Getenv env' key) →
     Load (godotenv_Load dotenv env) = Load (godotenv_Load dotenv env')) ∧
  (∀ v, v ≠ "" →
     dotenv !! "PORT" = Some v →
     env !! "PORT" = Some "" →
     env' !! "PORT" = None →
     Port <$> Load (godotenv_Load dotenv env) = Some "8080" ∧
     Port <$> Load (godotenv_Load dotenv env') = Some v).
Proof.
  split; [| split].
  - intros Hsame. apply Load_agrees. intros key Hkey.
    unfold os_Getenv, godotenv_Load. rewrite !lookup_union.
    by rewrite (Hsame key Hkey).
  - intros Hnone Hagree. apply Load_agrees. intros key Hkey.
    specialize (Hnone key Hkey). specialize (Hagree key Hkey).
    unfold os_Getenv, godotenv_Load in *. rewrite !lookup_union.
    destruct (env !! key) as [x|], (env' !! key) as [y|],
      (dotenv !! key) as [z|]; cbn in *; congruence.
  - intros v Hv Hfile Hempty Hunset. rewrite !Load_Port.
    unfold getEnv, os_Getenv, godotenv_Load. rewrite !lookup_union.
    rewrite Hfile, Hempty, Hunset. cbn.
    apply String.eqb_neq in Hv as ->. done.
Qed.

End LoadFacts.

Lemma Load_mode_witness :
  ∃ c,
    @Load sample_time production_env = Some c ∧
    (IsDevelopment c = true ↔
       os_Getenv production_env "APP_ENV" = "" ∨
       os_Getenv production_env "APP_ENV" = "development") ∧
    (IsProduction c = true ↔ os_Getenv production_env "APP_ENV" = "production") ∧
    (IsTest c = true ↔ os_Getenv production_env "APP_ENV" = "test") ∧
    (IsDevelopment c && IsProduction c = false) ∧
    (IsDevelopment c && IsTest c = false) ∧
    (IsProduction c && IsTest c = false).
Proof.
  eexists. split; [reflexivity |].
  apply (@Load_mode_follows_APP_ENV sample_time production_env). reflexivity.
Defined.

Lemma Load_reads_witness :
  (∀ key, key ∈ Load_variables → stray_env !! key = empty_port_env !! key) ∧
  "9000" ≠ "" ∧
  sample_dotenv !! "PORT" = Some "9000" ∧
  stray_env !! "PORT" = Some "" ∧
  (∅ : gmap string string) !! "PORT" = None ∧
  @Load sample_time (godotenv_Load sample_dotenv stray_env) =
    @Load sample_time (godotenv_Load sample_dotenv empty_port_env) ∧
  Port <$> @Load sample_time (godotenv_Load sample_dotenv stray_env)
    = Some "8080" ∧
  Port <$> @Load sample_time (godotenv_Load sample_dotenv ∅) = Some "9000" ∧
  (∀ key, key ∈ Load_variables → os_Getenv ∅ key = "") ∧
  (∀ key, key ∈ Load_variables →
     os_Getenv stray_env key = os_Getenv ∅ key) ∧
  @Load sample_time (godotenv_Load ∅ stray_env) =
    @Load sample_time (godotenv_Load ∅ ∅).
Proof.
  assert (Hsame : ∀ key, key ∈ Load_variables →
            stray_env !! key = empty_port_env !! key).
  { intros key Hin. unfold Load_variables in Hin.
    repeat (apply elem_of_cons in Hin as [->|Hin]; [reflexivity |]).
    by apply elem_of_nil in Hin. }
  assert (Hv : "9000" ≠ "") by discriminate.
  assert (Hnone : ∀ key, key ∈ Load_variables → os_Getenv ∅ key = "").
  { intros key _. unfold os_Getenv. by rewrite lookup_empty. }
  assert (Hagree : ∀ key, key ∈ Load_variables →
            os_Getenv stray_env key = os_Getenv ∅ key).
  { intros key Hin. unfold Load_variables in Hin.
    repeat (apply elem_of_cons in Hin as [->|Hin]; [reflexivity |]).
    by apply elem_of_nil in Hin. }
  split; [exact Hsame |]. split; [exact Hv |].
  split; [reflexivity |]. split; [reflexivity |]. split; [reflexivity |].
  split.
  { exact (proj1 (@Load_reads_only_its_variables sample_time sample_dotenv
                    stray_env empty_port_env) Hsame). }
  assert (Hunset : (∅ : gmap string string) !! "PORT" = None)
    by reflexivity.
  destruct (proj2 (proj2 (@Load_reads_only_its_variables sample_time
                            sample_dotenv stray_env ∅))
              "9000" Hv eq_refl eq_refl Hunset) as [Hdefault Hfile].
  split; [exact Hdefault |]. split; [exact Hfile |].
  split; [exact Hnone |]. split; [exact Hagree |].
  exact (proj1 (proj2 (@Load_reads_only_its_variables sample_time ∅
                         stray_env ∅)) Hnone Hagree).
Defined.
